(** * excalidraw-sync: the S3 connector and the watch loop

    A shallow embedding of [connectors/s3connector.ts] (class [S3Connector],
    [FileObject], [Directory], [File]) and of the sync callback
    ([syncInterval]) of [extension.ts].  Asynchronous functions are embedded
    as finite
    interaction trees ([Prog]): every [await] of a collaborator (secret
    storage, S3 client, local file system, settings prompt) is a node at
    which the function is suspended, so that the same definition can be run
    to completion, run up to its first suspension (a call that is not
    awaited) or interleaved with other callbacks. *)

From Stdlib Require Import ZArith Lia Bool.
From Stdlib Require Import Strings.String Strings.Ascii Strings.Byte.
From Stdlib Require Import Sorting.Sorted.
From stdpp Require Import base option list gmap strings.

Local Open Scope string_scope.
Local Open Scope Z_scope.

(** ** JavaScript values used by the connector *)

Module Js.

(** [s.endsWith(suffix)] *)
Fixpoint endsWith (s suffix : string) : bool :=
  if String.eqb s suffix then true
  else match s with
       | EmptyString => false
       | String _ s' => endsWith s' suffix
       end.

(** [s.slice(n)] for [0 <= n] *)
Fixpoint slice (n : nat) (s : string) : string :=
  match n, s with
  | O, _ => s
  | S n', String _ s' => slice n' s'
  | S _, EmptyString => EmptyString
  end.

(** [s.replace(/\/$/, '')]: drops one trailing slash *)
Fixpoint dropTrailingSlash (s : string) : string :=
  match s with
  | EmptyString => EmptyString
  | String c s' => if String.eqb s' EmptyString
                   then (if Ascii.eqb c "/"%char then EmptyString else s)
                   else String c (dropTrailingSlash s')
  end.

(** ToBoolean on [string]: the empty string is falsy. *)
Definition truthy (s : string) : bool := negb (String.eqb s "").

(** ToBoolean on [string | undefined]. *)
Definition truthy_opt (s : option string) : bool :=
  match s with Some v => truthy v | None => false end.

(** A pending or settled [Promise]; as every object, it is truthy. *)
Inductive Promise := PromiseObject.
Definition truthy_promise (p : Promise) : bool := true.

End Js.

Abbreviation bytes := (list Byte.byte).

(** ** The logical tree: [FileObject], [Directory], [File] *)

#[warnings="-register-all"]
Inductive Directory :=
  Dir (name : string) (parentDir : option Directory).

Record File := mkFile {
  fileName : string;
  sizeBytes : nat;
  fileParentDir : option Directory }.

Inductive FileObject :=
| OfDirectory (d : Directory)
| OfFile (f : File).

Definition name (o : FileObject) : string :=
  match o with OfDirectory (Dir n _) => n | OfFile f => fileName f end.

Definition isDirectory (o : FileObject) : bool :=
  match o with OfDirectory _ => true | OfFile _ => false end.

Definition parentDir (o : FileObject) : option Directory :=
  match o with OfDirectory (Dir _ p) => p | OfFile f => fileParentDir f end.

(** The [while (current !== undefined)] loop of [getObjectKey], entered
    at a node whose [parentDir] is [d]: the parent's name is put in front
    and the walk continues from the parent. *)
Fixpoint prefixFrom (d : Directory) (name : string) : string :=
  match d with
  | Dir pname pparent =>
      let name := pname ++ "/" ++ name in
      match pparent with
      | Some p => prefixFrom p name
      | None => name
      end
  end.

Definition prefixAncestors (parent : option Directory) (name : string) : string :=
  match parent with
  | Some d => prefixFrom d name
  | None => name
  end.

Definition getObjectKey (this : FileObject) : string :=
  let name := prefixAncestors (parentDir this) (name this) in
  if isDirectory this && negb (Js.endsWith name "/") then name ++ "/" else name.

(** ** Connector data *)

Record TargetSettings := mkTargetSettings {
  accessKeyId : string;
  secretAccessKey : string;
  host : string }.

(** [new TargetSettings()] *)
Definition newTargetSettings : TargetSettings := mkTargetSettings "" "" "".

Record S3SettingsResult := mkS3SettingsResult {
  res_accessKeyId : string;
  res_secretAccessKey : string;
  res_host : string }.

(** The configuration an [S3Client] is constructed with. *)
Record S3Client := mkS3Client {
  region : string;
  endpoint : string;
  cred_accessKeyId : string;
  cred_secretAccessKey : string;
  forcePathStyle : bool }.

(** ** The S3 service, as far as the connector talks to it *)

(** User metadata of an object.  [updateFile] stores the ISO-8601 rendering
    of the local modification time under [lastModified] and
    [getUpdateTimestamp] parses it back with [new Date]; the string is
    represented by the time value (milliseconds) it denotes. *)
Record ObjectMetadata := mkMetadata {
  uploadedBy : option string;
  lastmodified : option Z }.

Record S3Object := mkS3Object {
  Body : bytes;
  Metadata : option ObjectMetadata }.

Record ListObjectsV2Input := mkListInput {
  in_Bucket : string;
  in_Prefix : option string;
  in_Delimiter : option string;
  in_ContinuationToken : option string }.

Record ObjectSummary := mkSummary {
  Key : option string;
  Size : option nat }.

Record ListObjectsV2Output := mkListOutput {
  Contents : option (list ObjectSummary);
  CommonPrefixes : option (list (option string));
  NextContinuationToken : option string }.

Record GetObjectOutput := mkGetOutput {
  httpStatusCode : Z;
  out_Body : option bytes }.

Record HeadObjectOutput := mkHeadOutput {
  out_Metadata : option ObjectMetadata }.

Record ListBucketsOutput := mkBucketsOutput {
  Buckets : option (list (option string)) }.

Inductive S3Request :=
| ListBucketsCommand
| ListObjectsV2Command (input : ListObjectsV2Input)
| GetObjectCommand (Bucket Key : string)
| PutObjectCommand (Bucket Key : string) (body : bytes) (meta : option ObjectMetadata)
| DeleteBucketCommand (Bucket : string)
| DeleteObjectCommand (Bucket Key : string)
| CreateBucketCommand (Bucket : string)
| HeadObjectCommand (Bucket Key : string).

Definition S3Output (req : S3Request) : Type :=
  match req with
  | ListBucketsCommand => ListBucketsOutput
  | ListObjectsV2Command _ => ListObjectsV2Output
  | GetObjectCommand _ _ => GetObjectOutput
  | HeadObjectCommand _ _ => HeadObjectOutput
  | PutObjectCommand _ _ _ _ | DeleteBucketCommand _
  | DeleteObjectCommand _ _ | CreateBucketCommand _ => unit
  end.

(** A bucket holds its objects in listing order (ascending keys). *)
Abbreviation Bucket := (list (string * S3Object)).

(** ** The world: connector fields, collaborators, watch state *)

Record LocalFile := mkLocalFile {
  mtime : Z;
  content : bytes }.

(** Modelled from the spec: the class [S3FileItem] in the version that
    [extension.ts] imports from [panels/ExcalidrawSyncTreeDataProvider] is
    not among the sources.  The record has the fields [extension.ts] reads
    and writes, [isDirectory], [file] and [isSyncing]; they are the
    [logicalNode] and the [syncing] flag of the spec's watch entry. *)
Record S3FileItem := mkS3FileItem {
  item_isDirectory : bool;
  item_file : option File;
  isSyncing : bool }.

Inductive Event :=
| EvSend (endpoint : string) (req : S3Request)
| EvShowErrorMessage (msg : string)
| EvShowInformationMessage (msg : string)
| EvRefresh
| EvPushBegin (fileUri : string)
| EvPushEnd (fileUri : string).

Record Connector := mkConnector {
  targets : list string;
  settings : gmap string TargetSettings;
  clients : gmap string S3Client;
  currentTarget : option string;
  currentBucket : option string;
  storagePath : string }.

Record Platform := mkPlatform {
  globalState : gmap string (list string);
  secretStorage : gmap string string;
  fs : gmap string LocalFile;
  clock : Z;
  promptAnswers : list (option S3SettingsResult) }.

Record Remote := mkRemote {
  endpoints : gmap string (gmap string Bucket);
  pageSize : nat;
  netFaults : list bool }.

Record Watch := mkWatch {
  fileWatchers : list (string * S3FileItem);
  updateTimes : gmap string Z }.

Record World := mkWorld {
  conn : Connector;
  platform : Platform;
  remote : Remote;
  watch : Watch;
  trace : list Event }.

(** Field updates. *)

Definition with_conn (f : Connector -> Connector) (w : World) : World :=
  mkWorld (f (conn w)) (platform w) (remote w) (watch w) (trace w).
Definition with_platform (f : Platform -> Platform) (w : World) : World :=
  mkWorld (conn w) (f (platform w)) (remote w) (watch w) (trace w).
Definition with_remote (f : Remote -> Remote) (w : World) : World :=
  mkWorld (conn w) (platform w) (f (remote w)) (watch w) (trace w).
Definition with_watch (f : Watch -> Watch) (w : World) : World :=
  mkWorld (conn w) (platform w) (remote w) (f (watch w)) (trace w).
Definition emit (e : Event) (w : World) : World :=
  mkWorld (conn w) (platform w) (remote w) (watch w) (trace w ++ [e]).

Definition set_targets (v : list string) : World -> World :=
  with_conn (fun c => mkConnector v (settings c) (clients c)
                        (currentTarget c) (currentBucket c) (storagePath c)).
Definition set_settings (v : gmap string TargetSettings) : World -> World :=
  with_conn (fun c => mkConnector (targets c) v (clients c)
                        (currentTarget c) (currentBucket c) (storagePath c)).
Definition set_clients (v : gmap string S3Client) : World -> World :=
  with_conn (fun c => mkConnector (targets c) (settings c) v
                        (currentTarget c) (currentBucket c) (storagePath c)).
Definition set_currentTarget (v : option string) : World -> World :=
  with_conn (fun c => mkConnector (targets c) (settings c) (clients c)
                        v (currentBucket c) (storagePath c)).
Definition set_currentBucket (v : option string) : World -> World :=
  with_conn (fun c => mkConnector (targets c) (settings c) (clients c)
                        (currentTarget c) v (storagePath c)).

Definition set_globalState (v : gmap string (list string)) : World -> World :=
  with_platform (fun p => mkPlatform v (secretStorage p) (fs p) (clock p)
                            (promptAnswers p)).
Definition set_secretStorage (v : gmap string string) : World -> World :=
  with_platform (fun p => mkPlatform (globalState p) v (fs p) (clock p)
                            (promptAnswers p)).
Definition set_fs (v : gmap string LocalFile) : World -> World :=
  with_platform (fun p => mkPlatform (globalState p) (secretStorage p) v
                            (clock p) (promptAnswers p)).
Definition set_promptAnswers (v : list (option S3SettingsResult)) : World -> World :=
  with_platform (fun p => mkPlatform (globalState p) (secretStorage p) (fs p)
                            (clock p) v).

Definition set_endpoints (v : gmap string (gmap string Bucket)) : World -> World :=
  with_remote (fun r => mkRemote v (pageSize r) (netFaults r)).
Definition set_netFaults (v : list bool) : World -> World :=
  with_remote (fun r => mkRemote (endpoints r) (pageSize r) v).

Definition set_fileWatchers (v : list (string * S3FileItem)) : World -> World :=
  with_watch (fun x => mkWatch v (updateTimes x)).
Definition set_updateTimes (v : gmap string Z) : World -> World :=
  with_watch (fun x => mkWatch (fileWatchers x) v).

(** ** The S3 service model

    Keys of a bucket are listed in ascending order, at most [pageSize] per
    response; a truncated response carries the last key it returned as
    continuation token, and a request with a token lists the keys after
    it.  With a delimiter, the keys of a page that contain it after the
    prefix are rolled up into common prefixes. *)

Definition lookupKey (k : string) (b : Bucket) : option S3Object :=
  snd <$> List.find (fun kv => String.eqb (fst kv) k) b.

Fixpoint putKey (k : string) (o : S3Object) (b : Bucket) : Bucket :=
  match b with
  | [] => [(k, o)]
  | (k', o') :: rest =>
      if String.eqb k k' then (k, o) :: rest
      else if String.ltb k k' then (k, o) :: b
      else (k', o') :: putKey k o rest
  end.

Definition removeKey (k : string) (b : Bucket) : Bucket :=
  List.filter (fun kv => negb (String.eqb (fst kv) k)) b.

Definition summary (kv : string * S3Object) : ObjectSummary :=
  mkSummary (Some (fst kv)) (Some (length (Body (snd kv)))).

(** The common prefix a key is rolled up into, if any. *)
Definition rollup (prefix : string) (delimiter : option string) (k : string)
  : option string :=
  match delimiter with
  | Some d =>
      if Js.truthy d then
        let rest := Js.slice (String.length prefix) k in
        match String.index 0 d rest with
        | Some i => Some (prefix ++ String.substring 0 (i + String.length d) rest)
        | None => None
        end
      else None
  | None => None
  end.

Definition nonempty {A} (l : list A) : option (list A) :=
  match l with [] => None | _ => Some l end.

Definition listPage (b : Bucket) (input : ListObjectsV2Input) (pageSize : nat)
  : ListObjectsV2Output :=
  let prefix := default "" (in_Prefix input) in
  let after :=
    match in_ContinuationToken input with
    | Some t => List.filter (fun kv => String.ltb t (fst kv)) b
    | None => b
    end in
  let matching := List.filter (fun kv => String.prefix prefix (fst kv)) after in
  let page := take pageSize matching in
  let rolled := fun kv => rollup prefix (in_Delimiter input) (fst kv) in
  mkListOutput
    (nonempty (summary <$> List.filter (fun kv => negb (bool_decide (is_Some (rolled kv)))) page))
    (nonempty (Some <$> remove_dups (omap rolled page)))
    (if (pageSize <? length matching)%nat then fst <$> last page else None).

(** How an awaited promise settles. *)
Inductive Settled (A : Type) : Type :=
| Fulfilled (value : A)
| Rejected (reason : string).
Arguments Fulfilled {A} value.
Arguments Rejected {A} reason.

Definition serve (pageSize : nat) (req : S3Request) (buckets : gmap string Bucket)
  : Settled (S3Output req) * gmap string Bucket :=
  match req as r return Settled (S3Output r) * gmap string Bucket with
  | ListBucketsCommand =>
      (Fulfilled (mkBucketsOutput (Some ((fun kv => Some (fst kv)) <$> map_to_list buckets))),
       buckets)
  | ListObjectsV2Command input =>
      match buckets !! in_Bucket input with
      | Some b => (Fulfilled (listPage b input pageSize), buckets)
      | None => (Rejected "NoSuchBucket", buckets)
      end
  | GetObjectCommand bucket key =>
      match buckets !! bucket with
      | Some b => match lookupKey key b with
                  | Some o => (Fulfilled (mkGetOutput 200 (Some (Body o))), buckets)
                  | None => (Rejected "NoSuchKey", buckets)
                  end
      | None => (Rejected "NoSuchBucket", buckets)
      end
  | HeadObjectCommand bucket key =>
      match buckets !! bucket with
      | Some b => match lookupKey key b with
                  | Some o => (Fulfilled (mkHeadOutput (Metadata o)), buckets)
                  | None => (Rejected "NotFound", buckets)
                  end
      | None => (Rejected "NotFound", buckets)
      end
  | PutObjectCommand bucket key body meta =>
      match buckets !! bucket with
      | Some b => (Fulfilled tt, <[bucket := putKey key (mkS3Object body meta) b]> buckets)
      | None => (Rejected "NoSuchBucket", buckets)
      end
  | DeleteObjectCommand bucket key =>
      match buckets !! bucket with
      | Some b => (Fulfilled tt, <[bucket := removeKey key b]> buckets)
      | None => (Rejected "NoSuchBucket", buckets)
      end
  | CreateBucketCommand bucket =>
      match buckets !! bucket with
      | Some _ => (Rejected "BucketAlreadyOwnedByYou", buckets)
      | None => (Fulfilled tt, <[bucket := []]> buckets)
      end
  | DeleteBucketCommand bucket =>
      match buckets !! bucket with
      | Some [] => (Fulfilled tt, delete bucket buckets)
      | Some _ => (Rejected "BucketNotEmpty", buckets)
      | None => (Rejected "NoSuchBucket", buckets)
      end
  end.

(** ** Collaborator calls and asynchronous programs *)

Inductive Call : Type -> Type :=
| SecretGet (key : string) : Call (option string)
| SecretStore (key value : string) : Call unit
| SecretDelete (key : string) : Call unit
| Send (client : S3Client) (req : S3Request) : Call (S3Output req)
| FsStat (uri : string) : Call Z
| FsReadFile (uri : string) : Call bytes
| FsWriteFile (uri : string) (data : bytes) : Call unit
| FsDelete (uri : string) : Call unit
| ShowSettingsPrompt (target : string) (keyId secretKey host : option string)
  : Call (option S3SettingsResult).

(** [client.send(command)]: the request is recorded, then it is lost to a
    network fault, or it reaches the endpoint the client was built for. *)
Definition send (client : S3Client) (req : S3Request) (w : World)
  : Settled (S3Output req) * World :=
  let w := emit (EvSend (endpoint client) req) w in
  match netFaults (remote w) with
  | true :: faults => (Rejected "NetworkingError", set_netFaults faults w)
  | faults =>
      let w := set_netFaults (tail faults) w in
      match endpoints (remote w) !! endpoint client with
      | Some buckets =>
          let '(r, buckets') := serve (pageSize (remote w)) req buckets in
          (r, set_endpoints (<[endpoint client := buckets']> (endpoints (remote w))) w)
      | None => (Rejected "ENOTFOUND", w)
      end
  end.

Definition handle {R} (c : Call R) (w : World) : Settled R * World :=
  match c in Call R return Settled R * World with
  | SecretGet key => (Fulfilled (secretStorage (platform w) !! key), w)
  | SecretStore key value =>
      (Fulfilled tt, set_secretStorage (<[key := value]> (secretStorage (platform w))) w)
  | SecretDelete key =>
      (Fulfilled tt, set_secretStorage (delete key (secretStorage (platform w))) w)
  | Send client req => send client req w
  | FsStat uri =>
      match fs (platform w) !! uri with
      | Some f => (Fulfilled (mtime f), w)
      | None => (Rejected "FileNotFound", w)
      end
  | FsReadFile uri =>
      match fs (platform w) !! uri with
      | Some f => (Fulfilled (content f), w)
      | None => (Rejected "FileNotFound", w)
      end
  | FsWriteFile uri data =>
      (Fulfilled tt,
       set_fs (<[uri := mkLocalFile (clock (platform w)) data]> (fs (platform w))) w)
  | FsDelete uri =>
      match fs (platform w) !! uri with
      | Some _ => (Fulfilled tt, set_fs (delete uri (fs (platform w))) w)
      | None => (Rejected "FileNotFound", w)
      end
  | ShowSettingsPrompt _ _ _ _ =>
      match promptAnswers (platform w) with
      | answer :: rest => (Fulfilled answer, set_promptAnswers rest w)
      | [] => (Fulfilled None, w)
      end
  end.

(** An asynchronous function body.  [Atomic] is synchronous code on the
    shared state, [Await] suspends on a collaborator call, [Start] calls
    an asynchronous function without awaiting the promise it returns. *)
Inductive Prog (A : Type) : Type :=
| Ret (a : A)
| Throw (reason : string)
| OutOfFuel
| Atomic {B : Type} (f : World -> B * World) (k : B -> Prog A)
| Await {R : Type} (c : Call R) (k : Settled R -> Prog A)
| Start {B : Type} (p : Prog B) (k : Js.Promise -> Prog A).
Arguments Ret {A} a.
Arguments Throw {A} reason.
Arguments OutOfFuel {A}.
Arguments Atomic {A B} f k.
Arguments Await {A R} c k.
Arguments Start {A B} p k.

Fixpoint bind {A B} (p : Prog A) (k : A -> Prog B) : Prog B :=
  match p with
  | Ret a => k a
  | Throw e => Throw e
  | OutOfFuel => OutOfFuel
  | Atomic f k' => Atomic f (fun b => bind (k' b) k)
  | Await c k' => Await c (fun r => bind (k' r) k)
  | Start p' k' => Start p' (fun pr => bind (k' pr) k)
  end.

Declare Scope prog_scope.
Delimit Scope prog_scope with prog.
Notation "x <- p ;; q" := (bind p (fun x => q))
  (at level 100, p at next level, right associativity) : prog_scope.
Notation "p ;; q" := (bind p (fun _ => q))
  (at level 100, right associativity) : prog_scope.
Local Open Scope prog_scope.

(** Reading and assigning shared state. *)
Definition get {B} (f : World -> B) : Prog B := Atomic (fun w => (f w, w)) Ret.
Definition modify (f : World -> World) : Prog unit := Atomic (fun w => (tt, f w)) Ret.

(** [await call]: a rejection is thrown at the [await]. *)
Definition await {R} (c : Call R) : Prog R :=
  Await c (fun r => match r with Fulfilled v => Ret v | Rejected e => Throw e end).

(** [try { await call } catch] *)
Definition try_await {R} (c : Call R) : Prog (Settled R) := Await c Ret.

(** A collaborator call whose promise is dropped. *)
Definition fire {R} (c : Call R) : Prog unit :=
  Start (Await c (fun _ => Ret tt)) (fun _ => Ret tt).

Inductive Completion (A : Type) : Type :=
| Returned (a : A)
| Threw (reason : string)
| Exhausted.
Arguments Returned {A} a.
Arguments Threw {A} reason.
Arguments Exhausted {A}.

(** A function that was started and is suspended at its first [Await]. *)
Inductive Task : Type :=
| Suspended {B : Type} (p : Prog B).

Definition pending {B} (p : Prog B) : list Task :=
  match p with
  | Await _ _ => [Suspended p]
  | _ => []
  end.

(** Run synchronously up to the first suspension. *)
Fixpoint advance {A} (p : Prog A) (w : World) : Prog A * World * list Task :=
  match p with
  | Atomic f k => let '(b, w') := f w in advance (k b) w'
  | Start p' k =>
      let '(rest, w1, sp1) := advance p' w in
      let '(q, w2, sp2) := advance (k Js.PromiseObject) w1 in
      (q, w2, (sp1 ++ pending rest ++ sp2)%list)
  | _ => (p, w, [])
  end.

(** Run to completion, every awaited call settling before anything else
    happens; what was started without [await] is returned, suspended. *)
Fixpoint run {A} (p : Prog A) (w : World) : Completion A * World * list Task :=
  match p with
  | Ret a => (Returned a, w, [])
  | Throw e => (Threw e, w, [])
  | OutOfFuel => (Exhausted, w, [])
  | Atomic f k => let '(b, w') := f w in run (k b) w'
  | Await c k => let '(r, w') := handle c w in run (k r) w'
  | Start p' k =>
      let '(rest, w1, sp1) := advance p' w in
      let '(r, w2, sp2) := run (k Js.PromiseObject) w1 in
      (r, w2, (sp1 ++ pending rest ++ sp2)%list)
  end.

(** ** [S3Connector]

    [TargetSettings] objects are represented by value: the local variable
    [settings] of [verifySettings] is threaded through the function and its
    field assignments are mirrored on the map entry that aliases it.
    [window.show...Message] is recorded in the trace; [globalState.update]
    is taken at its synchronous effect on the memento. *)

Definition showErrorMessage (msg : string) : Prog unit :=
  modify (emit (EvShowErrorMessage msg)).
Definition showInformationMessage (msg : string) : Prog unit :=
  modify (emit (EvShowInformationMessage msg)).

Definition globalState_update (key : string) (value : list string) : Prog unit :=
  modify (fun w => set_globalState (<[key := value]> (globalState (platform w))) w).

Definition settings_set (target : string) (s : TargetSettings) : Prog unit :=
  modify (fun w => set_settings (<[target := s]> (settings (conn w))) w).

Definition with_accessKeyId (v : string) (s : TargetSettings) : TargetSettings :=
  mkTargetSettings v (secretAccessKey s) (host s).
Definition with_secretAccessKey (v : string) (s : TargetSettings) : TargetSettings :=
  mkTargetSettings (accessKeyId s) v (host s).
Definition with_host (v : string) (s : TargetSettings) : TargetSettings :=
  mkTargetSettings (accessKeyId s) (secretAccessKey s) v.

(** One of the three blocks
    [if (!settings.f) { value = await secretStorage.get(..); if (value &&
    value.length > 0) settings.f = value; else return false; }]
    followed by the rest [k] of the function. *)
Definition loadSecret (target suffix : string)
    (field : TargetSettings -> string)
    (assign : string -> TargetSettings -> TargetSettings)
    (settings_ : TargetSettings) (k : TargetSettings -> Prog bool) : Prog bool :=
  if negb (Js.truthy (field settings_)) then
    value <- await (SecretGet (target ++ suffix)) ;;
    match value with
    | Some v =>
        if Js.truthy v && (0 <? String.length v)%nat then
          modify (fun w => set_settings (alter (assign v) target (settings (conn w))) w) ;;
          k (assign v settings_)
        else Ret false
    | None => Ret false
    end
  else k settings_.

Definition verifySettings (target : string) : Prog bool :=
  found <- get (fun w => settings (conn w) !! target) ;;
  settings_ <- match found with
               | Some s => Ret s
               | None => settings_set target newTargetSettings ;; Ret newTargetSettings
               end ;;
  loadSecret target "_s3AccessKeyId" accessKeyId with_accessKeyId settings_ (fun settings_ =>
  loadSecret target "_s3SecretAccessKey" secretAccessKey with_secretAccessKey settings_ (fun settings_ =>
  loadSecret target "_s3Host" host with_host settings_ (fun settings_ =>
  settings_set target settings_ ;;
  Ret true))).

Definition getClient (target : string) : Prog S3Client :=
  Start (verifySettings target) (fun verified =>
  if negb (Js.truthy_promise verified) then
    showErrorMessage ("S3 settings not configured for " ++ target) ;;
    Throw ("S3 settings not configured for " ++ target)
  else
    client <- get (fun w => clients (conn w) !! target) ;;
    match client with
    | Some client => Ret client
    | None =>
        found <- get (fun w => settings (conn w) !! target) ;;
        match found with
        | None =>
            showErrorMessage ("S3 settings not configured for " ++ target) ;;
            Throw ("S3 settings not found for " ++ target)
        | Some settings_ =>
            showInformationMessage
              ("Connecting to S3 target " ++ target ++ " at " ++ host settings_) ;;
            let client := mkS3Client "EU" (host settings_) (accessKeyId settings_)
                            (secretAccessKey settings_) true in
            modify (fun w => set_clients (<[target := client]> (clients (conn w))) w) ;;
            Ret client
        end
    end).

Definition selectBucket (bucketName : string) : Prog unit :=
  modify (set_currentBucket (Some bucketName)).

Definition getBuckets : Prog (list string) :=
  target <- get (fun w => currentTarget (conn w)) ;;
  match target with
  | None => Ret []
  | Some target =>
      client <- getClient target ;;
      response <- await (Send client ListBucketsCommand) ;;
      Ret (match Buckets response with
           | Some buckets => (fun Name => default "" Name) <$> buckets
           | None => []
           end)
  end.

Definition createBucket (bucketName : string) : Prog unit :=
  target <- get (fun w => currentTarget (conn w)) ;;
  match target with
  | None => Ret tt
  | Some target =>
      client <- getClient target ;;
      await (Send client (CreateBucketCommand bucketName))
  end.

(** [for (const obj of listResponse.Contents) if (obj.Key) await send(delete)] *)
Fixpoint deleteObjects (client : S3Client) (bucketName : string)
    (objs : list ObjectSummary) : Prog unit :=
  match objs with
  | [] => Ret tt
  | obj :: rest =>
      match Key obj with
      | Some key =>
          if Js.truthy key then
            await (Send client (DeleteObjectCommand bucketName key)) ;;
            deleteObjects client bucketName rest
          else deleteObjects client bucketName rest
      | None => deleteObjects client bucketName rest
      end
  end.

(** The [do { .. } while (continuationToken)] loop; [fuel] bounds the
    number of listing requests. *)
Fixpoint purgePages (fuel : nat) (client : S3Client) (bucketName : string)
    (continuationToken : option string) : Prog unit :=
  match fuel with
  | O => OutOfFuel
  | S fuel =>
      listResponse <- await (Send client (ListObjectsV2Command
                        (mkListInput bucketName None None continuationToken))) ;;
      match Contents listResponse with
      | Some objs =>
          if (0 <? length objs)%nat then deleteObjects client bucketName objs
          else Ret tt
      | None => Ret tt
      end ;;
      let continuationToken := NextContinuationToken listResponse in
      if Js.truthy_opt continuationToken
      then purgePages fuel client bucketName continuationToken
      else Ret tt
  end.

Definition deleteBucket (fuel : nat) (bucketName : string) : Prog unit :=
  target <- get (fun w => currentTarget (conn w)) ;;
  match target with
  | None => Ret tt
  | Some target =>
      client <- getClient target ;;
      purgePages fuel client bucketName None ;;
      await (Send client (DeleteBucketCommand bucketName))
  end.

Definition storeSettings (target : string) (result : S3SettingsResult) : Prog unit :=
  await (SecretStore (target ++ "_s3AccessKeyId") (res_accessKeyId result)) ;;
  await (SecretStore (target ++ "_s3SecretAccessKey") (res_secretAccessKey result)) ;;
  await (SecretStore (target ++ "_s3Host") (res_host result)) ;;
  settings_set target
    (mkTargetSettings (res_accessKeyId result) (res_secretAccessKey result)
       (res_host result)).

Definition addTarget (target : string) : Prog unit :=
  modify (fun w => set_targets (targets (conn w) ++ [target]) w) ;;
  targets_ <- get (fun w => targets (conn w)) ;;
  globalState_update "s3Targets" targets_ ;;
  result <- await (ShowSettingsPrompt target None None None) ;;
  match result with
  | None =>
      modify (fun w => set_targets
                (List.filter (fun t => negb (String.eqb t target)) (targets (conn w))) w) ;;
      targets_ <- get (fun w => targets (conn w)) ;;
      globalState_update "s3Targets" targets_
  | Some result => storeSettings target result
  end.

Definition editTarget (target : string) : Prog unit :=
  Start (verifySettings target) (fun verified =>
  if negb (Js.truthy_promise verified) then
    showErrorMessage ("S3 settings not configured for " ++ target)
  else
    currentSettings <- get (fun w => settings (conn w) !! target) ;;
    result <- await (ShowSettingsPrompt target
                (accessKeyId <$> currentSettings)
                (secretAccessKey <$> currentSettings)
                (host <$> currentSettings)) ;;
    match result with
    | None => Ret tt
    | Some result =>
        storeSettings target result ;;
        modify (fun w => set_clients (delete target (clients (conn w))) w)
    end).

Definition getTargets : Prog (list string) :=
  get (fun w => targets (conn w)).

Definition setTarget (target : string) : Prog unit :=
  modify (set_currentTarget (Some target)) ;;
  modify (set_currentBucket None).

Definition removeTarget (target : string) : Prog unit :=
  modify (fun w => set_targets
            (List.filter (fun t => negb (String.eqb t target)) (targets (conn w))) w) ;;
  targets_ <- get (fun w => targets (conn w)) ;;
  globalState_update "s3Targets" targets_ ;;
  current <- get (fun w => currentTarget (conn w)) ;;
  (if bool_decide (current = Some target)
   then modify (fun w => set_currentTarget (head (targets (conn w))) w)
   else Ret tt) ;;
  modify (fun w => set_settings (delete target (settings (conn w))) w) ;;
  modify (fun w => set_clients (delete target (clients (conn w))) w) ;;
  fire (SecretDelete (target ++ "_s3AccessKeyId")) ;;
  fire (SecretDelete (target ++ "_s3SecretAccessKey")) ;;
  fire (SecretDelete (target ++ "_s3Host")).

(** [this.currentTarget === undefined || this.currentBucket === undefined] *)
Definition selection (w : World) : option (string * string) :=
  match currentTarget (conn w), currentBucket (conn w) with
  | Some target, Some bucket => Some (target, bucket)
  | _, _ => None
  end.

(** [Uri.joinPath(storagePath, target, bucket, key)], as a string. *)
Definition joinPath (storagePath target bucket key : string) : string :=
  storagePath ++ "/" ++ target ++ "/" ++ bucket ++ "/" ++ key.

Definition toFileUri (file : File) : Prog string :=
  sel <- get selection ;;
  match sel with
  | None => Throw "No S3 target or bucket selected"
  | Some (target, bucket) =>
      path <- get (fun w => storagePath (conn w)) ;;
      Ret (joinPath path target bucket (getObjectKey (OfFile file)))
  end.

Definition fileExists (file : File) : Prog bool :=
  fileUri <- toFileUri file ;;
  r <- try_await (FsStat fileUri) ;;
  match r with
  | Fulfilled _ => Ret true
  | Rejected _ => Ret false
  end.

Definition directoryItems (prefix : string) (parent : option Directory)
    (prefixes : list (option string)) : list FileObject :=
  omap (fun commonPrefix =>
          match commonPrefix with
          | Some p =>
              if Js.truthy p then
                let dirName := Js.dropTrailingSlash (Js.slice (String.length prefix) p) in
                if (String.length dirName =? 0)%nat then None
                else Some (OfDirectory (Dir dirName parent))
              else None
          | None => None
          end) prefixes.

Definition fileItems (prefix : string) (parent : option Directory)
    (objs : list ObjectSummary) : list FileObject :=
  omap (fun obj =>
          match Key obj with
          | Some key =>
              if Js.truthy key && negb (String.eqb key prefix) then
                let fileName := Js.slice (String.length prefix) key in
                if negb (Js.endsWith fileName "/")
                then Some (OfFile (mkFile fileName (default O (Size obj)) parent))
                else None
              else None
          | None => None
          end) objs.

Definition getFilesInBucket (parent : option Directory) : Prog (list FileObject) :=
  sel <- get selection ;;
  match sel with
  | None => Ret []
  | Some (target, bucket) =>
      client <- getClient target ;;
      let prefix := match parent with
                    | Some d => getObjectKey (OfDirectory d)
                    | None => ""
                    end in
      response <- await (Send client (ListObjectsV2Command
                    (mkListInput bucket (Some prefix) (Some "/") None))) ;;
      Ret (directoryItems prefix parent (default [] (CommonPrefixes response))
           ++ fileItems prefix parent (default [] (Contents response)))%list
  end.

Definition getUpdateTimestamp (file : File) : Prog (option Z) :=
  sel <- get selection ;;
  match sel with
  | None =>
      showErrorMessage "No S3 target or bucket selected" ;;
      Throw "No S3 target or bucket selected"
  | Some (target, bucket) =>
      client <- getClient target ;;
      response <- await (Send client (HeadObjectCommand bucket (getObjectKey (OfFile file)))) ;;
      match out_Metadata response with
      | Some meta => Ret (lastmodified meta)
      | None => Ret None
      end
  end.

Definition getFileFromS3 (file : File) : Prog bytes :=
  sel <- get selection ;;
  match sel with
  | None =>
      showErrorMessage "No S3 target or bucket selected" ;;
      Throw "No S3 target or bucket selected"
  | Some (target, bucket) =>
      client <- getClient target ;;
      response <- await (Send client (GetObjectCommand bucket (getObjectKey (OfFile file)))) ;;
      if negb (httpStatusCode response =? 200) then
        showErrorMessage ("Failed to get file " ++ fileName file ++ " from S3") ;;
        Throw ("Failed to get file " ++ fileName file ++ " from S3")
      else
        match out_Body response with
        | Some body => Ret body
        | None => Ret []
        end
  end.

Definition getAndSyncLocalFilePath (file : File) : Prog string :=
  sel <- get selection ;;
  match sel with
  | None =>
      showErrorMessage "No S3 target or bucket selected" ;;
      Throw "No S3 target or bucket selected"
  | Some _ =>
      exists_ <- fileExists file ;;
      fileUri <- toFileUri file ;;
      if negb exists_ then
        bufferedfile <- getFileFromS3 file ;;
        await (FsWriteFile fileUri bufferedfile) ;;
        Ret fileUri
      else
        localStat <- await (FsStat fileUri) ;;
        s3Timestamp <- getUpdateTimestamp file ;;
        match s3Timestamp with
        | Some ts =>
            if localStat <? ts then
              bufferedfile <- getFileFromS3 file ;;
              await (FsWriteFile fileUri bufferedfile)
            else Ret tt
        | None => Ret tt
        end ;;
        Ret fileUri
  end.

Definition addDirectory (directory : Directory) : Prog unit :=
  sel <- get selection ;;
  match sel with
  | None => Ret tt
  | Some (target, bucket) =>
      let key := getObjectKey (OfDirectory directory) in
      client <- getClient target ;;
      await (Send client (PutObjectCommand bucket
               (if Js.endsWith key "/" then key ++ "/" else key) [] None))
  end.

Definition updateFile (file : File) (data : bytes) : Prog unit :=
  sel <- get selection ;;
  match sel with
  | None =>
      showErrorMessage
        "Could not update file due to not having a target or bucket selected"
  | Some (target, bucket) =>
      fileUri <- toFileUri file ;;
      stats <- await (FsStat fileUri) ;;
      let lastModified := stats in
      let key := getObjectKey (OfFile file) in
      client <- getClient target ;;
      await (Send client (PutObjectCommand bucket key data
               (Some (mkMetadata (Some "excalidraw-sync") (Some lastModified)))))
  end.

Definition deleteFile (file : File) : Prog unit :=
  sel <- get selection ;;
  match sel with
  | None =>
      showErrorMessage
        "Could not delete file due to not having a target or bucket selected"
  | Some (target, bucket) =>
      client <- getClient target ;;
      await (Send client (DeleteObjectCommand bucket (getObjectKey (OfFile file)))) ;;
      fileUri <- toFileUri file ;;
      r <- try_await (FsDelete fileUri) ;;
      match r with
      | Fulfilled _ => Ret tt
      | Rejected _ => showErrorMessage ("Failed to delete local file: " ++ fileUri)
      end
  end.

(** [new S3Connector(context)]: the fields after the constructor ran. *)
Definition newS3Connector (storagePath : string) : Prog unit :=
  stored <- get (fun w => globalState (platform w) !! "s3Targets") ;;
  let targets_ := default [] stored in
  modify (with_conn (fun _ =>
    mkConnector targets_ ∅ ∅ (head targets_) None storagePath)) ;;
  (fix each (ts : list string) : Prog unit :=
     match ts with
     | [] => Ret tt
     | t :: ts => Start (verifySettings t) (fun _ => each ts)
     end) targets_.

(** ** The watch loop of [extension.ts] *)

Definition refresh : Prog unit := modify (emit EvRefresh).

(** [fileItem.isSyncing = v] on the item watched under [fileUri]. *)
Definition set_isSyncing (fileUri : string) (v : bool) (w : World) : World :=
  set_fileWatchers
    ((fun e : string * S3FileItem =>
        if String.eqb (fst e) fileUri
        then (fst e, mkS3FileItem (item_isDirectory (snd e)) (item_file (snd e)) v)
        else e) <$> fileWatchers (watch w)) w.

(** The body of the [for (const [fileUri, fileItem] of _fileWatchers)] loop
    of [syncInterval].  [EvPushBegin] and [EvPushEnd] are ghost events:
    they are recorded right before [updateFile] is called and right after
    it has returned, and delimit the time the push is in flight.
    [treeDataProvider.refresh] is recorded as [EvRefresh]. *)
Definition syncEntry (fileUri : string) (fileItem : S3FileItem) : Prog unit :=
  match item_isDirectory fileItem, item_file fileItem with
  | false, Some file =>
      lastUpdate <- get (fun w => updateTimes (watch w) !! fileUri) ;;
      stat <- await (FsStat fileUri) ;;
      let modifiedTime := stat in
      match lastUpdate with
      | Some lastUpdate =>
          if lastUpdate <? modifiedTime then
            modify (set_isSyncing fileUri true) ;;
            refresh ;;
            data <- await (FsReadFile fileUri) ;;
            modify (emit (EvPushBegin fileUri)) ;;
            updateFile file data ;;
            modify (emit (EvPushEnd fileUri)) ;;
            modify (set_isSyncing fileUri false) ;;
            refresh ;;
            modify (fun w => set_updateTimes
                      (<[fileUri := modifiedTime]> (updateTimes (watch w))) w)
          else Ret tt
      | None => Ret tt
      end
  | _, _ => Ret tt
  end.

Fixpoint syncEntries (entries : list (string * S3FileItem)) : Prog unit :=
  match entries with
  | [] => Ret tt
  | (fileUri, fileItem) :: rest =>
      syncEntry fileUri fileItem ;; syncEntries rest
  end.

(** One firing of [syncInterval].  The callback never inserts into or
    deletes from [_fileWatchers], so the live iteration of the [Map] visits
    the entries it holds when the callback starts. *)
Definition syncInterval : Prog unit :=
  entries <- get (fun w => fileWatchers (watch w)) ;;
  syncEntries entries.

(** ** Interleaved execution

    A configuration holds the shared world and the callbacks that were
    started; each is suspended at an [Await] or has finished.  A step lets
    the call one of them waits for settle and runs that callback up to its
    next suspension. *)

Record Config := mkConfig {
  cfg_world : World;
  cfg_tasks : list Task }.

Definition spawn {A} (p : Prog A) (cfg : Config) : Config :=
  let '(rest, w, sp) := advance p (cfg_world cfg) in
  mkConfig w (cfg_tasks cfg ++ Suspended rest :: sp).

Definition resume (t : Task) (w : World) : Task * World * list Task :=
  match t with
  | Suspended p =>
      match p with
      | Await c k =>
          let '(r, w1) := handle c w in
          let '(rest, w2, sp) := advance (k r) w1 in
          (Suspended rest, w2, sp)
      | _ => (t, w, [])
      end
  end.

Definition step (i : nat) (cfg : Config) : Config :=
  match cfg_tasks cfg !! i with
  | Some t =>
      let '(t', w, sp) := resume t (cfg_world cfg) in
      mkConfig w (<[i := t']> (cfg_tasks cfg) ++ sp)
  | None => cfg
  end.

Definition steps (order : list nat) (cfg : Config) : Config :=
  fold_left (fun c i => step i c) order cfg.

(** ** Observations on traces and worlds *)

(** The events recorded between two worlds of one execution. *)
Definition eventsSince (w w' : World) : list Event :=
  drop (length (trace w)) (trace w').

Definition isPushBegin (fileUri : string) (e : Event) : bool :=
  match e with EvPushBegin u => String.eqb u fileUri | _ => false end.
Definition isPushEnd (fileUri : string) (e : Event) : bool :=
  match e with EvPushEnd u => String.eqb u fileUri | _ => false end.

(** Calls of [updateFile] made for the entry watched under [fileUri]. *)
Definition pushCalls (fileUri : string) (evs : list Event) : nat :=
  length (List.filter (isPushBegin fileUri) evs).

(** Pushes for [fileUri] that were begun and have not returned. *)
Definition inFlight (fileUri : string) (evs : list Event) : nat :=
  pushCalls fileUri evs - length (List.filter (isPushEnd fileUri) evs).

(** The push marks of a trace, in order. *)
Definition isMark (e : Event) : bool :=
  match e with EvPushBegin _ | EvPushEnd _ => true | _ => false end.
Definition marks (evs : list Event) : list Event := List.filter isMark evs.

(** Scanning a trace for overlapping pushes: [busy] tells whether a push
    was begun and has not returned; [None] reports a push begun while
    another one was in flight (or a return without a call). *)
Fixpoint scanPushes (busy : bool) (evs : list Event) : option bool :=
  match evs with
  | [] => Some busy
  | EvPushBegin _ :: rest => if busy then None else scanPushes true rest
  | EvPushEnd _ :: rest => if busy then scanPushes false rest else None
  | _ :: rest => scanPushes busy rest
  end.
Definition pushesSequential (evs : list Event) : bool :=
  match scanPushes false evs with Some _ => true | None => false end.

Definition isObjectDelete (e : Event) : option (string * string) :=
  match e with
  | EvSend _ (DeleteObjectCommand bucket key) => Some (bucket, key)
  | _ => None
  end.
Definition isBucketDelete (e : Event) : option string :=
  match e with
  | EvSend _ (DeleteBucketCommand bucket) => Some bucket
  | _ => None
  end.
Definition isFetch (e : Event) : bool :=
  match e with
  | EvSend _ (GetObjectCommand _ _) => true
  | _ => false
  end.
Definition isPut (e : Event) : option (string * string * bytes) :=
  match e with
  | EvSend _ (PutObjectCommand bucket key body _) => Some (bucket, key, body)
  | _ => None
  end.

(** The client [getClient] hands out: the cached one, or one built from
    the settings held for the target at that moment (blank if none). *)
Definition clientOf (settings_ : TargetSettings) : S3Client :=
  mkS3Client "EU" (host settings_) (accessKeyId settings_)
    (secretAccessKey settings_) true.
Definition resolveClient (target : string) (w : World) : S3Client :=
  match clients (conn w) !! target with
  | Some client => client
  | None => clientOf (default newTargetSettings (settings (conn w) !! target))
  end.

(** Objects of the bucket a client sees under a name. *)
Definition bucketOf (client : S3Client) (bucketName : string) (w : World)
  : option Bucket :=
  endpoints (remote w) !! endpoint client ≫= fun buckets => buckets !! bucketName.

Definition worldOf {A} (r : Completion A * World * list Task) : World := snd (fst r).
Definition completionOf {A} (r : Completion A * World * list Task) : Completion A :=
  fst (fst r).

(** The listing order of a bucket: strictly ascending keys. *)
Definition keysAscending (b : Bucket) : Prop :=
  StronglySorted (fun x y => String.ltb (fst x) (fst y) = true) b.

(** The state of the store that matters to a purge: no request is lost,
    and the client sees the bucket with the objects [objs]. *)
Definition Serving (client : S3Client) (bucketName : string) (objs : Bucket)
    (w : World) : Prop :=
  netFaults (remote w) = [] /\ bucketOf client bucketName w = Some objs.

(** The world after the endpoint of [client] served [req] and is left
    with [buckets]. *)
Definition served (client : S3Client) (req : S3Request)
    (buckets : gmap string Bucket) (w : World) : World :=
  set_endpoints (<[endpoint client := buckets]> (endpoints (remote w)))
    (set_netFaults [] (emit (EvSend (endpoint client) req) w)).

(** The [lastmodified] metadata of the object a client sees under a key. *)
Definition remoteStamp (client : S3Client) (bucketName key : string) (w : World)
  : option Z :=
  match bucketOf client bucketName w with
  | Some objs =>
      match lookupKey key objs with
      | Some o => match Metadata o with
                  | Some meta => lastmodified meta
                  | None => None
                  end
      | None => None
      end
  | None => None
  end.

(** Requests for the content of an object. *)
Definition fetches (evs : list Event) : nat := length (List.filter isFetch evs).

(** What looking at the store leaves alone: the selection, the client of
    the target, the local platform and the content of the store. *)
Definition ReadFrame (target : string) (w w' : World) : Prop :=
  selection w' = selection w /\
  storagePath (conn w') = storagePath (conn w) /\
  resolveClient target w' = resolveClient target w /\
  platform w' = platform w /\
  endpoints (remote w') = endpoints (remote w).

(** The public methods of the connector, for statements that range over
    all of them. *)
Inductive Method :=
| M_verifySettings (target : string)
| M_getClient (target : string)
| M_selectBucket (bucketName : string)
| M_getBuckets
| M_createBucket (bucketName : string)
| M_deleteBucket (fuel : nat) (bucketName : string)
| M_addTarget (target : string)
| M_editTarget (target : string)
| M_getTargets
| M_setTarget (target : string)
| M_removeTarget (target : string)
| M_getFilesInBucket (parent : option Directory)
| M_getAndSyncLocalFilePath (file : File)
| M_addDirectory (directory : Directory)
| M_updateFile (file : File) (data : bytes)
| M_deleteFile (file : File)
| M_toFileUri (file : File).

Definition discard {A} (p : Prog A) : Prog unit := p ;; Ret tt.

Definition invoke (m : Method) : Prog unit :=
  match m with
  | M_verifySettings t => discard (verifySettings t)
  | M_getClient t => discard (getClient t)
  | M_selectBucket b => selectBucket b
  | M_getBuckets => discard getBuckets
  | M_createBucket b => createBucket b
  | M_deleteBucket fuel b => deleteBucket fuel b
  | M_addTarget t => addTarget t
  | M_editTarget t => editTarget t
  | M_getTargets => discard getTargets
  | M_setTarget t => setTarget t
  | M_removeTarget t => removeTarget t
  | M_getFilesInBucket parent => discard (getFilesInBucket parent)
  | M_getAndSyncLocalFilePath f => discard (getAndSyncLocalFilePath f)
  | M_addDirectory d => addDirectory d
  | M_updateFile f data => updateFile f data
  | M_deleteFile f => deleteFile f
  | M_toFileUri f => discard (toFileUri f)
  end.

Definition assignsSelection (m : Method) : bool :=
  match m with
  | M_selectBucket _ | M_setTarget _ | M_removeTarget _ => true
  | _ => false
  end.

(** ** Frame conditions

    [Keeps R allowed p]: every synchronous step of [p] relates the world
    before to the world after by [R], and [p] awaits only calls that
    [allowed] admits. *)

Inductive Keeps (R : World -> World -> Prop) (allowed : forall X, Call X -> bool)
  : forall A, Prog A -> Prop :=
| Keeps_Ret A (a : A) : Keeps R allowed A (Ret a)
| Keeps_Throw A e : Keeps R allowed A (Throw e)
| Keeps_OutOfFuel A : Keeps R allowed A OutOfFuel
| Keeps_Atomic A B (f : World -> B * World) (k : B -> Prog A) :
    (forall w, R w (snd (f w))) ->
    (forall b, Keeps R allowed A (k b)) ->
    Keeps R allowed A (Atomic f k)
| Keeps_Await A X (c : Call X) (k : Settled X -> Prog A) :
    allowed X c = true ->
    (forall r, Keeps R allowed A (k r)) ->
    Keeps R allowed A (Await c k)
| Keeps_Start A B (p : Prog B) (k : Js.Promise -> Prog A) :
    Keeps R allowed B p ->
    (forall pr, Keeps R allowed A (k pr)) ->
    Keeps R allowed A (Start p k).
Arguments Keeps R allowed {A} p.

Definition KeepsTask (R : World -> World -> Prop) (allowed : forall X, Call X -> bool)
    (t : Task) : Prop :=
  match t with Suspended p => Keeps R allowed p end.

Definition anyCall : forall X, Call X -> bool := fun _ _ => true.

(** Calls that leave the local platform as it is: reading a secret or a
    file, and S3 requests. *)
Definition leavesPlatform : forall X, Call X -> bool :=
  fun _ c =>
    match c with
    | SecretGet _ | Send _ _ | FsStat _ | FsReadFile _ => true
    | _ => false
    end.

(** Every call but the request that deletes a bucket. *)
Definition notBucketDelete : forall X, Call X -> bool :=
  fun _ c =>
    match c with
    | Send _ (DeleteBucketCommand _) => false
    | _ => true
    end.

(** No bucket-delete request is recorded between the two worlds. *)
Definition NoBucketDelete (w w' : World) : Prop :=
  exists evs, trace w' = (trace w ++ evs)%list /\ omap isBucketDelete evs = [].

Definition sameSelection (w w' : World) : Prop :=
  currentTarget (conn w') = currentTarget (conn w) /\
  currentBucket (conn w') = currentBucket (conn w).

(** The target registry as it is persisted and selected. *)
Definition registry (w : World)
  : list string * option string * option string * gmap string (list string)
    * gmap string string :=
  (targets (conn w), currentTarget (conn w), currentBucket (conn w),
   globalState (platform w), secretStorage (platform w)).

(** What a push leaves alone: the registry, the local files and the watch
    state; it records no push mark of its own. *)
Definition Quiet (w w' : World) : Prop :=
  registry w' = registry w /\
  storagePath (conn w') = storagePath (conn w) /\
  fs (platform w') = fs (platform w) /\
  clock (platform w') = clock (platform w) /\
  watch w' = watch w /\
  exists evs, trace w' = (trace w ++ evs)%list /\ marks evs = [].

(** What a sync cycle leaves alone. *)
Definition CycleFrame (w w' : World) : Prop :=
  registry w' = registry w /\
  storagePath (conn w') = storagePath (conn w) /\
  fs (platform w') = fs (platform w) /\
  clock (platform w') = clock (platform w) /\
  fst <$> fileWatchers (watch w') = fst <$> fileWatchers (watch w).

Definition mtimeOf (w : World) (fileUri : string) : Z :=
  default 0 (mtime <$> fs (platform w) !! fileUri).

(** The test of the sync cycle on an entry: the item holds a file, a
    last-synced time is recorded, the file can be examined and its
    modification time is strictly later. *)
Definition shouldPush (w : World) (fileUri : string) (fileItem : S3FileItem) : bool :=
  match item_isDirectory fileItem, item_file fileItem,
        updateTimes (watch w) !! fileUri, fs (platform w) !! fileUri with
  | false, Some _, Some lastUpdate, Some f => lastUpdate <? mtime f
  | _, _, _, _ => false
  end.

Definition isReturned {A} (c : Completion A) : bool :=
  match c with Returned _ => true | _ => false end.

Definition entryMarks (fileUri : string) (push returned : bool) : list Event :=
  if push then EvPushBegin fileUri :: (if returned then [EvPushEnd fileUri] else [])
  else [].

(** The world [getClient] leaves behind: [verifySettings], started but not
    awaited, has made sure that a settings object exists for the target;
    a client that was not cached has been announced and cached. *)
Definition touchSettings (target : string) (w : World) : World :=
  set_settings
    (<[target := default newTargetSettings (settings (conn w) !! target)]>
       (settings (conn w))) w.

Definition connect (target : string) (w : World) : World :=
  let w1 := touchSettings target w in
  match clients (conn w) !! target with
  | Some _ => w1
  | None =>
      let s := default newTargetSettings (settings (conn w) !! target) in
      set_clients (<[target := clientOf s]> (clients (conn w)))
        (emit (EvShowInformationMessage
                 ("Connecting to S3 target " ++ target ++ " at " ++ host s)) w1)
  end.

(** ** Paths of the logical tree *)

(** The names from the root down to a directory. *)
Fixpoint ancestorNames (d : Directory) : list string :=
  match d with
  | Dir n (Some p) => (ancestorNames p ++ [n])%list
  | Dir n None => [n]
  end.

(** The names from the root down to a node. *)
Definition pathNames (o : FileObject) : list string :=
  match parentDir o with
  | Some d => (ancestorNames d ++ [name o])%list
  | None => [name o]
  end.

(** ** What [verifySettings] resolves *)

(** The value [verifySettings] ends up with for one field: the cached one
    unless it is empty, otherwise the stored secret unless it is absent or
    empty. *)
Definition fieldValue (cached : string) (stored : option string) : option string :=
  if Js.truthy cached then Some cached
  else match stored with
       | Some v => if Js.truthy v then Some v else None
       | None => None
       end.

Definition secretOf (target suffix : string) (w : World) : option string :=
  secretStorage (platform w) !! (target ++ suffix).

(** The complete settings of a target, from the cache and the secret
    storage, if all three fields can be had. *)
Definition resolveSettings (target : string) (w : World) : option TargetSettings :=
  let cached := default newTargetSettings (settings (conn w) !! target) in
  match fieldValue (accessKeyId cached) (secretOf target "_s3AccessKeyId" w),
        fieldValue (secretAccessKey cached) (secretOf target "_s3SecretAccessKey" w),
        fieldValue (host cached) (secretOf target "_s3Host" w) with
  | Some a, Some k, Some h => Some (mkTargetSettings a k h)
  | _, _, _ => None
  end.

(** The world after the three secrets and the settings entry were written. *)
Definition withSettings (t : string) (r : S3SettingsResult) (w : World) : World :=
  set_settings
    (<[t := mkTargetSettings (res_accessKeyId r) (res_secretAccessKey r) (res_host r)]>
       (settings (conn w)))
    (set_secretStorage
       (<[t ++ "_s3Host" := res_host r]>
          (<[t ++ "_s3SecretAccessKey" := res_secretAccessKey r]>
             (<[t ++ "_s3AccessKeyId" := res_accessKeyId r]> (secretStorage (platform w)))))
       w).

(** The settings a prompt result is saved as. *)
Definition settingsOf (r : S3SettingsResult) : TargetSettings :=
  mkTargetSettings (res_accessKeyId r) (res_secretAccessKey r) (res_host r).

(** All three fields of a prompt result are filled in. *)
Definition complete (r : S3SettingsResult) : bool :=
  Js.truthy (res_accessKeyId r) && Js.truthy (res_secretAccessKey r)
  && Js.truthy (res_host r).

(** ** Letting started calls settle *)

(** The calls that were started without [await] settle one after the
    other, in the order they were started, each running to its end; what
    they start in turn is returned. *)
Fixpoint settle (tasks : list Task) (w : World) : World * list Task :=
  match tasks with
  | [] => (w, [])
  | Suspended p :: rest =>
      let '(_, w1, sp1) := run p w in
      let '(w2, sp2) := settle rest w1 in
      (w2, (sp1 ++ sp2)%list)
  end.

(** ** What a method may change *)

Inductive Resource :=
| Secrets       (* the secret storage *)
| LocalFiles    (* the local copies *)
| StoreContent  (* the buckets and objects of every endpoint *)
| TargetList.   (* the target list, in memory and persisted *)

(** The methods whose code writes a resource: stores or deletes a secret,
    writes or deletes a local file, sends a request that creates, puts or
    deletes, assigns or persists the target list. *)
Definition writes (m : Method) (res : Resource) : bool :=
  match res, m with
  | Secrets, (M_addTarget _ | M_editTarget _ | M_removeTarget _) => true
  | LocalFiles, (M_getAndSyncLocalFilePath _ | M_deleteFile _) => true
  | StoreContent, (M_createBucket _ | M_deleteBucket _ _ | M_addDirectory _
                  | M_updateFile _ _ | M_deleteFile _) => true
  | TargetList, (M_addTarget _ | M_removeTarget _) => true
  | _, _ => false
  end.

Definition unchanged (res : Resource) (w w' : World) : Prop :=
  match res with
  | Secrets => secretStorage (platform w') = secretStorage (platform w)
  | LocalFiles => fs (platform w') = fs (platform w)
  | StoreContent => endpoints (remote w') = endpoints (remote w)
  | TargetList =>
      targets (conn w') = targets (conn w) /\
      globalState (platform w') = globalState (platform w)
  end.

(** The collaborator calls that leave a resource alone. *)
Definition permits (res : Resource) : forall X, Call X -> bool :=
  fun _ c =>
    match res, c with
    | Secrets, (SecretStore _ _ | SecretDelete _) => false
    | LocalFiles, (FsWriteFile _ _ | FsDelete _) => false
    | StoreContent, Send _ (PutObjectCommand _ _ _ _ | DeleteObjectCommand _ _
                           | DeleteBucketCommand _ | CreateBucketCommand _) => false
    | _, _ => true
    end.

(** The object an endpoint holds in a bucket under a key. *)
Definition objectAt (ep bucketName key : string) (w : World) : option S3Object :=
  match endpoints (remote w) !! ep with
  | Some buckets =>
      match buckets !! bucketName with
      | Some objs => lookupKey key objs
      | None => None
      end
  | None => None
  end.

(** Every object of the store is still there, possibly with a new body. *)
Definition ObjectsKept (w w' : World) : Prop :=
  forall ep bucketName key,
    is_Some (objectAt ep bucketName key w) -> is_Some (objectAt ep bucketName key w').

(** Every call but the two requests that delete. *)
Definition notDelete : forall X, Call X -> bool :=
  fun _ c =>
    match c with
    | Send _ (DeleteObjectCommand _ _ | DeleteBucketCommand _) => false
    | _ => true
    end.

Definition deletes (m : Method) : bool :=
  match m with
  | M_deleteBucket _ _ | M_deleteFile _ => true
  | _ => false
  end.

(** The persisted target list, as the constructor reads it. *)
Definition persistedTargets (w : World) : list string :=
  default [] (globalState (platform w) !! "s3Targets").

(** No delete request is recorded between the two worlds. *)
Definition NoDeleteSent (w w' : World) : Prop :=
  exists evs,
    trace w' = (trace w ++ evs)%list /\
    omap isObjectDelete evs = [] /\ omap isBucketDelete evs = [].

(** Nothing was deleted: no delete request went out and every object is
    still there. *)
Definition Harmless (w w' : World) : Prop :=
  ObjectsKept w w' /\ NoDeleteSent w w'.

(** The list in memory is the persisted one: a restart finds the same
    targets. *)
Definition Mirrored (w : World) : Prop :=
  persistedTargets w = targets (conn w).

(** The requests recorded in a trace, with the endpoint they went to. *)
Definition requests (evs : list Event) : list (string * S3Request) :=
  omap (fun e => match e with EvSend ep req => Some (ep, req) | _ => None end) evs.



(** The [lastmodified] stamp of an object. *)
Definition stampOf (o : S3Object) : option Z :=
  match Metadata o with
  | Some meta => lastmodified meta
  | None => None
  end.

(** Whether [getAndSyncLocalFilePath] takes the local copy for outdated:
    there is none, or the object carries a stamp later than the copy's
    modification time. *)
Definition outdated (copy : option LocalFile) (o : S3Object) : bool :=
  match copy with
  | None => true
  | Some lf =>
      match stampOf o with
      | Some ts => mtime lf <? ts
      | None => false
      end
  end.

(** The world a request leaves that the endpoint answered without
    changing what it holds. *)
Definition answered (client : S3Client) (req : S3Request) (w : World) : World :=
  set_netFaults [] (emit (EvSend (endpoint client) req) w).

(** ** Calls with nothing selected *)

(** The methods that test for a selected target and bucket. *)
Definition needsSelection (m : Method) : bool :=
  match m with
  | M_getFilesInBucket _ | M_getAndSyncLocalFilePath _ | M_addDirectory _
  | M_updateFile _ _ | M_deleteFile _ | M_toFileUri _ => true
  | _ => false
  end.

(** What such a method does when the test fails. *)
Inductive Refusal := Silent | Message | MessageAndThrow | ThrowOnly.

Definition refusal (m : Method) : Refusal :=
  match m with
  | M_updateFile _ _ | M_deleteFile _ => Message
  | M_getAndSyncLocalFilePath _ => MessageAndThrow
  | M_toFileUri _ => ThrowOnly
  | _ => Silent
  end.

(** ** The watch set *)

(** Two entries of [_fileWatchers] under the same key that differ at
    most in the [isSyncing] flag. *)
Definition sameEntry (e e' : string * S3FileItem) : Prop :=
  fst e' = fst e /\
  item_isDirectory (snd e') = item_isDirectory (snd e) /\
  item_file (snd e') = item_file (snd e).

Definition SameItems (w w' : World) : Prop :=
  Forall2 sameEntry (fileWatchers (watch w)) (fileWatchers (watch w')).

(** ** Editor tabs and the watch set ([extension.ts])

    The extension reads [vscode.window.tabGroups.all]; the tab groups are
    a parameter of the functions that do.  Of a tab only [tab.input] and
    the [uri] of the input matter, the latter rendered by [toString()];
    either may be [undefined]. *)

Record TabInput := mkTabInput {
  input_uri : option string }.

Record Tab := mkTab {
  tab_input : option TabInput }.

(** [_fileWatchers.has(fileUri)] *)
Definition watchers_has (fileUri : string) (m : list (string * S3FileItem)) : bool :=
  existsb (fun e => String.eqb (fst e) fileUri) m.

(** [_fileWatchers.delete(fileUri)] *)
Definition watchers_delete (fileUri : string) (m : list (string * S3FileItem))
  : list (string * S3FileItem) :=
  List.filter (fun e => negb (String.eqb (fst e) fileUri)) m.

(** The inner loop of [closeAllTabs] over the tabs of one group: the tabs
    handed to [tabGroups.close], in order, and the watch set left. *)
Fixpoint closeTabs (tabs : list Tab) (watchers : list (string * S3FileItem))
  : list Tab * list (string * S3FileItem) :=
  match tabs with
  | [] => ([], watchers)
  | tab :: rest =>
      match tab_input tab with
      | Some tabInput =>
          match input_uri tabInput with
          | Some fileUri =>
              if watchers_has fileUri watchers then
                let '(closed, watchers') :=
                  closeTabs rest (watchers_delete fileUri watchers) in
                (tab :: closed, watchers')
              else closeTabs rest watchers
          | None => closeTabs rest watchers
          end
      | None => closeTabs rest watchers
      end
  end.

(** The outer loop, over the tab groups. *)
Fixpoint closeGroups (tabGroups : list (list Tab)) (watchers : list (string * S3FileItem))
  : list Tab * list (string * S3FileItem) :=
  match tabGroups with
  | [] => ([], watchers)
  | tabs :: rest =>
      let '(closed1, watchers1) := closeTabs tabs watchers in
      let '(closed2, watchers2) := closeGroups rest watchers1 in
      ((closed1 ++ closed2)%list, watchers2)
  end.

(** [closeAllTabs()]: returns the tabs it asked the window to close. *)
Definition closeAllTabs (tabGroups : list (list Tab)) : Prog (list Tab) :=
  Atomic (fun w =>
            let '(closed, watchers) := closeGroups tabGroups (fileWatchers (watch w)) in
            (closed, set_fileWatchers watchers w)) Ret.

(** The command [excalidraw-sync.selectS3Target]. *)
Definition selectS3Target (tabGroups : list (list Tab)) (selected : string)
  : Prog (list Tab) :=
  if Js.truthy selected && (0 <? String.length selected)%nat then
    setTarget selected ;;
    closed <- closeAllTabs tabGroups ;;
    showInformationMessage ("Selected S3 Target: " ++ selected) ;;
    refresh ;;
    Ret closed
  else Ret [].

(** The command [excalidraw-sync.selectS3Bucket]. *)
Definition selectS3Bucket (tabGroups : list (list Tab)) (selected : string)
  : Prog (list Tab) :=
  if Js.truthy selected && (0 <? String.length selected)%nat then
    selectBucket selected ;;
    closed <- closeAllTabs tabGroups ;;
    showInformationMessage ("Selected S3 Bucket: " ++ selected) ;;
    refresh ;;
    Ret closed
  else Ret [].

(** The uris of the open editors, as the callback of [interval] collects
    them: reading [.uri] of an input that is [undefined] throws. *)
Fixpoint collectTabs (tabs : list Tab) (openEditors : list string)
  : option (list string) :=
  match tabs with
  | [] => Some openEditors
  | tab :: rest =>
      match tab_input tab with
      | None => None
      | Some tabInput =>
          match input_uri tabInput with
          | Some uri_ => collectTabs rest (openEditors ++ [uri_])%list
          | None => collectTabs rest openEditors
          end
      end
  end.

Fixpoint collectGroups (tabGroups : list (list Tab)) (openEditors : list string)
  : option (list string) :=
  match tabGroups with
  | [] => Some openEditors
  | tabs :: rest =>
      match collectTabs tabs openEditors with
      | Some openEditors => collectGroups rest openEditors
      | None => None
      end
  end.

(** [openEditors.find(uri => uri.toString() === fileUri.toString())],
    as a truth value. *)
Definition isOpen (openEditors : list string) (fileUri : string) : bool :=
  existsb (fun uri_ => String.eqb uri_ fileUri) openEditors.

(** [_fileWatchers.forEach(...)] of [interval], over the entries the map
    holds: an entry without an open editor is deleted from the watch set
    and from the last-synced times.  The callback deletes the entry it is
    visiting only, so every entry is visited. *)
Fixpoint pruneEntries (openEditors : list string) (entries : list (string * S3FileItem))
    (w : World) : World :=
  match entries with
  | [] => w
  | (fileUri, _) :: rest =>
      let w :=
        if negb (isOpen openEditors fileUri) then
          set_updateTimes (delete fileUri (updateTimes (watch w)))
            (set_fileWatchers (watchers_delete fileUri (fileWatchers (watch w))) w)
        else w in
      pruneEntries openEditors rest w
  end.

(** One firing of [interval]. *)
Definition interval (tabGroups : list (list Tab)) : Prog unit :=
  match collectGroups tabGroups [] with
  | None => Throw "TypeError"
  | Some openEditors =>
      modify (fun w => pruneEntries openEditors (fileWatchers (watch w)) w)
  end.

(** The uri a tab shows, if any. *)
Definition tabUri (tab : Tab) : option string :=
  tab_input tab ≫= input_uri.

(** The uris shown in the tabs. *)
Definition tabUris (tabGroups : list (list Tab)) : list string :=
  omap tabUri (concat tabGroups).

(** Every tab has an input. *)
Definition allInputs (tabGroups : list (list Tab)) : bool :=
  forallb (fun tab => bool_decide (is_Some (tab_input tab))) (concat tabGroups).

(** An entry under [fileUri] is watched and no open editor shows it:
    [interval] deletes it. *)
Definition pruned (openEditors : list string) (entries : list (string * S3FileItem))
    (fileUri : string) : bool :=
  watchers_has fileUri entries && negb (isOpen openEditors fileUri).

(** ** The settings prompt ([s3SettingsPrompt.ts])

    [S3SettingsPrompt.show] returns a promise and registers two
    callbacks on the panel it opens; it is embedded as the state of the
    promise and the panel, and the steps the callbacks make on it. *)

(** A message posted by the webview: [command] and, for [save], the three
    fields destructured from the message, any of which may be missing. *)
Inductive WebviewMessage :=
| MsgSave (accessKeyId secretAccessKey host : option string)
| MsgCancel
| MsgOther (command : string).

(** What happens to the panel: a message arrives, or the user closes it. *)
Inductive PanelEvent :=
| Received (message : WebviewMessage)
| ClosedByUser.

Record PromptState := mkPromptState {
  resolved : option (option S3SettingsResult);
  disposed : bool;
  posted : list string }.

(** [resolve(value)]: only the first call settles the promise. *)
Definition resolve (value : option S3SettingsResult) (s : PromptState) : PromptState :=
  match resolved s with
  | Some _ => s
  | None => mkPromptState (Some value) (disposed s) (posted s)
  end.

(** The callback of [panel.onDidDispose]. *)
Definition onDidDispose (s : PromptState) : PromptState := resolve None s.

(** [panel.dispose()]: disposing fires [onDidDispose], once. *)
Definition dispose (s : PromptState) : PromptState :=
  if disposed s then s
  else onDidDispose (mkPromptState (resolved s) true (posted s)).

(** The callback of [panel.webview.onDidReceiveMessage]. *)
Definition onDidReceiveMessage (message : WebviewMessage) (s : PromptState) : PromptState :=
  match message with
  | MsgSave accessKeyId_ secretAccessKey_ host_ =>
      if negb (Js.truthy_opt accessKeyId_) || negb (Js.truthy_opt secretAccessKey_)
         || negb (Js.truthy_opt host_)
      then mkPromptState (resolved s) (disposed s)
             (posted s ++ ["All fields are required."])%list
      else
        dispose (resolve (Some (mkS3SettingsResult (default "" accessKeyId_)
                                  (default "" secretAccessKey_) (default "" host_))) s)
  | MsgCancel => dispose (resolve None s)
  | MsgOther _ => s
  end.

(** A disposed panel delivers nothing more. *)
Definition deliver (s : PromptState) (e : PanelEvent) : PromptState :=
  if disposed s then s
  else match e with
       | Received message => onDidReceiveMessage message s
       | ClosedByUser => dispose s
       end.

(** [S3SettingsPrompt.show], after the given events. *)
Definition show (events : list PanelEvent) : PromptState :=
  fold_left deliver events (mkPromptState None false []).

(** The event decides the prompt: a save with all fields filled in, a
    cancel, or the user closing the panel. *)
Definition decisive (e : PanelEvent) : option (option S3SettingsResult) :=
  match e with
  | Received (MsgSave (Some a) (Some k) (Some h)) =>
      if Js.truthy a && Js.truthy k && Js.truthy h
      then Some (Some (mkS3SettingsResult a k h)) else None
  | Received (MsgSave _ _ _) => None
  | Received MsgCancel => Some None
  | Received (MsgOther _) => None
  | ClosedByUser => Some None
  end.

(** The outcome of the first decisive event, if there is one. *)
Fixpoint firstDecisive (events : list PanelEvent) : option (option S3SettingsResult) :=
  match events with
  | [] => None
  | e :: rest =>
      match decisive e with
      | Some outcome => Some outcome
      | None => firstDecisive rest
      end
  end.

(** ** Listing *)

(** The prefix [getFilesInBucket] lists under. *)
Definition listingPrefix (parent : option Directory) : string :=
  match parent with
  | Some d => getObjectKey (OfDirectory d)
  | None => ""
  end.

(** A directory whose name is not empty and has no trailing slash. *)
Definition plainName (parent : option Directory) : Prop :=
  match parent with
  | Some d => name (OfDirectory d) <> "" /\ Js.endsWith (name (OfDirectory d)) "/" = false
  | None => True
  end.

(** The objects the one request of [getFilesInBucket] is answered with:
    the first page of the keys that start with the prefix. *)
Definition firstPage (prefix : string) (pageSize : nat) (objs : Bucket) : Bucket :=
  take pageSize (List.filter (fun kv => String.prefix prefix (fst kv)) objs).

(** A name without a slash. *)
Definition noSlash (s : string) : Prop := String.index 0 "/" s = None.


(** ** Sample worlds *)

Module Sample.

Definition settingsT1 : TargetSettings := mkTargetSettings "AK" "SK" "http://h".

Definition secretsT1 : gmap string string :=
  {[ "t1_s3AccessKeyId" := "AK"; "t1_s3SecretAccessKey" := "SK";
     "t1_s3Host" := "http://h" ]}.

Definition object (stamp : option Z) : S3Object :=
  mkS3Object [] (Some (mkMetadata (Some "excalidraw-sync") stamp)).

(** Target [t1] is configured and selected together with bucket [b1],
    which holds [objs]; pages have two keys. *)
Definition configured (objs : Bucket) : World :=
  mkWorld
    (mkConnector ["t1"] {[ "t1" := settingsT1 ]} ∅ (Some "t1") (Some "b1") "/store")
    (mkPlatform {[ "s3Targets" := ["t1"] ]} secretsT1 ∅ 1000 [])
    (mkRemote {[ "http://h" := {[ "b1" := objs ]} ]} 2 [])
    (mkWatch [] ∅)
    [].

(** Target [t1] is listed, but none of its secrets is stored and
    nothing is cached. *)
Definition unconfigured : World :=
  mkWorld
    (mkConnector ["t1"] ∅ ∅ (Some "t1") None "/store")
    (mkPlatform {[ "s3Targets" := ["t1"] ]} ∅ ∅ 1000 [])
    (mkRemote ∅ 2 [])
    (mkWatch [] ∅)
    [].

(** The user dismisses the next settings prompt. *)
Definition cancelling (w : World) : World := set_promptAnswers [None] w.

(** Targets [a] and [c]; [a] is current, with bucket [b1] selected. *)
Definition twoTargets : World :=
  mkWorld
    (mkConnector ["a"; "c"] ∅ ∅ (Some "a") (Some "b1") "/store")
    (mkPlatform {[ "s3Targets" := ["a"; "c"] ]} ∅ ∅ 1000 [])
    (mkRemote ∅ 2 [])
    (mkWatch [] ∅)
    [].

Definition docs : Directory := Dir "docs" None.
Definition drawing (n : string) : File := mkFile n 12 (Some docs).
Definition fileItemOf (f : File) (syncing : bool) : S3FileItem :=
  mkS3FileItem false (Some f) syncing.

Definition uriOf (f : File) : string :=
  joinPath "/store" "t1" "b1" (getObjectKey (OfFile f)).

(** [configured], with the given files open: each is watched under its
    local uri, was last synced at [fst], and its local copy was
    modified at [snd]. *)
Definition watching (entries : list (File * bool * (Z * Z))) (w : World) : World :=
  set_fs (list_to_map ((fun e => (uriOf e.1.1, mkLocalFile e.2.2 [])) <$> entries))
    (with_watch (fun _ =>
       mkWatch ((fun e => (uriOf e.1.1, fileItemOf e.1.1 e.1.2)) <$> entries)
               (list_to_map ((fun e => (uriOf e.1.1, e.2.1)) <$> entries))) w).

End Sample.

Module Scenario.
Import Sample.

Definition fileA : File := drawing "a.excalidraw.json".
Definition fileB : File := drawing "b.excalidraw.json".

(** [a] and [b] are open; both were synced at 10 and modified at 20. *)
Definition twoModified : World :=
  watching [(fileA, false, (10, 20)); (fileB, false, (10, 20))] (configured []).

(** [a] was modified after its last sync, [b] was not. *)
Definition oneModified : World :=
  watching [(fileA, false, (10, 20)); (fileB, false, (10, 5))] (configured []).

(** As [twoModified], and the next request to the store is lost. *)
Definition faulty : World := set_netFaults [true] twoModified.

(** [a] is open and modified, and its item is already marked as syncing. *)
Definition flagged : World :=
  watching [(fileA, true, (10, 20))] (configured []).

(** [a] is open and modified; the callback fires, examines the file, reads
    it and starts the push, which is then waiting for the store to answer
    its request. *)
Definition firstFiring : Config :=
  steps [0%nat; 0%nat; 0%nat]
    (spawn syncInterval (mkConfig (watching [(fileA, false, (10, 20))] (configured [])) [])).

(** The callback fires again while that push is in flight, and gets as
    far. *)
Definition secondFiring : Config :=
  steps [1%nat; 1%nat; 1%nat] (spawn syncInterval firstFiring).

(** The store holds the drawing [a] with a [lastmodified] of 2000, the
    local clock reads 1000, and there is no local copy yet. *)
Definition aheadOfClock : World :=
  configured [("docs/a.excalidraw.json", object (Some 2000))].

(** The same with a [lastmodified] of 500. *)
Definition behindClock : World :=
  configured [("docs/a.excalidraw.json", object (Some 500))].

End Scenario.

(** * Properties *)

Local Open Scope list_scope.

(** ** Running programs *)

Lemma run_bind {A B} (p : Prog A) (k : A -> Prog B) (w : World) :
  run (bind p k) w =
  let '(c, w1, sp1) := run p w in
  match c with
  | Returned a => let '(c2, w2, sp2) := run (k a) w1 in (c2, w2, (sp1 ++ sp2)%list)
  | Threw e => (Threw e, w1, sp1)
  | Exhausted => (Exhausted, w1, sp1)
  end.
Proof.
  revert B k w. induction p as [A a|A e|A|A X f k' IH|A X c k' IH|A X p' IHp k' IH];
    intros B k w; simpl.
  - destruct (run (k a) w) as [[c2 w2] sp2]. reflexivity.
  - reflexivity.
  - reflexivity.
  - destruct (f w) as [b w']. apply IH.
  - destruct (handle c w) as [r w']. apply IH.
  - destruct (advance p' w) as [[rest w1] sp1].
    rewrite IH. destruct (run (k' Js.PromiseObject) w1) as [[c1 w2] sp2].
    destruct c1; try reflexivity.
    destruct (run (k a) w2) as [[c2 w3] sp3].
    by rewrite <- !app_assoc.
Qed.

Lemma keeps_bind R allowed {A B} (p : Prog A) (k : A -> Prog B) :
  Keeps R allowed p -> (forall a, Keeps R allowed (k a)) ->
  Keeps R allowed (bind p k).
Proof.
  intros Hp Hk. induction Hp; simpl; try (constructor; auto; fail). apply Hk.
Qed.

Lemma keeps_discard R allowed {A} (p : Prog A) :
  Keeps R allowed p -> Keeps R allowed (discard p).
Proof. intros Hp. apply keeps_bind; [exact Hp | constructor]. Qed.

Lemma keeps_get R allowed {B} (f : World -> B) :
  (forall w, R w w) -> Keeps R allowed (get f).
Proof. intros Hr. constructor; [apply Hr | constructor]. Qed.

Lemma keeps_modify R allowed (f : World -> World) :
  (forall w, R w (f w)) -> Keeps R allowed (modify f).
Proof. intros Hf. constructor; [apply Hf | constructor]. Qed.

Lemma keeps_await R allowed {X} (c : Call X) :
  allowed X c = true -> Keeps R allowed (await c).
Proof. intros Hc. constructor; [exact Hc | intros []; constructor]. Qed.

Lemma keeps_try_await R allowed {X} (c : Call X) :
  allowed X c = true -> Keeps R allowed (try_await c).
Proof. intros Hc. constructor; [exact Hc | constructor]. Qed.

Lemma keeps_fire R allowed {X} (c : Call X) :
  allowed X c = true -> Keeps R allowed (fire c).
Proof. intros Hc. repeat (constructor; auto). Qed.

Lemma keeps_pending R allowed {B} (p : Prog B) :
  Keeps R allowed p -> Forall (KeepsTask R allowed) (pending p).
Proof. intros Hp. destruct Hp; simpl; repeat constructor; auto. Qed.

Section Frames.
Variable R : World -> World -> Prop.
Variable allowed : forall X, Call X -> bool.
Hypothesis R_refl : forall w, R w w.
Hypothesis R_trans : forall w1 w2 w3, R w1 w2 -> R w2 w3 -> R w1 w3.
Hypothesis handle_ok :
  forall X (c : Call X) w, allowed X c = true -> R w (snd (handle c w)).

Lemma keeps_advance {A} (p : Prog A) (w : World) :
  Keeps R allowed p ->
  R w (snd (fst (advance p w))) /\
  Keeps R allowed (fst (fst (advance p w))) /\
  Forall (KeepsTask R allowed) (snd (advance p w)).
Proof.
  intros Hp. revert w.
  induction Hp as [A a|A e|A|A B f k Hf Hk IH|A X c k Hc Hk IH|A B p k Hp IHp Hk IH];
    intros w; simpl.
  - repeat split; auto; constructor.
  - repeat split; auto; constructor.
  - repeat split; auto; constructor.
  - specialize (Hf w). destruct (f w) as [b w1]. simpl in Hf.
    destruct (IH b w1) as (H1 & H2 & H3). repeat split; eauto.
  - repeat split; auto. constructor; auto.
  - destruct (IHp w) as (H1 & H2 & H3).
    destruct (advance p w) as [[rest w1] sp1]. simpl in *.
    destruct (IH Js.PromiseObject w1) as (H4 & H5 & H6).
    destruct (advance (k Js.PromiseObject) w1) as [[q w2] sp2]. simpl in *.
    repeat split; eauto.
    rewrite !Forall_app. repeat split; auto. by apply keeps_pending.
Qed.

Lemma keeps_run {A} (p : Prog A) (w : World) :
  Keeps R allowed p ->
  R w (worldOf (run p w)) /\ Forall (KeepsTask R allowed) (snd (run p w)).
Proof.
  intros Hp. revert w. unfold worldOf.
  induction Hp as [A a|A e|A|A B f k Hf Hk IH|A X c k Hc Hk IH|A B p k Hp IHp Hk IH];
    intros w; simpl.
  - split; auto.
  - split; auto.
  - split; auto.
  - specialize (Hf w). destruct (f w) as [b w1]. simpl in Hf.
    destruct (IH b w1) as (H1 & H2). split; eauto.
  - pose proof (handle_ok X c w Hc) as Hh.
    destruct (handle c w) as [r w1]. simpl in Hh.
    destruct (IH r w1) as (H1 & H2). split; eauto.
  - destruct (keeps_advance p w Hp) as (H1 & H2 & H3).
    destruct (advance p w) as [[rest w1] sp1]. simpl in *.
    destruct (IH Js.PromiseObject w1) as (H4 & H5).
    destruct (run (k Js.PromiseObject) w1) as [[c w2] sp2]. simpl in *.
    split; eauto.
    rewrite !Forall_app. repeat split; auto. by apply keeps_pending.
Qed.

End Frames.

(** ** The collaborators *)

Lemma send_frame client req w :
  conn (snd (send client req w)) = conn w /\
  platform (snd (send client req w)) = platform w /\
  watch (snd (send client req w)) = watch w /\
  pageSize (remote (snd (send client req w))) = pageSize (remote w) /\
  trace (snd (send client req w)) = trace w ++ [EvSend (endpoint client) req].
Proof.
  unfold send. simpl.
  destruct (netFaults (remote w)) as [|[] faults]; simpl;
    try (repeat split; reflexivity);
    (destruct (endpoints (remote w) !! endpoint client) as [buckets|]; simpl;
     [destruct (serve (pageSize (remote w)) req buckets) as [r b'] |];
     repeat split; reflexivity).
Qed.

Lemma handle_conn {X} (c : Call X) w : conn (snd (handle c w)) = conn w.
Proof.
  destruct c; simpl; try reflexivity;
    try (destruct (fs (platform w) !! uri); reflexivity).
  - apply send_frame.
  - destruct (promptAnswers (platform w)); reflexivity.
Qed.

Lemma handle_watch {X} (c : Call X) w : watch (snd (handle c w)) = watch w.
Proof.
  destruct c; simpl; try reflexivity;
    try (destruct (fs (platform w) !! uri); reflexivity).
  - apply send_frame.
  - destruct (promptAnswers (platform w)); reflexivity.
Qed.

Lemma marks_app l1 l2 : marks (l1 ++ l2) = marks l1 ++ marks l2.
Proof. unfold marks. apply List.filter_app. Qed.

Lemma Quiet_refl w : Quiet w w.
Proof.
  unfold Quiet. repeat split. exists []. split; [by rewrite app_nil_r | reflexivity].
Qed.

Lemma Quiet_trans w1 w2 w3 : Quiet w1 w2 -> Quiet w2 w3 -> Quiet w1 w3.
Proof.
  intros (A1 & A2 & A3 & A4 & A5 & e1 & A6 & A7) (B1 & B2 & B3 & B4 & B5 & e2 & B6 & B7).
  unfold Quiet. repeat split; try congruence.
  exists (e1 ++ e2). split.
  - rewrite B6, A6. by rewrite app_assoc.
  - rewrite marks_app, A7, B7. reflexivity.
Qed.

Lemma handle_Quiet X (c : Call X) w : leavesPlatform X c = true -> Quiet w (snd (handle c w)).
Proof.
  destruct c; simpl; intros Hc; try discriminate.
  - apply Quiet_refl.
  - destruct (send_frame client req w) as (H1 & H2 & H3 & H4 & H5).
    unfold Quiet, registry. rewrite H1, H2, H3. repeat split.
    exists [EvSend (endpoint client) req]. split; [exact H5 | reflexivity].
  - destruct (fs (platform w) !! uri); apply Quiet_refl.
  - destruct (fs (platform w) !! uri); apply Quiet_refl.
Qed.

Lemma sameSelection_refl w : sameSelection w w.
Proof. split; reflexivity. Qed.

Lemma sameSelection_trans w1 w2 w3 :
  sameSelection w1 w2 -> sameSelection w2 w3 -> sameSelection w1 w3.
Proof. intros [A1 A2] [B1 B2]. split; congruence. Qed.

Lemma handle_sameSelection X (c : Call X) w :
  anyCall X c = true -> sameSelection w (snd (handle c w)).
Proof. intros _. unfold sameSelection. by rewrite handle_conn. Qed.

(** ** Frames of the connector methods *)

Ltac keeps_with side :=
  repeat first
    [ apply Keeps_Ret | apply Keeps_Throw | apply Keeps_OutOfFuel
    | apply keeps_bind; [|intros ?]
    | apply keeps_get; intros ?; side
    | apply keeps_modify; intros ?; cbv beta; side
    | apply keeps_await; side
    | apply keeps_try_await; side
    | apply keeps_fire; side
    | apply Keeps_Start; [|intros ?]
    | match goal with
      | |- Keeps _ _ (match ?x with _ => _ end) => destruct x
      | |- Keeps _ _ (if ?x then _ else _) => destruct x
      end
    | solve [side] ].

Section CacheFrames.
Variable R : World -> World -> Prop.
Variable allowed : forall X, Call X -> bool.
Hypothesis R_refl : forall w, R w w.
Hypothesis R_settings : forall v w, R w (set_settings v w).
Hypothesis R_clients : forall v w, R w (set_clients v w).
Hypothesis R_info : forall m w, R w (emit (EvShowInformationMessage m) w).
Hypothesis R_error : forall m w, R w (emit (EvShowErrorMessage m) w).
Hypothesis allowed_leaves :
  forall X (c : Call X),
    leavesPlatform X c = true -> notBucketDelete X c = true -> allowed X c = true.
Hypothesis allowed_bucketDelete :
  forall client b, allowed _ (Send client (DeleteBucketCommand b)) = true.

Local Ltac side :=
  eauto using R_refl, R_settings, R_clients, R_info, R_error, allowed_bucketDelete.

Lemma keeps_verifySettings t : Keeps R allowed (verifySettings t).
Proof. unfold verifySettings, loadSecret, settings_set. keeps_with side. Qed.

Lemma keeps_getClient t : Keeps R allowed (getClient t).
Proof.
  unfold getClient, showErrorMessage, showInformationMessage.
  apply Keeps_Start; [apply keeps_verifySettings | intros ?].
  keeps_with side.
Qed.

Lemma keeps_toFileUri f : Keeps R allowed (toFileUri f).
Proof. unfold toFileUri. keeps_with side. Qed.

Lemma keeps_fileExists f : Keeps R allowed (fileExists f).
Proof.
  unfold fileExists.
  apply keeps_bind; [apply keeps_toFileUri | intros ?]. keeps_with side.
Qed.

Lemma keeps_updateFile f data : Keeps R allowed (updateFile f data).
Proof.
  unfold updateFile, showErrorMessage.
  apply keeps_bind; [keeps_with side | intros [[t b]|]]; [|keeps_with side].
  apply keeps_bind; [apply keeps_toFileUri | intros ?].
  apply keeps_bind; [keeps_with side | intros ?].
  apply keeps_bind; [apply keeps_getClient | intros ?].
  keeps_with side.
Qed.

Lemma keeps_getBuckets : Keeps R allowed getBuckets.
Proof.
  unfold getBuckets.
  apply keeps_bind; [keeps_with side | intros [t|]]; [|keeps_with side].
  apply keeps_bind; [apply keeps_getClient | intros ?]. keeps_with side.
Qed.

Lemma keeps_createBucket b : Keeps R allowed (createBucket b).
Proof.
  unfold createBucket.
  apply keeps_bind; [keeps_with side | intros [t|]]; [|keeps_with side].
  apply keeps_bind; [apply keeps_getClient | intros ?]. keeps_with side.
Qed.

Lemma keeps_deleteObjects client b objs : Keeps R allowed (deleteObjects client b objs).
Proof.
  induction objs as [|obj objs IH]; cbn [deleteObjects]; [constructor|].
  destruct (Key obj) as [key|]; [|exact IH].
  destruct (Js.truthy key); [|exact IH].
  apply keeps_bind; [keeps_with side | intros ?; exact IH].
Qed.

Lemma keeps_purgePages fuel client b token :
  Keeps R allowed (purgePages fuel client b token).
Proof.
  revert token. induction fuel as [|fuel IH]; intros token; cbn [purgePages]; [constructor|].
  apply keeps_bind; [keeps_with side | intros resp].
  apply keeps_bind.
  - destruct (Contents resp) as [objs|]; [|constructor].
    destruct (0 <? length objs)%nat; [apply keeps_deleteObjects | constructor].
  - intros _. destruct (Js.truthy_opt (NextContinuationToken resp)); [apply IH | constructor].
Qed.

Lemma keeps_deleteBucket fuel b : Keeps R allowed (deleteBucket fuel b).
Proof.
  unfold deleteBucket.
  apply keeps_bind; [keeps_with side | intros [t|]]; [|keeps_with side].
  apply keeps_bind; [apply keeps_getClient | intros ?].
  apply keeps_bind; [apply keeps_purgePages | intros ?]. keeps_with side.
Qed.

Lemma keeps_getFilesInBucket parent : Keeps R allowed (getFilesInBucket parent).
Proof.
  unfold getFilesInBucket.
  apply keeps_bind; [keeps_with side | intros [[t b]|]]; [|keeps_with side].
  apply keeps_bind; [apply keeps_getClient | intros ?]. keeps_with side.
Qed.

Lemma keeps_getUpdateTimestamp f : Keeps R allowed (getUpdateTimestamp f).
Proof.
  unfold getUpdateTimestamp, showErrorMessage.
  apply keeps_bind; [keeps_with side | intros [[t b]|]]; [|keeps_with side].
  apply keeps_bind; [apply keeps_getClient | intros ?]. keeps_with side.
Qed.

Lemma keeps_getFileFromS3 f : Keeps R allowed (getFileFromS3 f).
Proof.
  unfold getFileFromS3, showErrorMessage.
  apply keeps_bind; [keeps_with side | intros [[t b]|]]; [|keeps_with side].
  apply keeps_bind; [apply keeps_getClient | intros ?]. keeps_with side.
Qed.

Lemma keeps_addDirectory d : Keeps R allowed (addDirectory d).
Proof.
  unfold addDirectory.
  apply keeps_bind; [keeps_with side | intros [[t b]|]]; [|keeps_with side].
  apply keeps_bind; [apply keeps_getClient | intros ?]. keeps_with side.
Qed.

End CacheFrames.

(** *** The selection fields *)

Section SelectionFrames.
Local Abbreviation keepsSel := (Keeps sameSelection anyCall).

Local Ltac side := first [ reflexivity | split; reflexivity ].

Let sel_settings : forall v w, sameSelection w (set_settings v w).
Proof. intros; side. Qed.
Let sel_clients : forall v w, sameSelection w (set_clients v w).
Proof. intros; side. Qed.
Let sel_info : forall m w, sameSelection w (emit (EvShowInformationMessage m) w).
Proof. intros; side. Qed.
Let sel_error : forall m w, sameSelection w (emit (EvShowErrorMessage m) w).
Proof. intros; side. Qed.
Let sel_any : forall X (c : Call X),
  leavesPlatform X c = true -> notBucketDelete X c = true -> anyCall X c = true.
Proof. reflexivity. Qed.

Local Ltac cached lem :=
  apply lem; auto using sameSelection_refl.

Lemma sel_getClient t : keepsSel (getClient t).
Proof. cached keeps_getClient. Qed.

Lemma sel_storeSettings t r : keepsSel (storeSettings t r).
Proof. unfold storeSettings, settings_set. keeps_with side. Qed.

Lemma sel_addTarget t : keepsSel (addTarget t).
Proof.
  unfold addTarget, globalState_update.
  apply keeps_bind; [keeps_with side | intros ?].
  apply keeps_bind; [keeps_with side | intros ?].
  apply keeps_bind; [keeps_with side | intros ?].
  apply keeps_bind; [keeps_with side | intros [r|]];
    [apply sel_storeSettings | keeps_with side].
Qed.

Lemma sel_editTarget t : keepsSel (editTarget t).
Proof.
  unfold editTarget, showErrorMessage.
  apply Keeps_Start; [cached keeps_verifySettings | intros ?].
  destruct (negb (Js.truthy_promise pr)); [keeps_with side|].
  apply keeps_bind; [keeps_with side | intros ?].
  apply keeps_bind; [keeps_with side | intros [r|]]; [|keeps_with side].
  apply keeps_bind; [apply sel_storeSettings | intros ?]. keeps_with side.
Qed.

Lemma sel_getAndSyncLocalFilePath f : keepsSel (getAndSyncLocalFilePath f).
Proof.
  unfold getAndSyncLocalFilePath, showErrorMessage.
  apply keeps_bind; [keeps_with side | intros [[t b]|]]; [|keeps_with side].
  apply keeps_bind; [cached keeps_fileExists | intros ex].
  apply keeps_bind; [cached keeps_toFileUri | intros uri].
  destruct (negb ex).
  - apply keeps_bind; [cached keeps_getFileFromS3 | intros ?]. keeps_with side.
  - apply keeps_bind; [keeps_with side | intros ?].
    apply keeps_bind; [cached keeps_getUpdateTimestamp | intros [ts|]].
    + apply keeps_bind; [| intros ?; constructor].
      destruct (_ <? _); [|constructor].
      apply keeps_bind; [cached keeps_getFileFromS3 | intros ?]. keeps_with side.
    + keeps_with side.
Qed.

Lemma sel_deleteFile f : keepsSel (deleteFile f).
Proof.
  unfold deleteFile, showErrorMessage.
  apply keeps_bind; [keeps_with side | intros [[t b]|]]; [|keeps_with side].
  apply keeps_bind; [apply sel_getClient | intros ?].
  apply keeps_bind; [keeps_with side | intros ?].
  apply keeps_bind; [cached keeps_toFileUri | intros ?].
  keeps_with side.
Qed.

Lemma sel_invoke m : assignsSelection m = false -> keepsSel (invoke m).
Proof.
  destruct m; intros Hm; try discriminate Hm; cbn [invoke];
    try apply keeps_discard.
  - cached keeps_verifySettings.
  - apply sel_getClient.
  - cached keeps_getBuckets.
  - cached keeps_createBucket.
  - cached keeps_deleteBucket.
  - apply sel_addTarget.
  - apply sel_editTarget.
  - unfold getTargets. keeps_with side.
  - cached keeps_getFilesInBucket.
  - apply sel_getAndSyncLocalFilePath.
  - cached keeps_addDirectory.
  - cached keeps_updateFile.
  - apply sel_deleteFile.
  - cached keeps_toFileUri.
Qed.

End SelectionFrames.

(** ** [getClient] *)

Lemma set_settings_id w : set_settings (settings (conn w)) w = w.
Proof. by destruct w as [[] ? ? ? ?]. Qed.

Lemma touchSettings_id t s w :
  settings (conn w) !! t = Some s -> touchSettings t w = w.
Proof.
  intros E. unfold touchSettings. rewrite E. simpl.
  rewrite insert_id by done. apply set_settings_id.
Qed.

Lemma advance_verifySettings t w :
  exists rest sp, advance (verifySettings t) w = (rest, touchSettings t w, sp).
Proof.
  unfold verifySettings, loadSecret. simpl.
  destruct (settings (conn w) !! t) as [s|] eqn:E; simpl.
  - rewrite (touchSettings_id t s w E).
    destruct (Js.truthy (accessKeyId s)); simpl; [|eauto].
    destruct (Js.truthy (secretAccessKey s)); simpl; [|eauto].
    destruct (Js.truthy (host s)); simpl; [|eauto].
    rewrite insert_id by done. rewrite set_settings_id. eauto.
  - unfold touchSettings. rewrite E. simpl. eauto.
Qed.

Lemma run_getClient t w :
  exists sp, run (getClient t) w = (Returned (resolveClient t w), connect t w, sp).
Proof.
  unfold getClient. cbn [run].
  destruct (advance_verifySettings t w) as (rest & sp & ->).
  unfold resolveClient, connect. simpl.
  destruct (clients (conn w) !! t) as [c|] eqn:E; simpl; [eauto|].
  rewrite lookup_insert_eq. simpl. eauto.
Qed.

(** ** The sync cycle *)

Lemma Quiet_settings v w : Quiet w (set_settings v w).
Proof.
  unfold Quiet. repeat split. exists []. split; [by rewrite app_nil_r | reflexivity].
Qed.

Lemma Quiet_clients v w : Quiet w (set_clients v w).
Proof.
  unfold Quiet. repeat split. exists []. split; [by rewrite app_nil_r | reflexivity].
Qed.

Lemma Quiet_info m w : Quiet w (emit (EvShowInformationMessage m) w).
Proof. unfold Quiet. repeat split. eexists [_]. split; reflexivity. Qed.

Lemma Quiet_error m w : Quiet w (emit (EvShowErrorMessage m) w).
Proof. unfold Quiet. repeat split. eexists [_]. split; reflexivity. Qed.

(** A push leaves the registry, the local files and the watch state as
    they are, and records no push mark. *)
Lemma run_updateFile_Quiet f data w :
  Quiet w (worldOf (run (updateFile f data) w)).
Proof.
  apply (keeps_run Quiet leavesPlatform Quiet_refl Quiet_trans handle_Quiet).
  apply keeps_updateFile;
    auto using Quiet_refl, Quiet_settings, Quiet_clients, Quiet_info, Quiet_error.
Qed.

Lemma set_isSyncing_keys u v w :
  fst <$> fileWatchers (watch (set_isSyncing u v w)) = fst <$> fileWatchers (watch w).
Proof.
  unfold set_isSyncing. simpl. rewrite <- list_fmap_compose.
  apply list_fmap_ext. intros i [k it] _. simpl.
  by destruct (String.eqb k u).
Qed.

Lemma syncEntry_spec u it w :
  CycleFrame w (worldOf (run (syncEntry u it) w)) /\
  (forall u', u' <> u ->
     updateTimes (watch (worldOf (run (syncEntry u it) w))) !! u'
     = updateTimes (watch w) !! u') /\
  updateTimes (watch (worldOf (run (syncEntry u it) w))) !! u
  = (if shouldPush w u it && isReturned (completionOf (run (syncEntry u it) w))
     then Some (mtimeOf w u) else updateTimes (watch w) !! u) /\
  exists evs,
    trace (worldOf (run (syncEntry u it) w)) = trace w ++ evs /\
    marks evs = entryMarks u (shouldPush w u it)
                  (isReturned (completionOf (run (syncEntry u it) w))).
Proof.
  assert (Hnil : exists evs : list Event, trace w = trace w ++ evs /\ marks evs = [])
    by (exists []; split; [by rewrite app_nil_r | reflexivity]).
  unfold syncEntry, shouldPush, mtimeOf.
  destruct (item_isDirectory it); [by repeat split|].
  destruct (item_file it) as [file|]; [|by repeat split].
  pose proof (run_updateFile_Quiet file) as HQ.
  generalize dependent (updateFile file). intros push HQ.
  unfold worldOf, completionOf. simpl.
  destruct (fs (platform w) !! u) as [lf|] eqn:Efs; simpl.
  2:{ destruct (updateTimes (watch w) !! u); by repeat split. }
  destruct (updateTimes (watch w) !! u) as [last|] eqn:Elast; simpl;
    [|by repeat split].
  destruct (last <? mtime lf) eqn:Enew; simpl; [|by repeat split].
  rewrite Efs. simpl.
  rewrite run_bind.
  specialize (HQ (content lf) (emit (EvPushBegin u) (emit EvRefresh (set_isSyncing u true w)))).
  destruct (run (push (content lf)) _) as [[c w3] sp3].
  unfold worldOf in HQ. simpl in HQ.
  destruct HQ as (Q1 & Q2 & Q3 & Q4 & Q5 & evs & Q6 & Q7).
  unfold registry in Q1. simpl in Q1, Q2, Q3, Q4, Q6.
  assert (Hut : updateTimes (watch w3) = updateTimes (watch w))
    by (rewrite Q5; reflexivity).
  assert (Hkeys : fst <$> fileWatchers (watch w3) = fst <$> fileWatchers (watch w))
    by (rewrite Q5; apply set_isSyncing_keys).
  destruct c as [[]|e|]; simpl.
  - split; [|split; [|split]].
    + unfold CycleFrame, registry. repeat split; try assumption.
      etrans; [apply (set_isSyncing_keys u false (emit (EvPushEnd u) w3)) | exact Hkeys].
    + intros u' Hu'. rewrite lookup_insert_ne by done. by rewrite Hut.
    + by rewrite lookup_insert_eq.
    + exists ([EvRefresh; EvPushBegin u] ++ evs ++ [EvPushEnd u; EvRefresh]).
      split.
      * rewrite Q6. rewrite <- !app_assoc. reflexivity.
      * rewrite !marks_app, Q7. reflexivity.
  - split; [|split; [|split]].
    + unfold CycleFrame, registry. repeat split; assumption.
    + intros u' _. by rewrite Hut.
    + by rewrite Hut.
    + exists ([EvRefresh; EvPushBegin u] ++ evs). split.
      * rewrite Q6. rewrite <- !app_assoc. reflexivity.
      * rewrite !marks_app, Q7. reflexivity.
  - split; [|split; [|split]].
    + unfold CycleFrame, registry. repeat split; assumption.
    + intros u' _. by rewrite Hut.
    + by rewrite Hut.
    + exists ([EvRefresh; EvPushBegin u] ++ evs). split.
      * rewrite Q6. rewrite <- !app_assoc. reflexivity.
      * rewrite !marks_app, Q7. reflexivity.
Qed.

Lemma pushCalls_app u l1 l2 : pushCalls u (l1 ++ l2) = (pushCalls u l1 + pushCalls u l2)%nat.
Proof. unfold pushCalls. by rewrite List.filter_app, length_app. Qed.

Lemma pushCalls_marks u evs : pushCalls u (marks evs) = pushCalls u evs.
Proof.
  unfold pushCalls, marks. induction evs as [|e evs IH]; simpl; [reflexivity|].
  destruct e; simpl; try exact IH.
  destruct (String.eqb fileUri u); simpl; by rewrite IH.
Qed.

Lemma scanPushes_marks b evs : scanPushes b (marks evs) = scanPushes b evs.
Proof.
  unfold marks. revert b. induction evs as [|e evs IH]; intros b; simpl; [reflexivity|].
  destruct e; simpl; try apply IH; destruct b; try reflexivity; apply IH.
Qed.

Lemma scanPushes_app b l1 l2 :
  scanPushes b (l1 ++ l2) = scanPushes b l1 ≫= fun b' => scanPushes b' l2.
Proof.
  revert b. induction l1 as [|e l1 IH]; intros b; simpl; [reflexivity|].
  destruct e; simpl; try apply IH; destruct b; try reflexivity; apply IH.
Qed.

Lemma pushCalls_entryMarks u u' push ret :
  pushCalls u (entryMarks u' push ret)
  = if push && String.eqb u' u then 1%nat else 0%nat.
Proof.
  unfold entryMarks, pushCalls. destruct push; simpl; [|reflexivity].
  destruct (String.eqb u' u), ret; reflexivity.
Qed.

Lemma scanPushes_entryMarks u push ret :
  scanPushes false (entryMarks u push ret) = Some (push && negb ret).
Proof. destruct push, ret; reflexivity. Qed.

Lemma eventsSince_app w w' evs : trace w' = trace w ++ evs -> eventsSince w w' = evs.
Proof. intros H. unfold eventsSince. rewrite H. by rewrite drop_app_length. Qed.

Lemma CycleFrame_refl w : CycleFrame w w.
Proof. by repeat split. Qed.

Lemma CycleFrame_trans w1 w2 w3 : CycleFrame w1 w2 -> CycleFrame w2 w3 -> CycleFrame w1 w3.
Proof.
  intros (A1 & A2 & A3 & A4 & A5) (B1 & B2 & B3 & B4 & B5).
  repeat split; congruence.
Qed.

Lemma shouldPush_frame w w1 u it :
  CycleFrame w w1 ->
  updateTimes (watch w1) !! u = updateTimes (watch w) !! u ->
  shouldPush w1 u it = shouldPush w u it /\ mtimeOf w1 u = mtimeOf w u.
Proof.
  intros (_ & _ & Hfs & _ & _) Hut. unfold shouldPush, mtimeOf.
  by rewrite Hfs, Hut.
Qed.

(** What one firing of the sync callback does, entry by entry. *)
Lemma syncEntries_spec entries w :
  NoDup (fst <$> entries) ->
  CycleFrame w (worldOf (run (syncEntries entries) w)) /\
  exists evs,
    trace (worldOf (run (syncEntries entries) w)) = trace w ++ evs /\
    (exists b, scanPushes false evs = Some b /\
       (isReturned (completionOf (run (syncEntries entries) w)) = true -> b = false)) /\
    (forall u, u ∉ fst <$> entries ->
       pushCalls u evs = 0%nat /\
       updateTimes (watch (worldOf (run (syncEntries entries) w))) !! u
       = updateTimes (watch w) !! u) /\
    (forall u it, (u, it) ∈ entries ->
       (shouldPush w u it = false ->
          pushCalls u evs = 0%nat /\
          updateTimes (watch (worldOf (run (syncEntries entries) w))) !! u
          = updateTimes (watch w) !! u) /\
       (shouldPush w u it = true ->
          isReturned (completionOf (run (syncEntries entries) w)) = true ->
          pushCalls u evs = 1%nat /\
          updateTimes (watch (worldOf (run (syncEntries entries) w))) !! u
          = Some (mtimeOf w u))).
Proof.
  revert w. induction entries as [|[u0 it0] rest IH]; intros w Hnd.
  - simpl. split; [apply CycleFrame_refl|].
    exists []. split; [by rewrite app_nil_r|]. split; [by exists false|].
    split; [done|]. intros u it Hin. by apply elem_of_nil in Hin.
  - rewrite fmap_cons in Hnd. apply NoDup_cons in Hnd as [Hu0 Hnd]. simpl in Hu0.
    cbn [syncEntries]. rewrite run_bind.
    destruct (syncEntry_spec u0 it0 w) as (F0 & O0 & T0 & evs0 & E0 & M0).
    destruct (run (syncEntry u0 it0) w) as [[c0 w1] sp0].
    unfold worldOf, completionOf in F0, O0, T0, E0, M0. simpl in F0, O0, T0, E0, M0.
    assert (P0 : forall u, pushCalls u evs0
                 = if shouldPush w u0 it0 && String.eqb u0 u then 1%nat else 0%nat).
    { intros u. rewrite <- pushCalls_marks, M0. apply pushCalls_entryMarks. }
    assert (S0 : scanPushes false evs0 = Some (shouldPush w u0 it0 && negb (isReturned c0))).
    { rewrite <- scanPushes_marks, M0. apply scanPushes_entryMarks. }
    destruct c0 as [[]|e|]; simpl in T0, S0.
    + destruct (IH w1 Hnd) as (F1 & evs1 & E1 & (b & S1 & B1) & U1 & I1).
      destruct (run (syncEntries rest) w1) as [[c w'] sp1].
      unfold worldOf, completionOf in *. simpl in *.
      split; [eapply CycleFrame_trans; eauto|].
      exists (evs0 ++ evs1). split; [by rewrite E1, E0, app_assoc|].
      split; [|split].
      * exists b. split; [|exact B1].
        rewrite scanPushes_app, S0, andb_false_r. exact S1.
      * intros u Hu. apply not_elem_of_cons in Hu as [Hne Hu].
        destruct (U1 u Hu) as [U1a U1b].
        rewrite pushCalls_app, P0, U1a, U1b.
        destruct (String.eqb_spec u0 u) as [->|_]; [done|].
        rewrite andb_false_r. split; [reflexivity | by apply O0].
      * intros u it Hin. apply elem_of_cons in Hin as [[= -> ->]|Hin].
        -- destruct (U1 u0 Hu0) as [U1a U1b].
           rewrite pushCalls_app, P0, U1a, U1b, T0, String.eqb_refl, !andb_true_r.
           split; intros ->; [by split | intros _; by split].
        -- assert (Hne : u <> u0).
           { intros ->. apply Hu0. apply list_elem_of_fmap. by exists (u0, it). }
           destruct (shouldPush_frame w w1 u it F0 (O0 u Hne)) as [Hsp Hmt].
           destruct (I1 u it Hin) as [I1a I1b].
           rewrite Hsp, Hmt in *.
           rewrite pushCalls_app, P0.
           destruct (String.eqb_spec u0 u) as [->|_]; [done|].
           rewrite andb_false_r. simpl. rewrite <- (O0 u Hne).
           split; assumption.
    + split; [exact F0|]. exists evs0. split; [exact E0|].
      unfold worldOf, completionOf. simpl.
      split; [eexists; split; [exact S0 | discriminate]|].
      rewrite andb_false_r in T0.
      split.
      * intros u Hu. apply not_elem_of_cons in Hu as [Hne _].
        rewrite P0. destruct (String.eqb_spec u0 u) as [->|_]; [done|].
        rewrite andb_false_r. split; [reflexivity | by apply O0].
      * intros u it Hin. split; [|discriminate].
        apply elem_of_cons in Hin as [[= -> ->]|Hin].
        -- intros Hf. rewrite P0, Hf. by split.
        -- intros _. assert (Hne : u <> u0).
           { intros ->. apply Hu0. apply list_elem_of_fmap. by exists (u0, it). }
           rewrite P0. destruct (String.eqb_spec u0 u) as [->|_]; [done|].
           rewrite andb_false_r. split; [reflexivity | by apply O0].
    + split; [exact F0|]. exists evs0. split; [exact E0|].
      unfold worldOf, completionOf. simpl.
      split; [eexists; split; [exact S0 | discriminate]|].
      rewrite andb_false_r in T0.
      split.
      * intros u Hu. apply not_elem_of_cons in Hu as [Hne _].
        rewrite P0. destruct (String.eqb_spec u0 u) as [->|_]; [done|].
        rewrite andb_false_r. split; [reflexivity | by apply O0].
      * intros u it Hin. split; [|discriminate].
        apply elem_of_cons in Hin as [[= -> ->]|Hin].
        -- intros Hf. rewrite P0, Hf. by split.
        -- intros _. assert (Hne : u <> u0).
           { intros ->. apply Hu0. apply list_elem_of_fmap. by exists (u0, it). }
           rewrite P0. destruct (String.eqb_spec u0 u) as [->|_]; [done|].
           rewrite andb_false_r. split; [reflexivity | by apply O0].
Qed.

Lemma run_syncInterval w :
  run syncInterval w = run (syncEntries (fileWatchers (watch w))) w.
Proof. reflexivity. Qed.

(** A cycle that does not return stopped at one entry: the entries before
    it were handled as usual, the entries after it were not looked at. *)
Lemma syncEntries_abort entries w :
  NoDup (fst <$> entries) ->
  isReturned (completionOf (run (syncEntries entries) w)) = false ->
  exists pre u it post evs,
    entries = pre ++ (u, it) :: post /\
    trace (worldOf (run (syncEntries entries) w)) = trace w ++ evs /\
    (forall u' it', (u', it') ∈ pre ->
       pushCalls u' evs = (if shouldPush w u' it' then 1%nat else 0%nat) /\
       updateTimes (watch (worldOf (run (syncEntries entries) w))) !! u'
       = if shouldPush w u' it' then Some (mtimeOf w u')
         else updateTimes (watch w) !! u') /\
    updateTimes (watch (worldOf (run (syncEntries entries) w))) !! u
    = updateTimes (watch w) !! u /\
    (forall u' it', (u', it') ∈ post ->
       pushCalls u' evs = 0%nat /\
       updateTimes (watch (worldOf (run (syncEntries entries) w))) !! u'
       = updateTimes (watch w) !! u').
Proof.
  revert w. induction entries as [|[u0 it0] rest IH]; intros w Hnd; [discriminate|].
  rewrite fmap_cons in Hnd. apply NoDup_cons in Hnd as [Hu0 Hnd]. simpl in Hu0.
  cbn [syncEntries]. rewrite run_bind.
  destruct (syncEntry_spec u0 it0 w) as (F0 & O0 & T0 & evs0 & E0 & M0).
  destruct (run (syncEntry u0 it0) w) as [[c0 w1] sp0].
  unfold worldOf, completionOf in F0, O0, T0, E0, M0. simpl in F0, O0, T0, E0, M0.
  assert (P0 : forall u, pushCalls u evs0
               = if shouldPush w u0 it0 && String.eqb u0 u then 1%nat else 0%nat).
  { intros u. rewrite <- pushCalls_marks, M0. apply pushCalls_entryMarks. }
  assert (Hrest : forall u it, (u, it) ∈ rest -> u <> u0).
  { intros u it Hin ->. apply Hu0. apply list_elem_of_fmap. by exists (u0, it). }
  assert (Q0 : forall u, u <> u0 -> pushCalls u evs0 = 0%nat).
  { intros u Hne. rewrite P0. destruct (String.eqb_spec u0 u) as [->|_]; [done|].
    by rewrite andb_false_r. }
  destruct c0 as [[]|e|]; simpl in T0.
  - destruct (syncEntries_spec rest w1 Hnd) as (_ & evs1' & E1' & _ & U1 & _).
    specialize (IH w1 Hnd).
    destruct (run (syncEntries rest) w1) as [[c w'] sp1].
    unfold worldOf, completionOf in *. simpl in *. intros Hc.
    destruct (IH Hc) as (pre & u & it & post & evs1 & -> & E1 & Hpre & Hu & Hpost).
    assert (evs1' = evs1) as -> by (rewrite E1 in E1'; by apply app_inv_head in E1').
    exists ((u0, it0) :: pre), u, it, post, (evs0 ++ evs1).
    split; [reflexivity|]. split; [by rewrite E1, E0, app_assoc|].
    assert (Hin_u : (u, it) ∈ pre ++ (u, it) :: post)
      by (apply elem_of_app; right; apply list_elem_of_here).
    split; [|split].
    + intros u' it' Hin. apply elem_of_cons in Hin as [[= -> ->]|Hin].
      * destruct (U1 u0 Hu0) as [Ua Ub].
        rewrite pushCalls_app, P0, Ua, Ub, T0, String.eqb_refl, !andb_true_r.
        by destruct (shouldPush w u0 it0).
      * assert (Hne : u' <> u0) by (eapply Hrest, elem_of_app; left; exact Hin).
        destruct (shouldPush_frame w w1 u' it' F0 (O0 u' Hne)) as [Hsp Hmt].
        destruct (Hpre u' it' Hin) as [Ha Hb].
        rewrite pushCalls_app, (Q0 u' Hne), Ha, Hb, Hsp, Hmt, (O0 u' Hne). by split.
    + rewrite Hu. apply O0. eapply Hrest, Hin_u.
    + intros u' it' Hin.
      assert (Hne : u' <> u0)
        by (eapply Hrest, elem_of_app; right; apply list_elem_of_further, Hin).
      destruct (Hpost u' it' Hin) as [Ha Hb].
      rewrite pushCalls_app, (Q0 u' Hne), Ha, Hb, (O0 u' Hne). by split.
  - intros _. exists [], u0, it0, rest, evs0.
    unfold worldOf. simpl. rewrite andb_false_r in T0.
    split; [reflexivity|]. split; [exact E0|]. split; [|split].
    + intros u' it' Hin. by apply elem_of_nil in Hin.
    + exact T0.
    + intros u' it' Hin. split; [eapply Q0, Hrest, Hin | eapply O0, Hrest, Hin].
  - intros _. exists [], u0, it0, rest, evs0.
    unfold worldOf. simpl. rewrite andb_false_r in T0.
    split; [reflexivity|]. split; [exact E0|]. split; [|split].
    + intros u' it' Hin. by apply elem_of_nil in Hin.
    + exact T0.
    + intros u' it' Hin. split; [eapply Q0, Hrest, Hin | eapply O0, Hrest, Hin].
Qed.

(** ** Purging and deleting a bucket *)

Lemma ltb_irrefl k : String.ltb k k = false.
Proof.
  unfold String.ltb. pose proof (String.compare_antisym k k) as H.
  destruct (String.compare k k); simpl in H; try discriminate; reflexivity.
Qed.

Lemma filter_all {A} (f : A -> bool) (l : list A) :
  Forall (fun x => f x = true) l -> List.filter f l = l.
Proof.
  induction 1 as [|x l Hx _ IH]; simpl; [reflexivity|]. by rewrite Hx, IH.
Qed.

Lemma removeKey_head k o (tl : Bucket) :
  keysAscending ((k, o) :: tl) -> removeKey k ((k, o) :: tl) = tl.
Proof.
  intros Hs. apply StronglySorted_inv in Hs as [_ Hall].
  unfold removeKey. simpl. rewrite String.eqb_refl. simpl.
  apply filter_all. eapply Forall_impl; [exact Hall|].
  intros [k' o'] Hlt. simpl in *.
  destruct (String.eqb_spec k' k) as [->|_]; [|reflexivity].
  by rewrite ltb_irrefl in Hlt.
Qed.

Lemma send_served client req w buckets :
  netFaults (remote w) = [] ->
  endpoints (remote w) !! endpoint client = Some buckets ->
  send client req w
  = (fst (serve (pageSize (remote w)) req buckets),
     served client req (snd (serve (pageSize (remote w)) req buckets)) w).
Proof.
  intros Hf He. unfold send, served. simpl. rewrite Hf. simpl. rewrite He.
  by destruct (serve _ req buckets).
Qed.

Lemma Serving_endpoint client bucketName objs w :
  Serving client bucketName objs w ->
  netFaults (remote w) = [] /\
  exists buckets,
    endpoints (remote w) !! endpoint client = Some buckets /\
    buckets !! bucketName = Some objs.
Proof.
  intros [Hf Hb]. split; [exact Hf|]. unfold bucketOf in Hb.
  destruct (endpoints (remote w) !! endpoint client) as [buckets|]; [|discriminate].
  by exists buckets.
Qed.

Lemma truthy_nonempty k : k <> "" -> Js.truthy k = true.
Proof. intros Hk. unfold Js.truthy. by destruct (String.eqb_spec k ""). Qed.

Lemma keysAscending_app_r (l1 l2 : Bucket) : keysAscending (l1 ++ l2) -> keysAscending l2.
Proof.
  induction l1 as [|x l1 IH]; simpl; [done|].
  intros H. apply StronglySorted_inv in H as [H _]. by apply IH.
Qed.

Lemma run_deleteObjects client bucketName page rest w :
  Serving client bucketName (page ++ rest) w ->
  keysAscending (page ++ rest) ->
  Forall (fun kv => fst kv <> "") page ->
  exists w' sp,
    run (deleteObjects client bucketName (summary <$> page)) w = (Returned tt, w', sp) /\
    Serving client bucketName rest w' /\
    pageSize (remote w') = pageSize (remote w) /\
    trace w' = trace w ++
      ((fun kv => EvSend (endpoint client) (DeleteObjectCommand bucketName (fst kv)))
         <$> page).
Proof.
  revert w. induction page as [|[k o] page IH]; intros w Hs Hsorted Hkeys.
  - simpl. exists w, []. repeat split; try apply Hs. by rewrite app_nil_r.
  - apply Forall_cons in Hkeys as [Hk Hkeys]. simpl in Hk.
    rewrite <- app_comm_cons in Hs, Hsorted.
    destruct (Serving_endpoint _ _ _ _ Hs) as (Hf & buckets & He & Hb).
    rewrite fmap_cons. cbn [deleteObjects summary Key fst].
    rewrite (truthy_nonempty k Hk). rewrite run_bind.
    unfold await. cbn [run handle]. rewrite (send_served _ _ _ _ Hf He).
    cbn [serve]. rewrite Hb. cbn [fst snd run].
    rewrite (removeKey_head k o _ Hsorted).
    set (w1 := served _ _ _ w).
    assert (Hs1 : Serving client bucketName (page ++ rest) w1).
    { split; [reflexivity|]. unfold bucketOf, w1, served. simpl.
      rewrite lookup_insert_eq. simpl. by rewrite lookup_insert_eq. }
    apply StronglySorted_inv in Hsorted as [Hsorted _].
    destruct (IH w1 Hs1 Hsorted Hkeys) as (w' & sp & -> & Hs' & Hp & Ht).
    exists w', ([] ++ sp). repeat split; try apply Hs'.
    + by rewrite Hp.
    + rewrite Ht. unfold w1, served. simpl. by rewrite <- app_assoc.
Qed.

Lemma omap_none {A B} (l : list A) : omap (fun _ : A => @None B) l = [].
Proof. induction l as [|x l IH]; simpl; [reflexivity | exact IH]. Qed.

(** A listing without prefix and delimiter, at a token below all keys
    that are left: the first page of what is left. *)
Lemma listPage_all (objs : Bucket) bucketName token n :
  (forall t, token = Some t -> Forall (fun kv => String.ltb t (fst kv) = true) objs) ->
  listPage objs (mkListInput bucketName None None token) n
  = mkListOutput (nonempty (summary <$> take n objs)) None
      (if (n <? length objs)%nat then fst <$> last (take n objs) else None).
Proof.
  intros Htok. unfold listPage. cbn [in_Prefix in_Delimiter in_ContinuationToken default rollup].
  assert (Hafter : match token with
                   | Some t => List.filter (fun kv => String.ltb t (fst kv)) objs
                   | None => objs
                   end = objs).
  { destruct token as [t|]; [|reflexivity]. apply filter_all. by apply Htok. }
  rewrite Hafter.
  assert (Hmatch : List.filter (fun kv : string * S3Object => String.prefix "" (fst kv)) objs = objs).
  { apply filter_all. apply Forall_forall. intros [k o] _. by destruct k. }
  rewrite Hmatch.
  rewrite omap_none. cbn [remove_dups fmap list_fmap nonempty].
  f_equal. f_equal. f_equal. apply filter_all. apply Forall_forall. by intros.
Qed.

Lemma keysAscending_app_lt (l1 l2 : Bucket) x :
  keysAscending (l1 ++ l2) -> x ∈ l1 ->
  Forall (fun kv => String.ltb (fst x) (fst kv) = true) l2.
Proof.
  induction l1 as [|y l1 IH]; simpl; intros Hs Hin; [by apply elem_of_nil in Hin|].
  apply StronglySorted_inv in Hs as [Hs Hall].
  apply elem_of_cons in Hin as [->|Hin]; [|by apply IH].
  apply Forall_app in Hall as [_ Hall]. exact Hall.
Qed.

Lemma last_elem_of {A} (l : list A) x : last l = Some x -> x ∈ l.
Proof.
  intros H. apply last_Some in H as [l' ->]. apply elem_of_app. right.
  apply list_elem_of_here.
Qed.

Lemma omap_objectDelete_deletes ep bucketName (page : Bucket) :
  omap isObjectDelete
    ((fun kv => EvSend ep (DeleteObjectCommand bucketName (fst kv))) <$> page)
  = (fun kv => (bucketName, fst kv)) <$> page.
Proof. induction page as [|p page IH]; csimpl; [done | by rewrite IH]. Qed.

Lemma omap_bucketDelete_deletes ep bucketName (page : Bucket) :
  omap isBucketDelete
    ((fun kv => EvSend ep (DeleteObjectCommand bucketName (fst kv))) <$> page)
  = [].
Proof. induction page as [|p page IH]; csimpl; [done | exact IH]. Qed.

Lemma run_purgePages fuel client bucketName objs token w :
  Serving client bucketName objs w ->
  (0 < pageSize (remote w))%nat ->
  keysAscending objs ->
  Forall (fun kv => fst kv <> "") objs ->
  (forall t, token = Some t -> Forall (fun kv => String.ltb t (fst kv) = true) objs) ->
  (length objs < fuel)%nat ->
  exists w' sp evs,
    run (purgePages fuel client bucketName token) w = (Returned tt, w', sp) /\
    Serving client bucketName [] w' /\
    trace w' = trace w ++ evs /\
    omap isObjectDelete evs = (fun kv => (bucketName, fst kv)) <$> objs /\
    omap isBucketDelete evs = [].
Proof.
  revert objs token w. induction fuel as [|fuel IH];
    intros objs token w Hs Hn Hsorted Hkeys Htok Hfuel; [lia|].
  destruct (Serving_endpoint _ _ _ _ Hs) as (Hf & buckets & He & Hb).
  cbn [purgePages]. rewrite run_bind. unfold await. cbn [run handle].
  rewrite (send_served _ _ _ _ Hf He). cbn [serve in_Bucket]. rewrite Hb.
  cbn [fst snd run]. rewrite (listPage_all _ _ _ _ Htok).
  cbn [Contents NextContinuationToken].
  set (n := pageSize (remote w)) in *.
  set (w1 := served _ _ buckets w).
  assert (Hs1 : Serving client bucketName objs w1).
  { split; [reflexivity|]. unfold bucketOf, w1, served. simpl.
    by rewrite lookup_insert_eq. }
  assert (Hn1 : pageSize (remote w1) = n) by reflexivity.
  assert (Ht1 : trace w1 = trace w ++
            [EvSend (endpoint client)
               (ListObjectsV2Command (mkListInput bucketName None None token))])
    by reflexivity.
  clearbody w1.
  destruct objs as [|x objs'].
  { rewrite take_nil. simpl.
    replace (n <? 0)%nat with false by (symmetry; apply Nat.ltb_ge; lia). simpl.
    eexists w1, [], _. split; [reflexivity|]. split; [exact Hs1|].
    split; [exact Ht1|]. split; reflexivity. }
  remember (x :: objs') as objs eqn:Eobjs.
  assert (Hlen : (0 < length objs)%nat) by (rewrite Eobjs; simpl; lia).
  clear Eobjs x objs'.
  set (page := take n objs). set (rest := drop n objs).
  assert (Hsplit : objs = page ++ rest) by (symmetry; apply take_drop).
  assert (Hpage : (0 < length page)%nat).
  { unfold page. rewrite length_take. lia. }
  destruct (nonempty (summary <$> page)) as [summaries|] eqn:Hne.
  2:{ destruct page; [simpl in Hpage; lia | discriminate]. }
  assert (summaries = summary <$> page) as ->.
  { destruct page; [discriminate|]. simpl in Hne. by injection Hne as <-. }
  rewrite length_fmap.
  replace (0 <? length page)%nat with true by (symmetry; apply Nat.ltb_lt; lia).
  rewrite run_bind.
  rewrite Hsplit in Hs1, Hsorted, Hkeys.
  apply Forall_app in Hkeys as [Hkeys_page Hkeys_rest].
  destruct (run_deleteObjects client bucketName page rest w1 Hs1 Hsorted Hkeys_page)
    as (w2 & sp2 & -> & Hs2 & Hn2 & Ht2).
  destruct (n <? length objs)%nat eqn:Hmore.
  - apply Nat.ltb_lt in Hmore.
    destruct (last page) as [kv|] eqn:Hlast.
    2:{ apply last_None in Hlast. rewrite Hlast in Hpage. simpl in Hpage. lia. }
    apply last_elem_of in Hlast.
    assert (Hkv : fst kv <> "").
    { rewrite Forall_forall in Hkeys_page. by apply Hkeys_page. }
    cbn [fmap option_fmap option_map Js.truthy_opt]. rewrite (truthy_nonempty _ Hkv).
    destruct (IH rest (Some (fst kv)) w2) as (w' & sp & evs & Hrun & Hs' & Ht' & Hd & Hb').
    + exact Hs2.
    + rewrite Hn2, Hn1. exact Hn.
    + by apply keysAscending_app_r in Hsorted.
    + exact Hkeys_rest.
    + intros t [= <-]. by apply (keysAscending_app_lt page rest kv).
    + unfold rest. rewrite length_drop. lia.
    + rewrite Hrun. eexists w', _, _. split; [reflexivity|]. split; [exact Hs'|].
      split; [rewrite Ht', Ht2, Ht1, <- !app_assoc; reflexivity|].
      split.
      * change (omap isObjectDelete ([?e] ++ ?l)) with (omap isObjectDelete l).
        by rewrite omap_app, omap_objectDelete_deletes, Hd, Hsplit, fmap_app.
      * change (omap isBucketDelete ([?e] ++ ?l)) with (omap isBucketDelete l).
        by rewrite omap_app, omap_bucketDelete_deletes, Hb'.
  - apply Nat.ltb_ge in Hmore. cbn [Js.truthy_opt run].
    assert (rest = []) as Hrest by (unfold rest; by apply drop_ge).
    rewrite Hrest in *. rewrite app_nil_r in Hsplit.
    eexists w2, _, _. split; [reflexivity|]. split; [exact Hs2|].
    split; [rewrite Ht2, Ht1, <- !app_assoc; reflexivity|].
    split.
    * change (omap isObjectDelete ([?e] ++ ?l)) with (omap isObjectDelete l).
      by rewrite omap_objectDelete_deletes, Hsplit.
    * change (omap isBucketDelete ([?e] ++ ?l)) with (omap isBucketDelete l).
      by rewrite omap_bucketDelete_deletes.
Qed.

Lemma connect_frame t w :
  remote (connect t w) = remote w /\
  platform (connect t w) = platform w /\
  exists evs,
    trace (connect t w) = trace w ++ evs /\
    Forall (fun e => exists m, e = EvShowInformationMessage m) evs.
Proof.
  unfold connect, touchSettings.
  destruct (clients (conn w) !! t); simpl; repeat split.
  - exists []. split; [by rewrite app_nil_r | constructor].
  - eexists [_]. split; [reflexivity|]. repeat constructor. eauto.
Qed.

Lemma omap_info {B} (f : Event -> option B) evs :
  (forall m, f (EvShowInformationMessage m) = None) ->
  Forall (fun e => exists m, e = EvShowInformationMessage m) evs ->
  omap f evs = [].
Proof.
  intros Hf. induction 1 as [|e evs [m ->] _ IH]; csimpl; [done|].
  by rewrite Hf.
Qed.

Lemma NoBucketDelete_refl w : NoBucketDelete w w.
Proof. exists []. split; [by rewrite app_nil_r | reflexivity]. Qed.

Lemma NoBucketDelete_trans w1 w2 w3 :
  NoBucketDelete w1 w2 -> NoBucketDelete w2 w3 -> NoBucketDelete w1 w3.
Proof.
  intros (e1 & A1 & A2) (e2 & B1 & B2). exists (e1 ++ e2). split.
  - by rewrite B1, A1, app_assoc.
  - by rewrite omap_app, A2, B2.
Qed.

Lemma NoBucketDelete_same_trace w w' : trace w' = trace w -> NoBucketDelete w w'.
Proof. intros Ht. exists []. split; [by rewrite app_nil_r | reflexivity]. Qed.

Lemma handle_NoBucketDelete X (c : Call X) w :
  notBucketDelete X c = true -> NoBucketDelete w (snd (handle c w)).
Proof.
  destruct c as [key|key value|key|client req|uri|uri|uri data|uri|tg k1 k2 k3];
    simpl; intros Hc;
    try (apply NoBucketDelete_same_trace; reflexivity);
    try (destruct (fs (platform w) !! uri); apply NoBucketDelete_same_trace; reflexivity).
  - destruct (send_frame client req w) as (_ & _ & _ & _ & Ht).
    exists [EvSend (endpoint client) req]. split; [exact Ht|].
    by destruct req.
  - destruct (promptAnswers (platform w)); apply NoBucketDelete_same_trace; reflexivity.
Qed.

(** Whatever the store answers, the purge issues no bucket-delete request. *)
Lemma run_purgePages_NoBucketDelete fuel client b token w :
  NoBucketDelete w (worldOf (run (purgePages fuel client b token) w)).
Proof.
  apply (keeps_run NoBucketDelete notBucketDelete NoBucketDelete_refl
           NoBucketDelete_trans handle_NoBucketDelete).
  apply keeps_purgePages. by intros X c _ Hc.
Qed.

(** In every run of [deleteBucket] a bucket-delete request, if one is
    issued at all, is the last request, and there is no other. *)
Lemma deleteBucket_deletes_bucket_last fuel b w :
  omap isBucketDelete
    (eventsSince w (worldOf (run (deleteBucket fuel b) w))) = [] \/
  exists evs ep,
    eventsSince w (worldOf (run (deleteBucket fuel b) w))
    = evs ++ [EvSend ep (DeleteBucketCommand b)] /\
    omap isBucketDelete evs = [].
Proof.
  unfold deleteBucket. rewrite run_bind. cbn [get run].
  destruct (currentTarget (conn w)) as [t|].
  2:{ left. unfold worldOf, eventsSince. simpl. by rewrite drop_all. }
  rewrite run_bind. destruct (run_getClient t w) as [sp0 ->].
  destruct (connect_frame t w) as (_ & _ & evs0 & Ht0 & Hinfo).
  rewrite run_bind.
  destruct (run_purgePages_NoBucketDelete fuel (resolveClient t w) b None (connect t w))
    as (evs1 & Ht1 & Hb1).
  destruct (run (purgePages fuel (resolveClient t w) b None) (connect t w))
    as [[c1 w1] sp1].
  unfold worldOf in *. simpl in Ht1.
  destruct c1 as [[]|e|]; cbn [fst snd].
  - right. unfold await. cbn [run handle].
    destruct (send_frame (resolveClient t w) (DeleteBucketCommand b) w1)
      as (_ & _ & _ & _ & Ht2).
    exists (evs0 ++ evs1), (endpoint (resolveClient t w)).
    split; [|by rewrite omap_app, (omap_info isBucketDelete evs0), Hb1].
    apply eventsSince_app.
    destruct (send _ _ w1) as [[v|e] w2]; simpl in *;
      by rewrite Ht2, Ht1, Ht0, <- !app_assoc.
  - left. rewrite (eventsSince_app w w1 (evs0 ++ evs1))
      by (by rewrite Ht1, Ht0, app_assoc).
    by rewrite omap_app, (omap_info isBucketDelete evs0), Hb1.
  - left. rewrite (eventsSince_app w w1 (evs0 ++ evs1))
      by (by rewrite Ht1, Ht0, app_assoc).
    by rewrite omap_app, (omap_info isBucketDelete evs0), Hb1.
Qed.

(** ** Resolving a file to its local copy *)

Lemma ReadFrame_refl t w : ReadFrame t w w.
Proof. by repeat split. Qed.

Lemma ReadFrame_trans t w1 w2 w3 :
  ReadFrame t w1 w2 -> ReadFrame t w2 w3 -> ReadFrame t w1 w3.
Proof.
  intros (A1 & A2 & A3 & A4 & A5) (B1 & B2 & B3 & B4 & B5).
  repeat split; congruence.
Qed.

Lemma resolveClient_connect t w : resolveClient t (connect t w) = resolveClient t w.
Proof.
  unfold resolveClient, connect, touchSettings.
  destruct (clients (conn w) !! t) as [c|] eqn:E; simpl.
  - by rewrite E.
  - by rewrite lookup_insert_eq.
Qed.

Lemma ReadFrame_connect t w : ReadFrame t w (connect t w).
Proof.
  split; [|split; [|split; [|split]]].
  - unfold connect, touchSettings. by destruct (clients (conn w) !! t).
  - unfold connect, touchSettings. by destruct (clients (conn w) !! t).
  - apply resolveClient_connect.
  - apply connect_frame.
  - destruct (connect_frame t w) as (-> & _). reflexivity.
Qed.

Lemma fetches_app l1 l2 : fetches (l1 ++ l2) = (fetches l1 + fetches l2)%nat.
Proof. unfold fetches. by rewrite List.filter_app, length_app. Qed.

Lemma fetches_info evs :
  Forall (fun e => exists m, e = EvShowInformationMessage m) evs -> fetches evs = 0%nat.
Proof. unfold fetches. induction 1 as [|e evs [m ->] _ IH]; simpl; [done | exact IH]. Qed.

(** Requests that read leave the content of the store as it is. *)
Lemma send_read_endpoints client req w :
  match req with GetObjectCommand _ _ | HeadObjectCommand _ _ => True | _ => False end ->
  endpoints (remote (snd (send client req w))) = endpoints (remote w).
Proof.
  intros Hreq. unfold send. simpl.
  assert (Hsame : forall buckets,
            endpoints (remote w) !! endpoint client = Some buckets ->
            snd (serve (pageSize (remote w)) req buckets) = buckets).
  { intros buckets _. destruct req as [| |bn k| | | | |bn k]; try done; simpl;
      destruct (buckets !! bn) as [b|]; try reflexivity;
      destruct (lookupKey k b); reflexivity. }
  destruct (netFaults (remote w)) as [|[] faults]; simpl; try reflexivity;
    (destruct (endpoints (remote w) !! endpoint client) as [buckets|] eqn:E; simpl;
     [|reflexivity];
     specialize (Hsame buckets eq_refl);
     destruct (serve (pageSize (remote w)) req buckets) as [r b']; simpl in *;
     subst b'; by apply insert_id).
Qed.

Lemma ReadFrame_send t client req w :
  match req with GetObjectCommand _ _ | HeadObjectCommand _ _ => True | _ => False end ->
  ReadFrame t w (snd (send client req w)).
Proof.
  intros Hreq. destruct (send_frame client req w) as (Hc & Hp & _ & _ & _).
  unfold ReadFrame, selection, resolveClient. rewrite Hc, Hp.
  repeat split. by apply send_read_endpoints.
Qed.

Lemma send_head_fulfilled client b k w resp :
  fst (send client (HeadObjectCommand b k) w) = Fulfilled resp ->
  match out_Metadata resp with Some meta => lastmodified meta | None => None end
  = remoteStamp client b k w.
Proof.
  unfold send, remoteStamp, bucketOf. simpl.
  destruct (netFaults (remote w)) as [|[] faults]; simpl; try discriminate;
    (destruct (endpoints (remote w) !! endpoint client) as [buckets|]; simpl;
     [|discriminate];
     destruct (buckets !! b) as [objs|]; simpl; [|discriminate];
     destruct (lookupKey k objs) as [o|]; simpl; [|discriminate];
     by intros [= <-]).
Qed.

Lemma send_get_fulfilled client b k w resp :
  fst (send client (GetObjectCommand b k) w) = Fulfilled resp ->
  httpStatusCode resp = 200.
Proof.
  unfold send. simpl.
  destruct (netFaults (remote w)) as [|[] faults]; simpl; try discriminate;
    (destruct (endpoints (remote w) !! endpoint client) as [buckets|]; simpl;
     [|discriminate];
     destruct (buckets !! b) as [objs|]; simpl; [|discriminate];
     destruct (lookupKey k objs) as [o|]; simpl; [|discriminate];
     by intros [= <-]).
Qed.

Lemma remoteStamp_frame t client b k w w' :
  ReadFrame t w w' -> remoteStamp client b k w' = remoteStamp client b k w.
Proof.
  intros (_ & _ & _ & _ & He). unfold remoteStamp, bucketOf. by rewrite He.
Qed.

Lemma run_getUpdateTimestamp file w t b :
  selection w = Some (t, b) ->
  ReadFrame t w (worldOf (run (getUpdateTimestamp file) w)) /\
  (exists evs,
     trace (worldOf (run (getUpdateTimestamp file) w)) = trace w ++ evs /\
     fetches evs = 0%nat) /\
  (forall stamp,
     completionOf (run (getUpdateTimestamp file) w) = Returned stamp ->
     stamp = remoteStamp (resolveClient t w) b (getObjectKey (OfFile file)) w).
Proof.
  intros Hsel. unfold getUpdateTimestamp.
  rewrite run_bind. cbn [get run]. rewrite Hsel.
  rewrite run_bind. destruct (run_getClient t w) as [sp ->].
  rewrite run_bind. unfold await. cbn [run handle].
  set (client := resolveClient t w). set (key := getObjectKey (OfFile file)).
  pose proof (ReadFrame_connect t w) as F0.
  destruct (connect_frame t w) as (_ & _ & evs0 & Ht0 & Hinfo).
  pose proof (ReadFrame_send t client (HeadObjectCommand b key) (connect t w) I) as F1.
  destruct (send_frame client (HeadObjectCommand b key) (connect t w))
    as (_ & _ & _ & _ & Ht1).
  pose proof (send_head_fulfilled client b key (connect t w)) as Hresp.
  destruct (send client (HeadObjectCommand b key) (connect t w)) as [[resp|e] w1];
    unfold worldOf, completionOf; simpl in *.
  - specialize (Hresp resp eq_refl).
    rewrite (remoteStamp_frame t client b key w (connect t w) F0) in Hresp.
    destruct (out_Metadata resp) as [meta|]; simpl;
      (split; [eapply ReadFrame_trans; eauto|]; split;
       [ exists (evs0 ++ [EvSend (endpoint client) (HeadObjectCommand b key)]);
         split; [by rewrite Ht1, Ht0, app_assoc|];
         rewrite fetches_app, (fetches_info _ Hinfo); reflexivity
       | by intros stamp [= <-] ]).
  - split; [eapply ReadFrame_trans; eauto|]. split; [|discriminate].
    exists (evs0 ++ [EvSend (endpoint client) (HeadObjectCommand b key)]).
    split; [by rewrite Ht1, Ht0, app_assoc|].
    rewrite fetches_app, (fetches_info _ Hinfo). reflexivity.
Qed.

Lemma run_getFileFromS3 file w t b :
  selection w = Some (t, b) ->
  ReadFrame t w (worldOf (run (getFileFromS3 file) w)) /\
  exists evs,
    trace (worldOf (run (getFileFromS3 file) w)) = trace w ++ evs /\
    fetches evs = 1%nat.
Proof.
  intros Hsel. unfold getFileFromS3.
  rewrite run_bind. cbn [get run]. rewrite Hsel.
  rewrite run_bind. destruct (run_getClient t w) as [sp ->].
  rewrite run_bind. unfold await. cbn [run handle].
  set (client := resolveClient t w). set (key := getObjectKey (OfFile file)).
  pose proof (ReadFrame_connect t w) as F0.
  destruct (connect_frame t w) as (_ & _ & evs0 & Ht0 & Hinfo).
  pose proof (ReadFrame_send t client (GetObjectCommand b key) (connect t w) I) as F1.
  destruct (send_frame client (GetObjectCommand b key) (connect t w))
    as (_ & _ & _ & _ & Ht1).
  pose proof (send_get_fulfilled client b key (connect t w)) as Hresp.
  destruct (send client (GetObjectCommand b key) (connect t w)) as [[resp|e] w1];
    unfold worldOf; simpl in *.
  - rewrite (Hresp resp eq_refl). simpl.
    destruct (out_Body resp); simpl;
      (split; [eapply ReadFrame_trans; eauto|];
       exists (evs0 ++ [EvSend (endpoint client) (GetObjectCommand b key)]);
       split; [by rewrite Ht1, Ht0, app_assoc|];
       rewrite fetches_app, (fetches_info _ Hinfo); reflexivity).
  - split; [eapply ReadFrame_trans; eauto|].
    exists (evs0 ++ [EvSend (endpoint client) (GetObjectCommand b key)]).
    split; [by rewrite Ht1, Ht0, app_assoc|].
    rewrite fetches_app, (fetches_info _ Hinfo). reflexivity.
Qed.

(** One call of [getAndSyncLocalFilePath], as far as fetching goes. *)
Lemma resolve_spec file w t b :
  selection w = Some (t, b) ->
  let key := getObjectKey (OfFile file) in
  let uri := joinPath (storagePath (conn w)) t b key in
  let client := resolveClient t w in
  let r := run (getAndSyncLocalFilePath file) w in
  selection (worldOf r) = selection w /\
  storagePath (conn (worldOf r)) = storagePath (conn w) /\
  resolveClient t (worldOf r) = client /\
  clock (platform (worldOf r)) = clock (platform w) /\
  endpoints (remote (worldOf r)) = endpoints (remote w) /\
  exists evs,
    trace (worldOf r) = trace w ++ evs /\
    (fetches evs <= 1)%nat /\
    (forall m0,
       mtime <$> fs (platform w) !! uri = Some m0 ->
       (forall ts, remoteStamp client b key w = Some ts -> ts <= m0) ->
       fetches evs = 0%nat) /\
    (forall path,
       completionOf r = Returned path ->
       path = uri /\
       exists m1,
         mtime <$> fs (platform (worldOf r)) !! uri = Some m1 /\
         ((fetches evs = 1%nat /\ m1 = clock (platform w)) \/
          (fetches evs = 0%nat /\
           forall ts, remoteStamp client b key w = Some ts -> ts <= m1))).
Proof.
  intros Hsel key uri client r. subst r uri.
  pose proof (run_getFileFromS3 file) as HG.
  pose proof (run_getUpdateTimestamp file) as HU.
  unfold getAndSyncLocalFilePath, fileExists, toFileUri.
  generalize dependent (getFileFromS3 file). intros g HG.
  generalize dependent (getUpdateTimestamp file). intros u HU.
  unfold worldOf, completionOf. simpl. rewrite Hsel. simpl. rewrite Hsel. simpl.
  fold key.
  assert (Hframe : forall wx v,
            ReadFrame t w wx ->
            selection (set_fs v wx) = Some (t, b) /\
            storagePath (conn (set_fs v wx)) = storagePath (conn w) /\
            resolveClient t (set_fs v wx) = client /\
            clock (platform (set_fs v wx)) = clock (platform w) /\
            endpoints (remote (set_fs v wx)) = endpoints (remote w)).
  { intros wx v (F1 & F2 & F3 & F4 & F5). simpl.
    change (selection (set_fs v wx)) with (selection wx).
    change (resolveClient t (set_fs v wx)) with (resolveClient t wx).
    rewrite F1, F2, F3, F4, F5, Hsel. by repeat split. }
  assert (Hframe' : forall wx,
            ReadFrame t w wx ->
            selection wx = Some (t, b) /\
            storagePath (conn wx) = storagePath (conn w) /\
            resolveClient t wx = client /\
            clock (platform wx) = clock (platform w) /\
            endpoints (remote wx) = endpoints (remote w)).
  { intros wx (F1 & F2 & F3 & F4 & F5).
    rewrite F1, F2, F3, F4, F5, Hsel. by repeat split. }

  destruct (fs (platform w) !! joinPath (storagePath (conn w)) t b key)
    as [lf|] eqn:Efs; simpl; rewrite Hsel; simpl.
  - rewrite Efs. simpl. rewrite !run_bind.
    destruct (HU w t b Hsel) as (FU & (evsU & EtU & EfU) & HstU).
    destruct (run u w) as [[cu wu] spu]. unfold worldOf, completionOf in *.
    simpl in FU, EtU, HstU.
    assert (HselU : selection wu = Some (t, b)) by (by rewrite (proj1 FU)).
    destruct cu as [stamp|e|]; cbn [fst snd].
    + specialize (HstU stamp eq_refl). fold client key in HstU.
      destruct stamp as [ts|]; cbn [fst snd].
      * destruct (mtime lf <? ts) eqn:Elt; cbn [fst snd bind run].
        -- rewrite !run_bind.
           destruct (HG wu t b HselU) as (FG & evsG & EtG & EfG).
           destruct (run g wu) as [[cg wg] spg]. simpl in FG, EtG.
           pose proof (ReadFrame_trans _ _ _ _ FU FG) as F.
           destruct cg as [buf|e|]; simpl.
           ++ destruct (Hframe wg (<[joinPath (storagePath (conn w)) t b key :=
                                       mkLocalFile (clock (platform wg)) buf]>
                                     (fs (platform wg))) F)
                as (G1 & G2 & G3 & G4 & G5).
              repeat (split; [assumption|]).
              exists (evsU ++ evsG). split; [by rewrite EtG, EtU, app_assoc|].
              rewrite fetches_app, EfU, EfG. split; [simpl; lia|]. split.
              ** intros m0 [= <-] Hts. specialize (Hts ts (eq_sym HstU)).
                 apply Z.ltb_lt in Elt. lia.
              ** intros path [= <-]. split; [reflexivity|].
                 exists (clock (platform w)). rewrite lookup_insert_eq. simpl.
                 destruct F as (_ & _ & _ & -> & _). split; [reflexivity|].
                 left. by split.
           ++ destruct (Hframe' wg F) as (G1 & G2 & G3 & G4 & G5).
              repeat (split; [assumption|]).
              exists (evsU ++ evsG). split; [by rewrite EtG, EtU, app_assoc|].
              rewrite fetches_app, EfU, EfG. split; [simpl; lia|]. split.
              ** intros m0 [= <-] Hts. specialize (Hts ts (eq_sym HstU)).
                 apply Z.ltb_lt in Elt. lia.
              ** discriminate.
           ++ destruct (Hframe' wg F) as (G1 & G2 & G3 & G4 & G5).
              repeat (split; [assumption|]).
              exists (evsU ++ evsG). split; [by rewrite EtG, EtU, app_assoc|].
              rewrite fetches_app, EfU, EfG. split; [simpl; lia|]. split.
              ** intros m0 [= <-] Hts. specialize (Hts ts (eq_sym HstU)).
                 apply Z.ltb_lt in Elt. lia.
              ** discriminate.
        -- destruct (Hframe' wu FU) as (G1 & G2 & G3 & G4 & G5).
           repeat (split; [assumption|]).
           exists evsU. split; [exact EtU|]. rewrite EfU.
           split; [lia|]. split; [done|].
           intros path [= <-]. split; [reflexivity|].
           exists (mtime lf). destruct FU as (_ & _ & _ & -> & _). rewrite Efs.
           split; [reflexivity|]. right. split; [reflexivity|].
           intros ts' Hts'. rewrite <- HstU in Hts'. injection Hts' as <-.
           by apply Z.ltb_ge.
      * cbn [fst snd bind run].
        destruct (Hframe' wu FU) as (G1 & G2 & G3 & G4 & G5).
        repeat (split; [assumption|]).
        exists evsU. split; [exact EtU|]. rewrite EfU.
        split; [lia|]. split; [done|].
        intros path [= <-]. split; [reflexivity|].
        exists (mtime lf). destruct FU as (_ & _ & _ & -> & _). rewrite Efs.
        split; [reflexivity|]. right. split; [reflexivity|].
        intros ts' Hts'. rewrite <- HstU in Hts'. discriminate.
    + destruct (Hframe' wu FU) as (G1 & G2 & G3 & G4 & G5).
      repeat (split; [assumption|]).
      exists evsU. split; [exact EtU|]. rewrite EfU.
      split; [lia|]. split; [done|]. discriminate.
    + destruct (Hframe' wu FU) as (G1 & G2 & G3 & G4 & G5).
      repeat (split; [assumption|]).
      exists evsU. split; [exact EtU|]. rewrite EfU.
      split; [lia|]. split; [done|]. discriminate.
  - rewrite !run_bind.
    destruct (HG w t b Hsel) as (FG & evsG & EtG & EfG).
    destruct (run g w) as [[cg wg] spg]. unfold worldOf in *. simpl in FG, EtG.
    destruct cg as [buf|e|]; simpl.
    + destruct (Hframe wg (<[joinPath (storagePath (conn w)) t b key :=
                               mkLocalFile (clock (platform wg)) buf]>
                             (fs (platform wg))) FG)
        as (G1 & G2 & G3 & G4 & G5).
      repeat (split; [assumption|]).
      exists evsG. split; [exact EtG|]. rewrite EfG. split; [lia|]. split.
      * intros m0 Hm0. discriminate Hm0.
      * intros path [= <-]. split; [reflexivity|].
        exists (clock (platform w)). rewrite lookup_insert_eq. simpl.
        destruct FG as (_ & _ & _ & -> & _). split; [reflexivity|].
        left. by split.
    + destruct (Hframe' wg FG) as (G1 & G2 & G3 & G4 & G5).
      repeat (split; [assumption|]).
      exists evsG. split; [exact EtG|]. rewrite EfG. split; [lia|]. split.
      * intros m0 Hm0. discriminate Hm0.
      * discriminate.
    + destruct (Hframe' wg FG) as (G1 & G2 & G3 & G4 & G5).
      repeat (split; [assumption|]).
      exists evsG. split; [exact EtG|]. rewrite EfG. split; [lia|]. split.
      * intros m0 Hm0. discriminate Hm0.
      * discriminate.
Qed.

(** * The claims *)

(** ** Key derivation and [addDirectory] *)

Lemma endsWith_refl s : Js.endsWith s s = true.
Proof. destruct s; simpl; [reflexivity|]. by rewrite Ascii.eqb_refl, String.eqb_refl. Qed.

Lemma endsWith_app s suffix : Js.endsWith (s +:+ suffix) suffix = true.
Proof.
  induction s as [|c s IH]; simpl.
  - apply endsWith_refl.
  - match goal with |- (if ?b then _ else _) = _ => destruct b end;
      [reflexivity | exact IH].
Qed.

Lemma getObjectKey_directory_endsWith d :
  Js.endsWith (getObjectKey (OfDirectory d)) "/" = true.
Proof.
  unfold getObjectKey. cbn [isDirectory andb].
  set (n := prefixAncestors _ _).
  destruct (Js.endsWith n "/") eqn:E; cbn [negb]; [exact E | apply endsWith_app].
Qed.

(** For every directory and every selection, the one request of
    [addDirectory] puts the derived key with a further slash appended. *)
Lemma addDirectory_request d w t b :
  selection w = Some (t, b) ->
  eventsSince (connect t w) (worldOf (run (addDirectory d) w)) =
  [EvSend (endpoint (resolveClient t w))
     (PutObjectCommand b (getObjectKey (OfDirectory d) +:+ "/") [] None)].
Proof.
  intros Hsel. unfold addDirectory.
  rewrite run_bind. cbn [get run]. rewrite Hsel.
  rewrite run_bind. destruct (run_getClient t w) as [sp ->].
  rewrite getObjectKey_directory_endsWith.
  unfold await. cbn [run handle].
  destruct (send_frame (resolveClient t w)
              (PutObjectCommand b (getObjectKey (OfDirectory d) +:+ "/") [] None)
              (connect t w)) as (_ & _ & _ & _ & Htr).
  destruct (send _ _ _) as [[v|e] w1]; simpl in *;
    unfold eventsSince, worldOf; simpl; rewrite Htr;
    by rewrite drop_app_length.
Qed.

(** C6 (the code departs from the claim): for the root directory [docs],
    whose derived key is [docs/], [addDirectory] uploads the zero-length
    object under [docs//]. *)
Theorem addDirectory_doubles_slash :
  getObjectKey (OfDirectory Sample.docs) = "docs/" /\
  omap isPut (trace (worldOf (run (addDirectory Sample.docs) (Sample.configured []))))
  = [("b1", "docs//", [])].
Proof. vm_compute. split; reflexivity. Qed.

(** ** [verifySettings] and [getClient] *)

(** The guard of [getClient] tests a promise, so it never fires: for every
    target and every world a client is handed out. *)
Lemma getClient_returns t w :
  completionOf (run (getClient t) w) = Returned (resolveClient t w).
Proof. destruct (run_getClient t w) as [sp ->]. reflexivity. Qed.

(** What [getClient] does in every world: a cached client is handed out
    as it is; otherwise a client with path-style addressing is built from
    the settings held at that moment and cached. *)
Lemma getClient_cached_or_built t w :
  clients (conn (worldOf (run (getClient t) w))) !! t = Some (resolveClient t w) /\
  (forall client, clients (conn w) !! t = Some client -> resolveClient t w = client) /\
  (clients (conn w) !! t = None -> forcePathStyle (resolveClient t w) = true).
Proof.
  destruct (run_getClient t w) as [sp ->]. unfold worldOf. cbn [fst snd].
  unfold connect, touchSettings, resolveClient.
  destruct (clients (conn w) !! t) as [c|] eqn:E; simpl.
  - repeat split; [exact E | by intros ? [= <-] | discriminate].
  - rewrite lookup_insert_eq. repeat split. discriminate.
Qed.

(** C4 (the code departs from the claim): for target [t1], none of whose
    secrets is stored, [verifySettings] answers [false], and yet
    [getClient] returns, builds a client from the blank settings and
    caches it. *)
Theorem getClient_connects_unverified :
  completionOf (run (verifySettings "t1") Sample.unconfigured) = Returned false /\
  completionOf (run (getClient "t1") Sample.unconfigured)
  = Returned (mkS3Client "EU" "" "" "" true) /\
  clients (conn (worldOf (run (getClient "t1") Sample.unconfigured))) !! "t1"
  = Some (mkS3Client "EU" "" "" "" true).
Proof. vm_compute. repeat split; reflexivity. Qed.

(** ** [addTarget] *)

Lemma filter_other_app (t : string) (l : list string) :
  t ∉ l -> List.filter (fun x => negb (String.eqb x t)) (l ++ [t]) = l.
Proof.
  intros Hn. rewrite List.filter_app. simpl. rewrite String.eqb_refl. simpl.
  rewrite app_nil_r. induction l as [|x l IH]; simpl; [reflexivity|].
  apply not_elem_of_cons in Hn as [Hx Hl].
  destruct (String.eqb_spec x t) as [->|_]; [done|]. simpl. by rewrite IH.
Qed.

(** When the name is new, a dismissed prompt restores the list and stores
    no secret. *)
Lemma addTarget_cancel_fresh t w rest :
  t ∉ targets (conn w) ->
  promptAnswers (platform w) = None :: rest ->
  let w' := worldOf (run (addTarget t) w) in
  targets (conn w') = targets (conn w) /\
  globalState (platform w') !! "s3Targets" = Some (targets (conn w)) /\
  secretStorage (platform w') = secretStorage (platform w).
Proof.
  intros Hn Hp. unfold addTarget, globalState_update, worldOf. simpl.
  rewrite Hp. simpl. rewrite filter_other_app by done.
  repeat split. by rewrite lookup_insert_eq.
Qed.

(** C5 (the code departs from the claim): with [t1] already in the list,
    [addTarget "t1"] followed by a dismissed prompt leaves the persisted
    list empty instead of [["t1"]]; no secret is written. *)
Theorem addTarget_cancel_drops_existing :
  let w := Sample.cancelling (Sample.configured []) in
  let w' := worldOf (run (addTarget "t1") w) in
  globalState (platform w) !! "s3Targets" = Some ["t1"] /\
  globalState (platform w') !! "s3Targets" = Some [] /\
  secretStorage (platform w') = secretStorage (platform w).
Proof. vm_compute. repeat split; reflexivity. Qed.

(** ** The selection *)

Lemma setTarget_clears_bucket t w :
  currentTarget (conn (worldOf (run (setTarget t) w))) = Some t /\
  currentBucket (conn (worldOf (run (setTarget t) w))) = None.
Proof. split; reflexivity. Qed.

Lemma removeTarget_keeps_currentBucket t w :
  currentBucket (conn (worldOf (run (removeTarget t) w))) = currentBucket (conn w).
Proof.
  unfold removeTarget, globalState_update, worldOf. simpl.
  destruct (bool_decide _); reflexivity.
Qed.

(** C8 (the code departs from the claim): removing the current target [a]
    makes [c] current and leaves bucket [b1], selected under [a],
    selected. *)
Theorem removeTarget_leaves_stale_bucket :
  let w' := worldOf (run (removeTarget "a") Sample.twoTargets) in
  currentTarget (conn Sample.twoTargets) = Some "a" /\
  currentBucket (conn Sample.twoTargets) = Some "b1" /\
  currentTarget (conn w') = Some "c" /\
  currentBucket (conn w') = Some "b1".
Proof. vm_compute. repeat split; reflexivity. Qed.

Lemma send_deleteBucket_gone client b w v w' :
  send client (DeleteBucketCommand b) w = (Fulfilled v, w') ->
  bucketOf client b w' = None.
Proof.
  unfold send, bucketOf. simpl.
  destruct (netFaults (remote w)) as [|[] faults]; simpl; try discriminate;
    (destruct (endpoints (remote w) !! endpoint client) as [buckets|]; simpl;
     [|discriminate];
     destruct (buckets !! b) as [[|]|]; simpl; intros H; inversion H; subst w'; simpl;
     rewrite lookup_insert_eq; simpl; apply lookup_delete_eq).
Qed.

Lemma run_invoke_selection m w :
  assignsSelection m = false ->
  sameSelection w (worldOf (run (invoke m) w)) /\
  Forall (KeepsTask sameSelection anyCall) (snd (run (invoke m) w)).
Proof.
  intros Hm.
  apply (keeps_run sameSelection anyCall sameSelection_refl sameSelection_trans
           handle_sameSelection).
  by apply sel_invoke.
Qed.

(** C10, amended: [deleteBucket] assigns neither selection field; when it
    returns after deleting the selected bucket, the selection still names
    the bucket, which the endpoint no longer has; of all methods, only
    [selectBucket], [setTarget] and [removeTarget] assign a selection
    field: every other method leaves both as they are, and so does what it
    started without awaiting. *)
Theorem deleteBucket_keeps_selection :
  (forall fuel bucketName w,
     sameSelection w (worldOf (run (deleteBucket fuel bucketName) w))) /\
  (forall fuel bucketName t w,
     currentTarget (conn w) = Some t ->
     currentBucket (conn w) = Some bucketName ->
     completionOf (run (deleteBucket fuel bucketName) w) = Returned tt ->
     currentBucket (conn (worldOf (run (deleteBucket fuel bucketName) w)))
       = Some bucketName /\
     bucketOf (resolveClient t w) bucketName
       (worldOf (run (deleteBucket fuel bucketName) w)) = None) /\
  (forall m w,
     assignsSelection m = false ->
     sameSelection w (worldOf (run (invoke m) w)) /\
     Forall (KeepsTask sameSelection anyCall) (snd (run (invoke m) w))).
Proof.
  split; [|split].
  - intros fuel b w. by apply (run_invoke_selection (M_deleteBucket fuel b)).
  - intros fuel b t w Ht Hb Hret. split.
    + destruct (run_invoke_selection (M_deleteBucket fuel b) w eq_refl) as [[_ H] _].
      cbn [invoke] in H. by rewrite H.
    + revert Hret. unfold deleteBucket, completionOf, worldOf.
      rewrite run_bind. cbn [get run]. rewrite Ht.
      rewrite run_bind. destruct (run_getClient t w) as [sp ->].
      rewrite run_bind.
      destruct (run (purgePages fuel (resolveClient t w) b None) (connect t w))
        as [[[[]| |] w2] sp2]; simpl; try discriminate.
      destruct (send (resolveClient t w) (DeleteBucketCommand b) w2)
        as [[v|e] w3] eqn:Hs; simpl; try discriminate.
      intros _. eapply send_deleteBucket_gone, Hs.
  - apply run_invoke_selection.
Qed.

Lemma deleteBucket_keeps_selection_witness :
  currentBucket (conn (worldOf (run (deleteBucket 3 "b1")
     (Sample.configured [("a", Sample.object None)])))) = Some "b1" /\
  bucketOf (resolveClient "t1" (Sample.configured [("a", Sample.object None)])) "b1"
    (worldOf (run (deleteBucket 3 "b1")
       (Sample.configured [("a", Sample.object None)]))) = None.
Proof.
  apply (proj1 (proj2 deleteBucket_keeps_selection) 3%nat "b1" "t1");
    vm_compute; reflexivity.
Defined.

(** C10 as stated fails: [removeTarget] is neither [selectBucket] nor
    [setTarget], and removing the current target [a] assigns
    [currentTarget]. *)
Lemma removeTarget_assigns_selection :
  ~ (forall m w,
       match m with M_selectBucket _ | M_setTarget _ => False | _ => True end ->
       sameSelection w (worldOf (run (invoke m) w))).
Proof.
  intros H. destruct (H (M_removeTarget "a") Sample.twoTargets I) as [Ht _].
  vm_compute in Ht. discriminate Ht.
Qed.

(** ** [deleteBucket] *)

(** C3: with a target selected, no request lost, and the bucket holding
    the objects [objs] (in listing order, keys non-empty), [deleteBucket]
    returns for every bound on the listing requests above the number of
    objects; it issues one object-delete request per object, in listing
    order, and exactly one bucket-delete request, which is the last
    request it issues; afterwards the bucket is gone. *)
Theorem deleteBucket_purges_then_deletes
    (w : World) (target bucketName : string) (objs : Bucket) (fuel : nat) :
  currentTarget (conn w) = Some target ->
  netFaults (remote w) = [] ->
  (0 < pageSize (remote w))%nat ->
  bucketOf (resolveClient target w) bucketName w = Some objs ->
  keysAscending objs ->
  Forall (fun kv => fst kv <> "") objs ->
  (length objs < fuel)%nat ->
  completionOf (run (deleteBucket fuel bucketName) w) = Returned tt /\
  omap isObjectDelete (eventsSince w (worldOf (run (deleteBucket fuel bucketName) w)))
  = (fun kv => (bucketName, fst kv)) <$> objs /\
  omap isBucketDelete (eventsSince w (worldOf (run (deleteBucket fuel bucketName) w)))
  = [bucketName] /\
  last (eventsSince w (worldOf (run (deleteBucket fuel bucketName) w)))
  = Some (EvSend (endpoint (resolveClient target w)) (DeleteBucketCommand bucketName)) /\
  bucketOf (resolveClient target w) bucketName
    (worldOf (run (deleteBucket fuel bucketName) w)) = None.
Proof.
  intros Ht Hf Hn Hb Hsorted Hkeys Hfuel.
  set (client := resolveClient target w) in *.
  unfold deleteBucket. rewrite run_bind. cbn [get run]. rewrite Ht.
  rewrite run_bind. destruct (run_getClient target w) as [sp0 ->]. fold client.
  destruct (connect_frame target w) as (Hr & _ & evs0 & Ht0 & Hinfo).
  assert (Hs0 : Serving client bucketName objs (connect target w)).
  { unfold Serving, bucketOf. rewrite Hr. by split. }
  assert (Hn0 : (0 < pageSize (remote (connect target w)))%nat) by (by rewrite Hr).
  rewrite run_bind.
  destruct (run_purgePages fuel client bucketName objs None (connect target w)
              Hs0 Hn0 Hsorted Hkeys ltac:(discriminate) Hfuel)
    as (w1 & sp1 & evs1 & -> & Hs1 & Ht1 & Hd1 & Hb1).
  destruct (Serving_endpoint _ _ _ _ Hs1) as (Hf1 & buckets & He1 & Hb1').
  unfold await. cbn [run handle]. rewrite (send_served _ _ _ _ Hf1 He1).
  cbn [serve]. rewrite Hb1'. cbn [fst snd run].
  unfold completionOf, worldOf. cbn [fst snd].
  assert (Hev : eventsSince w (served client (DeleteBucketCommand bucketName)
                                 (delete bucketName buckets) w1)
                = evs0 ++ evs1 ++ [EvSend (endpoint client) (DeleteBucketCommand bucketName)]).
  { apply eventsSince_app. unfold served. simpl. rewrite Ht1, Ht0.
    by rewrite <- !app_assoc. }
  rewrite Hev. split; [reflexivity|].
  rewrite !omap_app, Hd1, Hb1.
  rewrite (omap_info isObjectDelete evs0), (omap_info isBucketDelete evs0) by done.
  split; [by rewrite app_nil_r|]. split; [reflexivity|]. split.
  - by rewrite !app_assoc, last_snoc.
  - unfold bucketOf, served. simpl. rewrite lookup_insert_eq. simpl.
    apply lookup_delete_eq.
Qed.

Lemma deleteBucket_purges_then_deletes_witness :
  let w := Sample.configured
             [("a", Sample.object None); ("b", Sample.object None);
              ("c", Sample.object None)] in
  completionOf (run (deleteBucket 4 "b1") w) = Returned tt /\
  omap isObjectDelete (eventsSince w (worldOf (run (deleteBucket 4 "b1") w)))
  = [("b1", "a"); ("b1", "b"); ("b1", "c")] /\
  omap isBucketDelete (eventsSince w (worldOf (run (deleteBucket 4 "b1") w)))
  = ["b1"] /\
  last (eventsSince w (worldOf (run (deleteBucket 4 "b1") w)))
  = Some (EvSend "http://h" (DeleteBucketCommand "b1")) /\
  bucketOf (resolveClient "t1" w) "b1" (worldOf (run (deleteBucket 4 "b1") w)) = None.
Proof.
  apply (deleteBucket_purges_then_deletes
           (Sample.configured
              [("a", Sample.object None); ("b", Sample.object None);
               ("c", Sample.object None)])
           "t1" "b1"
           [("a", Sample.object None); ("b", Sample.object None);
            ("c", Sample.object None)] 4%nat).
  - reflexivity.
  - reflexivity.
  - vm_compute. lia.
  - vm_compute. reflexivity.
  - repeat constructor.
  - repeat constructor; discriminate.
  - simpl. lia.
Defined.

(** ** [getAndSyncLocalFilePath] *)

(** C7 as stated fails: the object carries a [lastmodified] of 2000 while
    the local clock reads 1000.  The first call fetches the object and
    writes the local copy, the second call finds the copy older than the
    object and fetches again, although the store did not change. *)
Lemma resolve_fetches_twice :
  let w := Scenario.aheadOfClock in
  let r1 := run (getAndSyncLocalFilePath Scenario.fileA) w in
  let r2 := run (getAndSyncLocalFilePath Scenario.fileA) (worldOf r1) in
  completionOf r1 = Returned (Sample.uriOf Scenario.fileA) /\
  completionOf r2 = Returned (Sample.uriOf Scenario.fileA) /\
  endpoints (remote (worldOf r2)) = endpoints (remote w) /\
  fetches (eventsSince w (worldOf r2)) = 2%nat.
Proof. vm_compute. repeat split; reflexivity. Qed.

(** C7, amended: with a target and a bucket selected, if the first call
    returns and the object's [lastmodified], if any, is not later than the
    local clock, then two calls in succession make at most one fetch, the
    second call returns the path the first returned, and the store is as
    it was. *)
Theorem getAndSyncLocalFilePath_twice
    (w : World) (file : File) (target bucket path : string) :
  selection w = Some (target, bucket) ->
  completionOf (run (getAndSyncLocalFilePath file) w) = Returned path ->
  (forall stamp,
     remoteStamp (resolveClient target w) bucket (getObjectKey (OfFile file)) w
     = Some stamp ->
     stamp <= clock (platform w)) ->
  (fetches (eventsSince w
     (worldOf (run (getAndSyncLocalFilePath file)
                 (worldOf (run (getAndSyncLocalFilePath file) w))))) <= 1)%nat /\
  (forall path2,
     completionOf (run (getAndSyncLocalFilePath file)
                     (worldOf (run (getAndSyncLocalFilePath file) w)))
     = Returned path2 ->
     path2 = path) /\
  endpoints (remote (worldOf (run (getAndSyncLocalFilePath file)
                                (worldOf (run (getAndSyncLocalFilePath file) w)))))
  = endpoints (remote w).
Proof.
  intros Hsel Hret Hclock.
  destruct (resolve_spec file w target bucket Hsel)
    as (S1 & P1 & C1 & K1 & E1 & evs1 & T1 & L1 & _ & R1).
  destruct (R1 path Hret) as (-> & m1 & Hm1 & Hcase).
  set (w1 := worldOf (run (getAndSyncLocalFilePath file) w)) in *.
  assert (Hsel1 : selection w1 = Some (target, bucket)) by (by rewrite S1).
  destruct (resolve_spec file w1 target bucket Hsel1)
    as (_ & _ & _ & _ & E2 & evs2 & T2 & _ & Z2 & R2).
  rewrite P1, C1 in Z2, R2.
  assert (Hstamp : remoteStamp (resolveClient target w) bucket
                     (getObjectKey (OfFile file)) w1
                   = remoteStamp (resolveClient target w) bucket
                       (getObjectKey (OfFile file)) w).
  { unfold remoteStamp, bucketOf. by rewrite E1. }
  rewrite Hstamp in Z2.
  assert (Hnone : fetches evs2 = 0%nat).
  { apply (Z2 m1 Hm1). intros ts Hts.
    destruct Hcase as [[_ ->]|[_ Hle]]; [by apply Hclock | by apply Hle]. }
  split; [|split].
  - rewrite (eventsSince_app w _ (evs1 ++ evs2))
      by (by rewrite T2, T1, app_assoc).
    rewrite fetches_app, Hnone. lia.
  - intros path2 Hret2. by destruct (R2 path2 Hret2) as [-> _].
  - by rewrite E2, E1.
Qed.

Lemma getAndSyncLocalFilePath_twice_witness :
  let w := Scenario.behindClock in
  (fetches (eventsSince w
     (worldOf (run (getAndSyncLocalFilePath Scenario.fileA)
                 (worldOf (run (getAndSyncLocalFilePath Scenario.fileA) w))))) <= 1)%nat /\
  (forall path2,
     completionOf (run (getAndSyncLocalFilePath Scenario.fileA)
                     (worldOf (run (getAndSyncLocalFilePath Scenario.fileA) w)))
     = Returned path2 ->
     path2 = Sample.uriOf Scenario.fileA) /\
  endpoints (remote (worldOf (run (getAndSyncLocalFilePath Scenario.fileA)
                                (worldOf (run (getAndSyncLocalFilePath Scenario.fileA) w)))))
  = endpoints (remote w).
Proof.
  apply (getAndSyncLocalFilePath_twice Scenario.behindClock Scenario.fileA "t1" "b1"
           (Sample.uriOf Scenario.fileA)).
  - reflexivity.
  - vm_compute. reflexivity.
  - intros stamp Hstamp. vm_compute in Hstamp. injection Hstamp as <-.
    vm_compute. discriminate.
Defined.

(** ** The watch loop *)

(** C1: in one sync cycle over watchers with distinct keys, an entry that
    holds a file and whose local modification time is not strictly later
    than its last-synced time gets no push and keeps its time; when the
    modification time is strictly later and the cycle returns, the entry
    gets exactly one push and its last-synced time is the observed
    modification time. *)
Theorem syncInterval_pushes_iff_modified
    (w : World) (fileUri : string) (fileItem : S3FileItem) (file : File)
    (lastUpdate modified : Z) :
  NoDup (fst <$> fileWatchers (watch w)) ->
  (fileUri, fileItem) ∈ fileWatchers (watch w) ->
  item_isDirectory fileItem = false ->
  item_file fileItem = Some file ->
  updateTimes (watch w) !! fileUri = Some lastUpdate ->
  mtime <$> fs (platform w) !! fileUri = Some modified ->
  (modified <= lastUpdate ->
     pushCalls fileUri (eventsSince w (worldOf (run syncInterval w))) = 0%nat /\
     updateTimes (watch (worldOf (run syncInterval w))) !! fileUri = Some lastUpdate) /\
  (lastUpdate < modified ->
     completionOf (run syncInterval w) = Returned tt ->
     pushCalls fileUri (eventsSince w (worldOf (run syncInterval w))) = 1%nat /\
     updateTimes (watch (worldOf (run syncInterval w))) !! fileUri = Some modified).
Proof.
  intros Hnd Hin Hdir Hfile Hlast Hmod. rewrite run_syncInterval.
  destruct (syncEntries_spec _ w Hnd) as (_ & evs & E & _ & _ & I).
  rewrite (eventsSince_app _ _ _ E).
  destruct (I fileUri fileItem Hin) as [I0 I1].
  assert (Hsp : shouldPush w fileUri fileItem = (lastUpdate <? modified)).
  { unfold shouldPush. rewrite Hdir, Hfile, Hlast.
    destruct (fs (platform w) !! fileUri) as [f|]; [|discriminate].
    simpl in Hmod. by injection Hmod as ->. }
  assert (Hmt : mtimeOf w fileUri = modified).
  { unfold mtimeOf. by rewrite Hmod. }
  rewrite Hsp, Hmt, Hlast in *. split.
  - intros Hle. apply I0. by apply Z.ltb_ge.
  - intros Hlt Hret. apply I1; [by apply Z.ltb_lt | by rewrite Hret].
Qed.

Lemma syncInterval_pushes_iff_modified_witness :
  let w := Scenario.oneModified in
  let evs := eventsSince w (worldOf (run syncInterval w)) in
  let times := updateTimes (watch (worldOf (run syncInterval w))) in
  (pushCalls (Sample.uriOf Scenario.fileB) evs = 0%nat /\
   times !! Sample.uriOf Scenario.fileB = Some 10) /\
  (pushCalls (Sample.uriOf Scenario.fileA) evs = 1%nat /\
   times !! Sample.uriOf Scenario.fileA = Some 20).
Proof.
  assert (Hnd : NoDup (fst <$> fileWatchers (watch Scenario.oneModified)))
    by (refine (bool_decide_unpack _ _); vm_compute; exact I).
  split.
  - refine (proj1 (syncInterval_pushes_iff_modified Scenario.oneModified
                     (Sample.uriOf Scenario.fileB) (Sample.fileItemOf Scenario.fileB false)
                     Scenario.fileB 10 5 Hnd _ eq_refl eq_refl _ _) _).
    + vm_compute. apply list_elem_of_further, list_elem_of_here.
    + vm_compute. reflexivity.
    + vm_compute. reflexivity.
    + lia.
  - refine (proj2 (syncInterval_pushes_iff_modified Scenario.oneModified
                     (Sample.uriOf Scenario.fileA) (Sample.fileItemOf Scenario.fileA false)
                     Scenario.fileA 10 20 Hnd _ eq_refl eq_refl _ _) _ _).
    + vm_compute. apply list_elem_of_here.
    + vm_compute. reflexivity.
    + vm_compute. reflexivity.
    + lia.
    + vm_compute. reflexivity.
Defined.

(** C2 as stated fails.  An entry whose item is already marked as syncing
    is pushed all the same; and when the callback fires again while a push
    is in flight, a second push for the same entry is started: the flag is
    true when the second firing sets it, and two pushes are in flight. *)
Lemma overlapping_firings_push_twice :
  isSyncing <$> (snd <$> head (fileWatchers (watch Scenario.flagged))) = Some true /\
  pushCalls (Sample.uriOf Scenario.fileA)
    (trace (worldOf (run syncInterval Scenario.flagged))) = 1%nat /\
  isSyncing <$> (snd <$> head (fileWatchers (watch (cfg_world Scenario.firstFiring))))
    = Some true /\
  inFlight (Sample.uriOf Scenario.fileA) (trace (cfg_world Scenario.firstFiring)) = 1%nat /\
  inFlight (Sample.uriOf Scenario.fileA) (trace (cfg_world Scenario.secondFiring)) = 2%nat /\
  pushesSequential (trace (cfg_world Scenario.secondFiring)) = false.
Proof. vm_compute. repeat split; reflexivity. Qed.

(** C2, amended: within one firing of the sync callback the pushes follow
    one another, none is begun while another has not returned; the
    callback does not consult the syncing flag: an entry whose flag is
    already true and whose file was modified is pushed once by a cycle
    that returns. *)
Theorem syncInterval_pushes_one_at_a_time (w : World) :
  NoDup (fst <$> fileWatchers (watch w)) ->
  pushesSequential (eventsSince w (worldOf (run syncInterval w))) = true /\
  (forall fileUri fileItem,
     (fileUri, fileItem) ∈ fileWatchers (watch w) ->
     isSyncing fileItem = true ->
     shouldPush w fileUri fileItem = true ->
     completionOf (run syncInterval w) = Returned tt ->
     pushCalls fileUri (eventsSince w (worldOf (run syncInterval w))) = 1%nat).
Proof.
  intros Hnd. rewrite run_syncInterval.
  destruct (syncEntries_spec _ w Hnd) as (_ & evs & E & (b & S & _) & _ & I).
  rewrite (eventsSince_app _ _ _ E). split.
  - unfold pushesSequential. by rewrite S.
  - intros u it Hin _ Hsp Hret. apply (I u it Hin); [exact Hsp | by rewrite Hret].
Qed.

Lemma syncInterval_pushes_one_at_a_time_witness :
  pushesSequential
    (eventsSince Scenario.flagged (worldOf (run syncInterval Scenario.flagged))) = true /\
  pushCalls (Sample.uriOf Scenario.fileA)
    (eventsSince Scenario.flagged (worldOf (run syncInterval Scenario.flagged))) = 1%nat.
Proof.
  assert (Hnd : NoDup (fst <$> fileWatchers (watch Scenario.flagged)))
    by (refine (bool_decide_unpack _ _); vm_compute; exact I).
  destruct (syncInterval_pushes_one_at_a_time Scenario.flagged Hnd) as [H1 H2].
  split; [exact H1|].
  apply (H2 (Sample.uriOf Scenario.fileA) (Sample.fileItemOf Scenario.fileA true)).
  - vm_compute. apply list_elem_of_here.
  - reflexivity.
  - vm_compute. reflexivity.
  - vm_compute. reflexivity.
Defined.

(** C9 as stated fails: the request that pushes [a] is lost, the callback
    throws, and [b], which was modified as well, is neither pushed nor
    examined in this cycle, while the cycle without the fault pushes it. *)
Lemma failed_push_aborts_cycle :
  completionOf (run syncInterval Scenario.faulty) = Threw "NetworkingError" /\
  shouldPush Scenario.faulty (Sample.uriOf Scenario.fileB)
    (Sample.fileItemOf Scenario.fileB false) = true /\
  pushCalls (Sample.uriOf Scenario.fileB)
    (trace (worldOf (run syncInterval Scenario.faulty))) = 0%nat /\
  pushCalls (Sample.uriOf Scenario.fileB)
    (trace (worldOf (run syncInterval Scenario.twoModified))) = 1%nat.
Proof. vm_compute. repeat split; reflexivity. Qed.

(** C9, amended: a failure while an entry is processed ends the cycle.
    The entries before it were handled as in any cycle, the failed entry
    keeps its last-synced time, the entries after it are not processed in
    this cycle (no push, last-synced time unchanged).  The registry (target
    list, selection, persisted list, secrets), the local files and the set
    of watched keys are as before. *)
Theorem syncInterval_failure_stops_cycle (w : World) :
  NoDup (fst <$> fileWatchers (watch w)) ->
  isReturned (completionOf (run syncInterval w)) = false ->
  CycleFrame w (worldOf (run syncInterval w)) /\
  exists before fileUri fileItem after,
    fileWatchers (watch w) = before ++ (fileUri, fileItem) :: after /\
    (forall u it, (u, it) ∈ before ->
       pushCalls u (eventsSince w (worldOf (run syncInterval w)))
       = (if shouldPush w u it then 1%nat else 0%nat) /\
       updateTimes (watch (worldOf (run syncInterval w))) !! u
       = if shouldPush w u it then Some (mtimeOf w u)
         else updateTimes (watch w) !! u) /\
    updateTimes (watch (worldOf (run syncInterval w))) !! fileUri
    = updateTimes (watch w) !! fileUri /\
    (forall u it, (u, it) ∈ after ->
       pushCalls u (eventsSince w (worldOf (run syncInterval w))) = 0%nat /\
       updateTimes (watch (worldOf (run syncInterval w))) !! u
       = updateTimes (watch w) !! u).
Proof.
  intros Hnd Hfail. rewrite run_syncInterval in *.
  destruct (syncEntries_spec _ w Hnd) as (F & _).
  split; [exact F|].
  destruct (syncEntries_abort _ w Hnd Hfail)
    as (pre & u & it & post & evs & Hsplit & E & Hpre & Hu & Hpost).
  rewrite (eventsSince_app _ _ _ E).
  exists pre, u, it, post.
  split; [exact Hsplit|]. split; [exact Hpre|]. split; [exact Hu | exact Hpost].
Qed.

Lemma syncInterval_failure_stops_cycle_witness :
  CycleFrame Scenario.faulty (worldOf (run syncInterval Scenario.faulty)) /\
  exists before fileUri fileItem after,
    fileWatchers (watch Scenario.faulty) = before ++ (fileUri, fileItem) :: after /\
    (forall u it, (u, it) ∈ before ->
       pushCalls u (eventsSince Scenario.faulty (worldOf (run syncInterval Scenario.faulty)))
       = (if shouldPush Scenario.faulty u it then 1%nat else 0%nat) /\
       updateTimes (watch (worldOf (run syncInterval Scenario.faulty))) !! u
       = if shouldPush Scenario.faulty u it then Some (mtimeOf Scenario.faulty u)
         else updateTimes (watch Scenario.faulty) !! u) /\
    updateTimes (watch (worldOf (run syncInterval Scenario.faulty))) !! fileUri
    = updateTimes (watch Scenario.faulty) !! fileUri /\
    (forall u it, (u, it) ∈ after ->
       pushCalls u (eventsSince Scenario.faulty (worldOf (run syncInterval Scenario.faulty)))
       = 0%nat /\
       updateTimes (watch (worldOf (run syncInterval Scenario.faulty))) !! u
       = updateTimes (watch Scenario.faulty) !! u).
Proof.
  apply (syncInterval_failure_stops_cycle Scenario.faulty).
  - refine (bool_decide_unpack _ _); vm_compute; exact I.
  - vm_compute. reflexivity.
Defined.

(** ** Object keys *)

Lemma Directory_chain (P : Directory -> Prop) :
  (forall n, P (Dir n None)) ->
  (forall n p, P p -> P (Dir n (Some p))) ->
  forall d, P d.
Proof.
  intros Hroot Hnested. fix IH 1.
  intros [n [p|]]; [apply Hnested, IH | apply Hroot].
Qed.

Lemma append_cons c (a b : string) : String c a +:+ b = String c (a +:+ b).
Proof. reflexivity. Qed.

Lemma append_nil (b : string) : "" +:+ b = b.
Proof. reflexivity. Qed.

Lemma append_assoc (a b c : string) : (a +:+ b) +:+ c = a +:+ (b +:+ c).
Proof.
  induction a as [|x a IH]; [reflexivity|]. by rewrite !append_cons, IH.
Qed.

Lemma concat_snoc sep (l : list string) (x : string) :
  l <> [] -> String.concat sep (l ++ [x]) = String.concat sep l +:+ sep +:+ x.
Proof.
  induction l as [|a l IH]; [done|]. intros _.
  destruct l as [|b l]; [reflexivity|].
  change (String.concat sep ((a :: b :: l) ++ [x]))
    with (a +:+ sep +:+ String.concat sep ((b :: l) ++ [x])).
  rewrite IH by done.
  change (String.concat sep (a :: b :: l)) with (a +:+ sep +:+ String.concat sep (b :: l)).
  by rewrite !append_assoc.
Qed.

Lemma ancestorNames_nonempty d : ancestorNames d <> [].
Proof. destruct d as [n [p|]]; simpl; [|done]. by destruct (ancestorNames p). Qed.

Lemma prefixFrom_path d n :
  prefixFrom d n = String.concat "/" (ancestorNames d) +:+ "/" +:+ n.
Proof.
  revert n. induction d as [m|m p IH] using Directory_chain; intros n.
  - reflexivity.
  - cbn [prefixFrom ancestorNames]. rewrite IH.
    rewrite concat_snoc by apply ancestorNames_nonempty.
    by rewrite !append_assoc.
Qed.

Lemma prefixAncestors_path o :
  prefixAncestors (parentDir o) (name o) = String.concat "/" (pathNames o).
Proof.
  unfold pathNames, prefixAncestors. destruct (parentDir o) as [d|]; [|reflexivity].
  rewrite prefixFrom_path. by rewrite concat_snoc by apply ancestorNames_nonempty.
Qed.

(** X1: the key of a file is the names from the root down to the file
    joined by slashes; the key of a directory is its joined names followed
    by one slash, which is left out when the joined names already end in
    a slash. *)
Theorem getObjectKey_joins_path :
  (forall f, getObjectKey (OfFile f) = String.concat "/" (pathNames (OfFile f))) /\
  (forall d,
     getObjectKey (OfDirectory d)
     = let joined := String.concat "/" (pathNames (OfDirectory d)) in
       if Js.endsWith joined "/" then joined else joined +:+ "/").
Proof.
  split.
  - intros f. unfold getObjectKey. cbn [isDirectory andb].
    apply (prefixAncestors_path (OfFile f)).
  - intros d. unfold getObjectKey. cbn [isDirectory andb].
    rewrite (prefixAncestors_path (OfDirectory d)).
    by destruct (Js.endsWith _ "/").
Qed.

Lemma endsWith_slash_app a b :
  b <> "" -> Js.endsWith (a +:+ b) "/" = Js.endsWith b "/".
Proof.
  intros Hb. induction a as [|c a IH]; [reflexivity|].
  rewrite append_cons. cbn [Js.endsWith]. rewrite IH.
  destruct (String.eqb_spec (String c (a +:+ b)) "/") as [E|_]; [|reflexivity].
  injection E as _ E. destruct a; [by rewrite append_nil in E | by rewrite append_cons in E].
Qed.

Lemma directory_key_clean d :
  name (OfDirectory d) <> "" ->
  Js.endsWith (name (OfDirectory d)) "/" = false ->
  getObjectKey (OfDirectory d)
  = prefixAncestors (parentDir (OfDirectory d)) (name (OfDirectory d)) +:+ "/".
Proof.
  intros Hne Hslash. unfold getObjectKey. cbn [isDirectory andb].
  replace (Js.endsWith _ "/") with false; [reflexivity|].
  symmetry. destruct d as [n [p|]]; cbn [parentDir name prefixAncestors] in *;
    [|exact Hslash].
  rewrite prefixFrom_path, <- append_assoc.
  by rewrite endsWith_slash_app.
Qed.

Lemma child_key d n :
  name (OfDirectory d) <> "" ->
  Js.endsWith (name (OfDirectory d)) "/" = false ->
  prefixAncestors (Some d) n = getObjectKey (OfDirectory d) +:+ n.
Proof.
  intros Hne Hslash. rewrite directory_key_clean by done.
  destruct d as [m [p|]]; cbn [prefixAncestors prefixFrom parentDir name].
  - rewrite !prefixFrom_path. by rewrite !append_assoc.
  - by rewrite !append_assoc.
Qed.

(** X2: below a directory whose name is not empty and does not end in a
    slash, the key of a file is the key of the directory followed by the
    file name, and the key of a subdirectory is the key of the directory
    followed by the key the subdirectory would have at the root. *)
Theorem getObjectKey_extends_parent d :
  name (OfDirectory d) <> "" ->
  Js.endsWith (name (OfDirectory d)) "/" = false ->
  (forall n size,
     getObjectKey (OfFile (mkFile n size (Some d)))
     = getObjectKey (OfDirectory d) +:+ n) /\
  (forall n,
     n <> "" ->
     getObjectKey (OfDirectory (Dir n (Some d)))
     = getObjectKey (OfDirectory d) +:+ getObjectKey (OfDirectory (Dir n None))).
Proof.
  intros Hne Hslash. split.
  - intros n size. unfold getObjectKey at 1. cbn [isDirectory andb parentDir name fileParentDir fileName].
    by apply child_key.
  - intros n Hn. unfold getObjectKey at 1 3.
    cbn [isDirectory andb parentDir name prefixAncestors].
    change (prefixFrom d n) with (prefixAncestors (Some d) n).
    rewrite child_key by done.
    rewrite endsWith_slash_app by done.
    destruct (Js.endsWith n "/"); cbn [negb]; [reflexivity | by rewrite append_assoc].
Qed.

Lemma getObjectKey_extends_parent_witness :
  getObjectKey (OfFile (mkFile "a.excalidraw.json" 12 (Some Sample.docs)))
  = getObjectKey (OfDirectory Sample.docs) +:+ "a.excalidraw.json".
Proof.
  refine (proj1 (getObjectKey_extends_parent Sample.docs _ _) _ _);
    [discriminate | reflexivity].
Defined.

(** ** [verifySettings] *)

Lemma truthy_length v : Js.truthy v && (0 <? String.length v)%nat = Js.truthy v.
Proof. by destruct v. Qed.

Lemma set_settings_twice a b w : set_settings a (set_settings b w) = set_settings a w.
Proof. reflexivity. Qed.

Lemma run_loadSecret t suffix field assign s k w :
  settings (conn w) !! t = Some s ->
  (forall x, assign (field x) x = x) ->
  run (loadSecret t suffix field assign s k) w
  = match fieldValue (field s) (secretOf t suffix w) with
    | Some v =>
        run (k (assign v s)) (set_settings (<[t := assign v s]> (settings (conn w))) w)
    | None => (Returned false, w, [])
    end.
Proof.
  intros Hs Hid. unfold loadSecret, fieldValue, secretOf.
  destruct (Js.truthy (field s)) eqn:Ef; cbn [negb].
  - rewrite Hid, insert_id by done. by rewrite set_settings_id.
  - unfold await. cbn [bind run handle].
    destruct (secretStorage (platform w) !! (t +:+ suffix)) as [v|]; cbn [run]; [|reflexivity].
    rewrite truthy_length. destruct (Js.truthy v); cbn [run]; [|reflexivity].
    unfold modify. cbn [bind run].
    replace (alter (assign v) t (settings (conn w))) with (<[t := assign v s]> (settings (conn w)));
      [reflexivity|].
    apply map_eq. intros i. destruct (decide (i = t)) as [->|Hne].
    + by rewrite lookup_insert_eq, lookup_alter_eq, Hs.
    + by rewrite lookup_insert_ne, lookup_alter_ne.
Qed.

Lemma with_accessKeyId_id x : with_accessKeyId (accessKeyId x) x = x.
Proof. by destruct x. Qed.
Lemma with_secretAccessKey_id x : with_secretAccessKey (secretAccessKey x) x = x.
Proof. by destruct x. Qed.
Lemma with_host_id x : with_host (host x) x = x.
Proof. by destruct x. Qed.

(** The three loading blocks of [verifySettings] and its last two lines,
    once the settings object [s] of the target is in the cache. *)
Lemma run_loadSecrets t s w :
  settings (conn w) !! t = Some s ->
  run (loadSecret t "_s3AccessKeyId" accessKeyId with_accessKeyId s (fun s1 =>
       loadSecret t "_s3SecretAccessKey" secretAccessKey with_secretAccessKey s1 (fun s2 =>
       loadSecret t "_s3Host" host with_host s2 (fun s3 =>
       settings_set t s3 ;; Ret true)))) w
  = match fieldValue (accessKeyId s) (secretOf t "_s3AccessKeyId" w) with
    | None => (Returned false, w, [])
    | Some a =>
        match fieldValue (secretAccessKey s) (secretOf t "_s3SecretAccessKey" w) with
        | None =>
            (Returned false,
             set_settings (<[t := with_accessKeyId a s]> (settings (conn w))) w, [])
        | Some k =>
            match fieldValue (host s) (secretOf t "_s3Host" w) with
            | None =>
                (Returned false,
                 set_settings (<[t := mkTargetSettings a k (host s)]> (settings (conn w))) w, [])
            | Some h =>
                (Returned true,
                 set_settings (<[t := mkTargetSettings a k h]> (settings (conn w))) w, [])
            end
        end
    end.
Proof.
  intros Hs.
  rewrite (run_loadSecret _ _ _ _ _ _ _ Hs with_accessKeyId_id).
  destruct (fieldValue (accessKeyId s) _) as [a|]; [|reflexivity].
  rewrite (run_loadSecret t _ _ _ (with_accessKeyId a s)); cycle 1.
  { cbn. apply lookup_insert_eq. }
  { apply with_secretAccessKey_id. }
  change (secretOf t "_s3SecretAccessKey" (set_settings _ w))
    with (secretOf t "_s3SecretAccessKey" w).
  change (secretAccessKey (with_accessKeyId a s)) with (secretAccessKey s).
  destruct (fieldValue (secretAccessKey s) _) as [k|]; [|reflexivity].
  rewrite (run_loadSecret t _ _ _ (with_secretAccessKey k (with_accessKeyId a s))); cycle 1.
  { cbn. apply lookup_insert_eq. }
  { apply with_host_id. }
  change (secretOf t "_s3Host" (set_settings _ _)) with (secretOf t "_s3Host" w).
  change (host (with_secretAccessKey k (with_accessKeyId a s))) with (host s).
  destruct (fieldValue (host s) _) as [h|].
  - unfold settings_set, modify. cbn. by rewrite !insert_insert_eq.
  - cbn. by rewrite !insert_insert_eq.
Qed.

Lemma run_verifySettings t w :
  run (verifySettings t) w
  = run (loadSecret t "_s3AccessKeyId" accessKeyId with_accessKeyId
           (default newTargetSettings (settings (conn w) !! t)) (fun s1 =>
         loadSecret t "_s3SecretAccessKey" secretAccessKey with_secretAccessKey s1 (fun s2 =>
         loadSecret t "_s3Host" host with_host s2 (fun s3 =>
         settings_set t s3 ;; Ret true))))
      (touchSettings t w).
Proof.
  unfold verifySettings, touchSettings. cbn [get bind run].
  destruct (settings (conn w) !! t) as [s|] eqn:E; cbn [default bind].
  - by rewrite insert_id, set_settings_id.
  - reflexivity.
Qed.

Lemma verifySettings_returns t w :
  completionOf (run (verifySettings t) w)
  = Returned (bool_decide (is_Some (resolveSettings t w))).
Proof.
  rewrite run_verifySettings.
  rewrite (run_loadSecrets t (default newTargetSettings (settings (conn w) !! t)));
    [|apply lookup_insert_eq].
  unfold resolveSettings.
  change (secretOf t "_s3AccessKeyId" (touchSettings t w)) with (secretOf t "_s3AccessKeyId" w).
  change (secretOf t "_s3SecretAccessKey" (touchSettings t w))
    with (secretOf t "_s3SecretAccessKey" w).
  change (secretOf t "_s3Host" (touchSettings t w)) with (secretOf t "_s3Host" w).
  destruct (fieldValue (accessKeyId _) _); [|reflexivity].
  destruct (fieldValue (secretAccessKey _) _); [|reflexivity].
  by destruct (fieldValue (host _) _).
Qed.

(** X3: [verifySettings] never throws and starts nothing; it returns true
    exactly when each of the three fields is cached non-empty or stored
    non-empty.  It changes nothing but the settings cache, where it leaves
    an entry for the target, the complete settings when it returns true;
    the entries of other targets are as before. *)
Theorem verifySettings_resolves t w :
  completionOf (run (verifySettings t) w)
  = Returned (bool_decide (is_Some (resolveSettings t w))) /\
  snd (run (verifySettings t) w) = [] /\
  exists cache,
    worldOf (run (verifySettings t) w) = set_settings cache w /\
    (forall t', t' <> t -> cache !! t' = settings (conn w) !! t') /\
    is_Some (cache !! t) /\
    (forall s, resolveSettings t w = Some s -> cache !! t = Some s).
Proof.
  rewrite run_verifySettings.
  rewrite (run_loadSecrets t (default newTargetSettings (settings (conn w) !! t)));
    [|apply lookup_insert_eq].
  unfold resolveSettings.
  change (secretOf t "_s3AccessKeyId" (touchSettings t w)) with (secretOf t "_s3AccessKeyId" w).
  change (secretOf t "_s3SecretAccessKey" (touchSettings t w))
    with (secretOf t "_s3SecretAccessKey" w).
  change (secretOf t "_s3Host" (touchSettings t w)) with (secretOf t "_s3Host" w).
  set (d := default newTargetSettings (settings (conn w) !! t)).
  assert (Hother : forall x t', t' <> t ->
            <[t := x]> (<[t := d]> (settings (conn w))) !! t' = settings (conn w) !! t').
  { intros x t' Hne. by rewrite !lookup_insert_ne. }
  destruct (fieldValue (accessKeyId d) _) as [a|].
  2:{ split; [reflexivity|]. split; [reflexivity|].
      exists (<[t := d]> (settings (conn w))). split; [reflexivity|].
      split; [intros t' Hne; by rewrite lookup_insert_ne|].
      split; [by rewrite lookup_insert_eq | discriminate]. }
  destruct (fieldValue (secretAccessKey d) _) as [k|].
  2:{ split; [reflexivity|]. split; [reflexivity|].
      eexists (<[t := _]> (<[t := d]> (settings (conn w)))). split; [reflexivity|].
      split; [apply Hother|].
      split; [by rewrite lookup_insert_eq | discriminate]. }
  destruct (fieldValue (host d) _) as [h|].
  2:{ split; [reflexivity|]. split; [reflexivity|].
      eexists (<[t := _]> (<[t := d]> (settings (conn w)))). split; [reflexivity|].
      split; [apply Hother|].
      split; [by rewrite lookup_insert_eq | discriminate]. }
  split; [reflexivity|]. split; [reflexivity|].
  eexists (<[t := _]> (<[t := d]> (settings (conn w)))). split; [reflexivity|].
  split; [apply Hother|].
  split; [by rewrite lookup_insert_eq|].
  intros s [= <-]. by rewrite lookup_insert_eq.
Qed.


(** ** Saving and removing settings *)

Lemma append_inv_head (t a b : string) : t +:+ a = t +:+ b -> a = b.
Proof.
  induction t as [|c t IH]; [done|]. rewrite !append_cons. intros [= E]. auto.
Qed.

Lemma secretOf_store t suffix v w :
  secretOf t suffix (snd (handle (SecretStore (t +:+ suffix) v) w)) = Some v.
Proof. unfold secretOf. cbn. apply lookup_insert_eq. Qed.

Lemma run_storeSettings t r w :
  run (storeSettings t r) w = (Returned tt, withSettings t r w, []).
Proof. reflexivity. Qed.

Lemma secretOf_withSettings t r w :
  secretOf t "_s3AccessKeyId" (withSettings t r w) = Some (res_accessKeyId r) /\
  secretOf t "_s3SecretAccessKey" (withSettings t r w) = Some (res_secretAccessKey r) /\
  secretOf t "_s3Host" (withSettings t r w) = Some (res_host r).
Proof.
  unfold secretOf, withSettings. cbn.
  repeat split.
  - rewrite !lookup_insert_ne by (intros E; apply append_inv_head in E; discriminate).
    apply lookup_insert_eq.
  - rewrite !lookup_insert_ne by (intros E; apply append_inv_head in E; discriminate).
    apply lookup_insert_eq.
  - apply lookup_insert_eq.
Qed.

Lemma resolveSettings_withSettings t r w :
  complete r = true -> resolveSettings t (withSettings t r w) = Some (settingsOf r).
Proof.
  unfold complete. intros H. apply andb_prop in H as [H Hh]. apply andb_prop in H as [Ha Hk].
  unfold resolveSettings.
  replace (settings (conn (withSettings t r w)) !! t) with (Some (settingsOf r))
    by (symmetry; apply lookup_insert_eq).
  cbn [default id settingsOf accessKeyId secretAccessKey host].
  unfold fieldValue. by rewrite Ha, Hk, Hh.
Qed.

Lemma run_addTarget_saved t r rest w :
  promptAnswers (platform w) = Some r :: rest ->
  run (addTarget t) w
  = (Returned tt,
     withSettings t r
       (set_promptAnswers rest
          (set_globalState (<["s3Targets" := targets (conn w) ++ [t]]> (globalState (platform w)))
             (set_targets (targets (conn w) ++ [t]) w))),
     []).
Proof.
  intros Hp. unfold addTarget, globalState_update. cbn. rewrite Hp. reflexivity.
Qed.

(** X4: when the prompt is saved, [addTarget] returns with the name
    appended to the target list and to the persisted list, the three
    secrets stored under the target's keys and the settings cached; the
    client cache is not touched.  [getClient] then hands out a client for
    the entered host and credentials, unless a client was cached for the
    name before, which it hands out instead; with all three fields filled
    in, [verifySettings] returns true. *)
Theorem addTarget_saved t r rest w :
  promptAnswers (platform w) = Some r :: rest ->
  let w' := worldOf (run (addTarget t) w) in
  completionOf (run (addTarget t) w) = Returned tt /\
  targets (conn w') = targets (conn w) ++ [t] /\
  globalState (platform w') !! "s3Targets" = Some (targets (conn w) ++ [t]) /\
  secretOf t "_s3AccessKeyId" w' = Some (res_accessKeyId r) /\
  secretOf t "_s3SecretAccessKey" w' = Some (res_secretAccessKey r) /\
  secretOf t "_s3Host" w' = Some (res_host r) /\
  settings (conn w') !! t = Some (settingsOf r) /\
  clients (conn w') = clients (conn w) /\
  completionOf (run (getClient t) w')
  = Returned (match clients (conn w) !! t with
              | Some client => client
              | None => clientOf (settingsOf r)
              end) /\
  (complete r = true -> completionOf (run (verifySettings t) w') = Returned true).
Proof.
  intros Hp w'. subst w'. rewrite (run_addTarget_saved t r rest w Hp).
  unfold completionOf, worldOf. cbn [fst snd].
  set (w0 := set_promptAnswers _ _).
  destruct (secretOf_withSettings t r w0) as (Ha & Hk & Hh).
  split; [reflexivity|]. split; [reflexivity|].
  split; [cbn; apply lookup_insert_eq|].
  split; [exact Ha|]. split; [exact Hk|]. split; [exact Hh|].
  split; [apply lookup_insert_eq|]. split; [reflexivity|].
  split.
  - destruct (run_getClient t (withSettings t r w0)) as [sp ->]. cbn [fst].
    unfold resolveClient.
    change (clients (conn (withSettings t r w0))) with (clients (conn w)).
    destruct (clients (conn w) !! t); [reflexivity|].
    replace (settings (conn (withSettings t r w0)) !! t) with (Some (settingsOf r))
      by (symmetry; apply lookup_insert_eq).
    reflexivity.
  - intros Hc. fold (completionOf (run (verifySettings t) (withSettings t r w0))).
    rewrite verifySettings_returns, resolveSettings_withSettings by done. reflexivity.
Qed.

Lemma addTarget_saved_witness :
  completionOf
    (run (verifySettings "t2")
       (worldOf (run (addTarget "t2")
          (set_promptAnswers [Some (mkS3SettingsResult "AK" "SK" "http://h")]
             (Sample.configured [])))))
  = Returned true.
Proof.
  refine (proj2 (proj2 (proj2 (proj2 (proj2 (proj2 (proj2 (proj2 (proj2
    (addTarget_saved "t2" (mkS3SettingsResult "AK" "SK" "http://h") []
       (set_promptAnswers [Some (mkS3SettingsResult "AK" "SK" "http://h")]
          (Sample.configured [])) _))))))))) _); reflexivity.
Defined.

Lemma run_editTarget_saved t r rest w :
  promptAnswers (platform w) = Some r :: rest ->
  exists sp,
    run (editTarget t) w
    = (Returned tt,
       set_clients (delete t (clients (conn w)))
         (withSettings t r (set_promptAnswers rest (touchSettings t w))),
       sp).
Proof.
  intros Hp. unfold editTarget. cbn [run].
  destruct (advance_verifySettings t w) as (rest' & sp & ->).
  cbn [Js.truthy_promise negb].
  rewrite run_bind. cbn [get run]. rewrite run_bind.
  unfold await at 1. cbn [run handle].
  change (promptAnswers (platform (touchSettings t w))) with (promptAnswers (platform w)).
  rewrite Hp. cbn [run]. rewrite run_bind, run_storeSettings. cbn.
  rewrite !app_nil_r. eauto.
Qed.

(** X5: when the prompt is saved, [editTarget] returns with the three
    secrets stored, the settings cached and the cached client of the
    target dropped, so that the next [getClient] builds its client from
    the settings just entered; the target list is as before. *)
Theorem editTarget_saved t r rest w :
  promptAnswers (platform w) = Some r :: rest ->
  let w' := worldOf (run (editTarget t) w) in
  completionOf (run (editTarget t) w) = Returned tt /\
  secretOf t "_s3AccessKeyId" w' = Some (res_accessKeyId r) /\
  secretOf t "_s3SecretAccessKey" w' = Some (res_secretAccessKey r) /\
  secretOf t "_s3Host" w' = Some (res_host r) /\
  settings (conn w') !! t = Some (settingsOf r) /\
  clients (conn w') !! t = None /\
  targets (conn w') = targets (conn w) /\
  completionOf (run (getClient t) w') = Returned (clientOf (settingsOf r)).
Proof.
  intros Hp w'. subst w'.
  destruct (run_editTarget_saved t r rest w Hp) as [sp ->].
  unfold completionOf, worldOf. cbn [fst snd].
  set (w0 := set_promptAnswers _ _).
  destruct (secretOf_withSettings t r w0) as (Ha & Hk & Hh).
  split; [reflexivity|].
  split; [exact Ha|]. split; [exact Hk|]. split; [exact Hh|].
  split; [apply lookup_insert_eq|].
  split; [apply lookup_delete_eq|]. split; [reflexivity|].
  destruct (run_getClient t (set_clients (delete t (clients (conn w))) (withSettings t r w0)))
    as [sp' ->].
  cbn [fst]. unfold resolveClient.
  replace (clients (conn (set_clients (delete t (clients (conn w))) (withSettings t r w0))) !! t)
    with (@None S3Client) by (symmetry; apply lookup_delete_eq).
  replace (settings (conn (set_clients (delete t (clients (conn w))) (withSettings t r w0))) !! t)
    with (Some (settingsOf r)) by (symmetry; apply lookup_insert_eq).
  reflexivity.
Qed.

Lemma editTarget_saved_witness :
  completionOf
    (run (getClient "t1")
       (worldOf (run (editTarget "t1")
          (set_promptAnswers [Some (mkS3SettingsResult "AK2" "SK2" "http://h2")]
             (Sample.configured [])))))
  = Returned (mkS3Client "EU" "http://h2" "AK2" "SK2" true).
Proof.
  refine (proj2 (proj2 (proj2 (proj2 (proj2 (proj2 (proj2
    (editTarget_saved "t1" (mkS3SettingsResult "AK2" "SK2" "http://h2") []
       (set_promptAnswers [Some (mkS3SettingsResult "AK2" "SK2" "http://h2")]
          (Sample.configured [])) _)))))))); reflexivity.
Defined.

(** X6: [editTarget] opens the prompt without waiting for
    [verifySettings]: the three fields it shows are those of the settings
    cache at the time of the call, empty for a target whose settings were
    not loaded, whatever the secret storage holds. *)
Theorem editTarget_prefills_from_cache t w :
  let cached := default newTargetSettings (settings (conn w) !! t) in
  exists k sp,
    advance (editTarget t) w
    = (Await (ShowSettingsPrompt t (Some (accessKeyId cached))
                (Some (secretAccessKey cached)) (Some (host cached))) k,
       touchSettings t w, sp).
Proof.
  intros cached. unfold editTarget. cbn [advance].
  destruct (advance_verifySettings t w) as (rest & sp & ->).
  cbn [Js.truthy_promise negb get bind advance await].
  replace (settings (conn (touchSettings t w)) !! t) with (Some cached)
    by (symmetry; apply lookup_insert_eq).
  cbn [fmap option_fmap option_map]. rewrite app_nil_r. eauto.
Qed.

Lemma filter_other_not_in (t : string) (l : list string) :
  t ∉ List.filter (fun x => negb (String.eqb x t)) l.
Proof.
  intros H. apply list_elem_of_In, List.filter_In in H as [_ H].
  by rewrite String.eqb_refl in H.
Qed.

(** X7: [removeTarget] returns at once, with the secrets still stored: the
    three deletions were started and not awaited.  Once they have
    settled, nothing is left of the target: it is in neither list, the
    persisted list equals the list in memory, no settings and no client
    are cached, none of its three secrets is stored, and [verifySettings]
    returns false; the other stored secrets are as before. *)
Theorem removeTarget_settled t w :
  let r := run (removeTarget t) w in
  let s := settle (snd r) (worldOf r) in
  completionOf r = Returned tt /\
  secretStorage (platform (worldOf r)) = secretStorage (platform w) /\
  snd s = [] /\
  (t ∉ targets (conn (fst s))) /\
  globalState (platform (fst s)) !! "s3Targets" = Some (targets (conn (fst s))) /\
  settings (conn (fst s)) !! t = None /\
  clients (conn (fst s)) !! t = None /\
  secretOf t "_s3AccessKeyId" (fst s) = None /\
  secretOf t "_s3SecretAccessKey" (fst s) = None /\
  secretOf t "_s3Host" (fst s) = None /\
  (forall key,
     key <> t +:+ "_s3AccessKeyId" -> key <> t +:+ "_s3SecretAccessKey" ->
     key <> t +:+ "_s3Host" ->
     secretStorage (platform (fst s)) !! key = secretStorage (platform w) !! key) /\
  completionOf (run (verifySettings t) (fst s)) = Returned false.
Proof.
  intros r s. subst s r.
  unfold removeTarget, globalState_update, fire. cbn -[String.append verifySettings].
  set (l := List.filter _ (targets (conn w))).
  assert (Hl : t ∉ l) by apply filter_other_not_in.
  destruct (bool_decide (currentTarget (conn w) = Some t)); cbn -[String.append verifySettings].
  all: unfold completionOf, worldOf, secretOf; cbn -[String.append verifySettings].
  all: (split; [reflexivity|]); (split; [reflexivity|]); (split; [reflexivity|]).
  all: (split; [exact Hl|]); (split; [apply lookup_insert_eq|]).
  all: (split; [apply lookup_delete_eq|]); (split; [apply lookup_delete_eq|]).
  all: assert (Ha : delete (t +:+ "_s3Host")
                      (delete (t +:+ "_s3SecretAccessKey")
                         (delete (t +:+ "_s3AccessKeyId") (secretStorage (platform w))))
                    !! (t +:+ "_s3AccessKeyId") = None)
         by (rewrite !lookup_delete_ne by (intros E; apply append_inv_head in E; discriminate);
             apply lookup_delete_eq).
  all: assert (Hk : delete (t +:+ "_s3Host")
                      (delete (t +:+ "_s3SecretAccessKey")
                         (delete (t +:+ "_s3AccessKeyId") (secretStorage (platform w))))
                    !! (t +:+ "_s3SecretAccessKey") = None)
         by (rewrite !lookup_delete_ne by (intros E; apply append_inv_head in E; discriminate);
             apply lookup_delete_eq).
  all: (split; [exact Ha|]); (split; [exact Hk|]); (split; [apply lookup_delete_eq|]).
  all: (split; [intros key H1 H2 H3; by rewrite !lookup_delete_ne|]).
  all: match goal with
       | |- fst (fst (run (verifySettings ?t') ?w2)) = _ =>
           change (completionOf (run (verifySettings t') w2) = Returned false);
           rewrite verifySettings_returns; unfold resolveSettings;
           replace (settings (conn w2) !! t') with (@None TargetSettings)
             by (symmetry; apply lookup_delete_eq);
           unfold secretOf; cbn -[String.append verifySettings]; rewrite Ha; reflexivity
       end.
Qed.

(** ** What the methods leave alone *)

Section Footprint.
Variable R : World -> World -> Prop.
Variable allowed : forall X, Call X -> bool.
Hypothesis R_refl : forall w, R w w.
Hypothesis R_settings : forall v w, R w (set_settings v w).
Hypothesis R_clients : forall v w, R w (set_clients v w).
Hypothesis R_info : forall m w, R w (emit (EvShowInformationMessage m) w).
Hypothesis R_error : forall m w, R w (emit (EvShowErrorMessage m) w).
Hypothesis R_targets : forall v w, R w (set_targets v w).
Hypothesis R_globalState : forall v w, R w (set_globalState v w).
Hypothesis R_currentTarget : forall v w, R w (set_currentTarget v w).
Hypothesis R_currentBucket : forall v w, R w (set_currentBucket v w).
Hypothesis ok_SecretGet : forall k, allowed _ (SecretGet k) = true.
Hypothesis ok_SecretStore : forall k v, allowed _ (SecretStore k v) = true.
Hypothesis ok_SecretDelete : forall k, allowed _ (SecretDelete k) = true.
Hypothesis ok_FsStat : forall u, allowed _ (FsStat u) = true.
Hypothesis ok_FsReadFile : forall u, allowed _ (FsReadFile u) = true.
Hypothesis ok_FsWriteFile : forall u d, allowed _ (FsWriteFile u d) = true.
Hypothesis ok_FsDelete : forall u, allowed _ (FsDelete u) = true.
Hypothesis ok_Prompt : forall t a k h, allowed _ (ShowSettingsPrompt t a k h) = true.
Hypothesis ok_ListBuckets : forall c, allowed _ (Send c ListBucketsCommand) = true.
Hypothesis ok_List : forall c i, allowed _ (Send c (ListObjectsV2Command i)) = true.
Hypothesis ok_Get : forall c b k, allowed _ (Send c (GetObjectCommand b k)) = true.
Hypothesis ok_Head : forall c b k, allowed _ (Send c (HeadObjectCommand b k)) = true.
Hypothesis ok_Put : forall c b k d m, allowed _ (Send c (PutObjectCommand b k d m)) = true.
Hypothesis ok_DeleteObject :
  forall c b k, allowed _ (Send c (DeleteObjectCommand b k)) = true.
Hypothesis ok_DeleteBucket : forall c b, allowed _ (Send c (DeleteBucketCommand b)) = true.
Hypothesis ok_Create : forall c b, allowed _ (Send c (CreateBucketCommand b)) = true.

Local Ltac side :=
  first
    [ apply R_refl | apply R_settings | apply R_clients | apply R_info | apply R_error
    | apply R_targets | apply R_globalState | apply R_currentTarget
    | apply R_currentBucket
    | apply ok_SecretGet | apply ok_SecretStore | apply ok_SecretDelete
    | apply ok_FsStat | apply ok_FsReadFile | apply ok_FsWriteFile | apply ok_FsDelete
    | apply ok_Prompt | apply ok_ListBuckets | apply ok_List | apply ok_Get
    | apply ok_Head | apply ok_Put | apply ok_DeleteObject | apply ok_DeleteBucket
    | apply ok_Create ].

Lemma fp_verifySettings t : Keeps R allowed (verifySettings t).
Proof. unfold verifySettings, loadSecret, settings_set. keeps_with side. Qed.

Lemma fp_getClient t : Keeps R allowed (getClient t).
Proof.
  unfold getClient, showErrorMessage, showInformationMessage.
  apply Keeps_Start; [apply fp_verifySettings | intros ?].
  keeps_with side.
Qed.

Lemma fp_toFileUri f : Keeps R allowed (toFileUri f).
Proof. unfold toFileUri. keeps_with side. Qed.

Lemma fp_fileExists f : Keeps R allowed (fileExists f).
Proof.
  unfold fileExists.
  apply keeps_bind; [apply fp_toFileUri | intros ?]. keeps_with side.
Qed.

Lemma fp_getBuckets : Keeps R allowed getBuckets.
Proof.
  unfold getBuckets.
  apply keeps_bind; [keeps_with side | intros [t|]]; [|keeps_with side].
  apply keeps_bind; [apply fp_getClient | intros ?]. keeps_with side.
Qed.

Lemma fp_createBucket b : Keeps R allowed (createBucket b).
Proof.
  unfold createBucket.
  apply keeps_bind; [keeps_with side | intros [t|]]; [|keeps_with side].
  apply keeps_bind; [apply fp_getClient | intros ?]. keeps_with side.
Qed.

Lemma fp_deleteObjects client b objs : Keeps R allowed (deleteObjects client b objs).
Proof.
  induction objs as [|obj objs IH]; cbn [deleteObjects]; [constructor|].
  destruct (Key obj) as [k|]; [|exact IH].
  destruct (Js.truthy k); [|exact IH].
  apply keeps_bind; [keeps_with side | intros ?; exact IH].
Qed.

Lemma fp_purgePages fuel client b token : Keeps R allowed (purgePages fuel client b token).
Proof.
  revert token. induction fuel as [|fuel IH]; intros token; cbn [purgePages];
    [constructor|].
  apply keeps_bind; [keeps_with side | intros resp].
  apply keeps_bind.
  - destruct (Contents resp) as [objs|]; [|constructor].
    destruct (0 <? length objs)%nat; [apply fp_deleteObjects | constructor].
  - intros _. destruct (Js.truthy_opt _); [apply IH | constructor].
Qed.

Lemma fp_deleteBucket fuel b : Keeps R allowed (deleteBucket fuel b).
Proof.
  unfold deleteBucket.
  apply keeps_bind; [keeps_with side | intros [t|]]; [|keeps_with side].
  apply keeps_bind; [apply fp_getClient | intros ?].
  apply keeps_bind; [apply fp_purgePages | intros ?]. keeps_with side.
Qed.

Lemma fp_storeSettings t r : Keeps R allowed (storeSettings t r).
Proof. unfold storeSettings, settings_set. keeps_with side. Qed.

Lemma fp_addTarget t : Keeps R allowed (addTarget t).
Proof.
  unfold addTarget, globalState_update.
  apply keeps_bind; [keeps_with side | intros ?].
  apply keeps_bind; [keeps_with side | intros ?].
  apply keeps_bind; [keeps_with side | intros ?].
  apply keeps_bind; [keeps_with side | intros [r|]];
    [apply fp_storeSettings | keeps_with side].
Qed.

Lemma fp_editTarget t : Keeps R allowed (editTarget t).
Proof.
  unfold editTarget, showErrorMessage.
  apply Keeps_Start; [apply fp_verifySettings | intros pr].
  destruct (negb (Js.truthy_promise pr)); [keeps_with side|].
  apply keeps_bind; [keeps_with side | intros ?].
  apply keeps_bind; [keeps_with side | intros [r|]]; [|keeps_with side].
  apply keeps_bind; [apply fp_storeSettings | intros ?]. keeps_with side.
Qed.

Lemma fp_removeTarget t : Keeps R allowed (removeTarget t).
Proof. unfold removeTarget, globalState_update. keeps_with side. Qed.

Lemma fp_getFilesInBucket parent : Keeps R allowed (getFilesInBucket parent).
Proof.
  unfold getFilesInBucket.
  apply keeps_bind; [keeps_with side | intros [[t b]|]]; [|keeps_with side].
  apply keeps_bind; [apply fp_getClient | intros ?]. keeps_with side.
Qed.

Lemma fp_getUpdateTimestamp f : Keeps R allowed (getUpdateTimestamp f).
Proof.
  unfold getUpdateTimestamp, showErrorMessage.
  apply keeps_bind; [keeps_with side | intros [[t b]|]]; [|keeps_with side].
  apply keeps_bind; [apply fp_getClient | intros ?]. keeps_with side.
Qed.

Lemma fp_getFileFromS3 f : Keeps R allowed (getFileFromS3 f).
Proof.
  unfold getFileFromS3, showErrorMessage.
  apply keeps_bind; [keeps_with side | intros [[t b]|]]; [|keeps_with side].
  apply keeps_bind; [apply fp_getClient | intros ?]. keeps_with side.
Qed.

Lemma fp_getAndSyncLocalFilePath f : Keeps R allowed (getAndSyncLocalFilePath f).
Proof.
  unfold getAndSyncLocalFilePath, showErrorMessage.
  apply keeps_bind; [keeps_with side | intros [[t b]|]]; [|keeps_with side].
  apply keeps_bind; [apply fp_fileExists | intros ex].
  apply keeps_bind; [apply fp_toFileUri | intros uri].
  destruct (negb ex).
  - apply keeps_bind; [apply fp_getFileFromS3 | intros ?]. keeps_with side.
  - apply keeps_bind; [keeps_with side | intros ?].
    apply keeps_bind; [apply fp_getUpdateTimestamp | intros [ts|]].
    + apply keeps_bind; [| intros ?; constructor].
      destruct (_ <? _); [|constructor].
      apply keeps_bind; [apply fp_getFileFromS3 | intros ?]. keeps_with side.
    + keeps_with side.
Qed.

Lemma fp_addDirectory d : Keeps R allowed (addDirectory d).
Proof.
  unfold addDirectory.
  apply keeps_bind; [keeps_with side | intros [[t b]|]]; [|keeps_with side].
  apply keeps_bind; [apply fp_getClient | intros ?]. keeps_with side.
Qed.

Lemma fp_updateFile f data : Keeps R allowed (updateFile f data).
Proof.
  unfold updateFile, showErrorMessage.
  apply keeps_bind; [keeps_with side | intros [[t b]|]]; [|keeps_with side].
  apply keeps_bind; [apply fp_toFileUri | intros ?].
  apply keeps_bind; [keeps_with side | intros ?].
  apply keeps_bind; [apply fp_getClient | intros ?].
  keeps_with side.
Qed.

Lemma fp_deleteFile f : Keeps R allowed (deleteFile f).
Proof.
  unfold deleteFile, showErrorMessage.
  apply keeps_bind; [keeps_with side | intros [[t b]|]]; [|keeps_with side].
  apply keeps_bind; [apply fp_getClient | intros ?].
  apply keeps_bind; [keeps_with side | intros ?].
  apply keeps_bind; [apply fp_toFileUri | intros ?].
  keeps_with side.
Qed.

Lemma fp_setTarget t : Keeps R allowed (setTarget t).
Proof. unfold setTarget. keeps_with side. Qed.

Lemma fp_selectBucket b : Keeps R allowed (selectBucket b).
Proof. unfold selectBucket. keeps_with side. Qed.

Lemma fp_getTargets : Keeps R allowed getTargets.
Proof. unfold getTargets. keeps_with side. Qed.

End Footprint.

(** *** The store behind [send] *)

Lemma send_endpoints client req w :
  endpoints (remote (snd (send client req w))) = endpoints (remote w) \/
  exists buckets,
    endpoints (remote w) !! endpoint client = Some buckets /\
    endpoints (remote (snd (send client req w)))
    = <[endpoint client := snd (serve (pageSize (remote w)) req buckets)]>
        (endpoints (remote w)).
Proof.
  unfold send. simpl.
  destruct (netFaults (remote w)) as [|[] faults]; simpl; try (by left);
    (destruct (endpoints (remote w) !! endpoint client) as [buckets|] eqn:E; simpl;
     [|by left]; right; exists buckets; split; [reflexivity|];
     by destruct (serve (pageSize (remote w)) req buckets) as [r b']).
Qed.

Lemma serve_readonly n client req buckets :
  permits StoreContent _ (Send client req) = true ->
  snd (serve n req buckets) = buckets.
Proof.
  destruct req as [|input|bn k| | | | |bn k]; intros H; try discriminate H; simpl.
  - reflexivity.
  - by destruct (buckets !! in_Bucket input).
  - destruct (buckets !! bn) as [b|]; [|reflexivity]. by destruct (lookupKey k b).
  - destruct (buckets !! bn) as [b|]; [|reflexivity]. by destruct (lookupKey k b).
Qed.

Lemma handle_unchanged res X (c : Call X) w :
  permits res X c = true -> unchanged res w (snd (handle c w)).
Proof.
  intros Hc. destruct res.
  - destruct c; try discriminate Hc; cbn; try reflexivity.
    + destruct (send_frame client req w) as (_ & H & _). by rewrite H.
    + by destruct (fs (platform w) !! uri).
    + by destruct (fs (platform w) !! uri).
    + by destruct (fs (platform w) !! uri).
    + by destruct (promptAnswers (platform w)).
  - destruct c; try discriminate Hc; cbn; try reflexivity.
    + destruct (send_frame client req w) as (_ & H & _). by rewrite H.
    + by destruct (fs (platform w) !! uri).
    + by destruct (fs (platform w) !! uri).
    + by destruct (promptAnswers (platform w)).
  - destruct c; cbn [handle unchanged]; try reflexivity.
    + destruct (send_endpoints client req w) as [H|(buckets & E & H)]; [exact H|].
      rewrite H, (serve_readonly _ client) by exact Hc. by apply insert_id.
    + by destruct (fs (platform w) !! uri).
    + by destruct (fs (platform w) !! uri).
    + by destruct (fs (platform w) !! uri).
    + by destruct (promptAnswers (platform w)).
  - cbn [unchanged]. rewrite handle_conn. split; [reflexivity|].
    destruct c; cbn; try reflexivity.
    + destruct (send_frame client req w) as (_ & H & _). by rewrite H.
    + by destruct (fs (platform w) !! uri).
    + by destruct (fs (platform w) !! uri).
    + by destruct (fs (platform w) !! uri).
    + by destruct (promptAnswers (platform w)).
Qed.

Lemma unchanged_refl res w : unchanged res w w.
Proof. by destruct res. Qed.

Lemma unchanged_trans res w1 w2 w3 :
  unchanged res w1 w2 -> unchanged res w2 w3 -> unchanged res w1 w3.
Proof.
  destruct res; cbn; try congruence.
  intros [A1 A2] [B1 B2]. split; congruence.
Qed.

Local Ltac footprint_with lem :=
  apply lem; intros; first [reflexivity | split; reflexivity].

Lemma footprint_keeps m res :
  writes m res = false -> Keeps (unchanged res) (permits res) (invoke m).
Proof.
  intros Hw.
  destruct m; cbn [invoke]; try apply keeps_discard.
  - destruct res; footprint_with fp_verifySettings.
  - destruct res; footprint_with fp_getClient.
  - destruct res; footprint_with fp_selectBucket.
  - destruct res; footprint_with fp_getBuckets.
  - destruct res; try discriminate Hw; footprint_with fp_createBucket.
  - destruct res; try discriminate Hw; footprint_with fp_deleteBucket.
  - destruct res; try discriminate Hw; footprint_with fp_addTarget.
  - destruct res; try discriminate Hw; footprint_with fp_editTarget.
  - destruct res; footprint_with fp_getTargets.
  - destruct res; footprint_with fp_setTarget.
  - destruct res; try discriminate Hw; footprint_with fp_removeTarget.
  - destruct res; footprint_with fp_getFilesInBucket.
  - destruct res; try discriminate Hw; footprint_with fp_getAndSyncLocalFilePath.
  - destruct res; try discriminate Hw; footprint_with fp_addDirectory.
  - destruct res; try discriminate Hw; footprint_with fp_updateFile.
  - destruct res; try discriminate Hw; footprint_with fp_deleteFile.
  - destruct res; footprint_with fp_toFileUri.
Qed.

(** X8: a method changes only what its code writes.  The secret storage is
    changed by [addTarget], [editTarget] and [removeTarget] alone; the local
    files by [getAndSyncLocalFilePath] and [deleteFile]; the buckets and
    objects of the store by [createBucket], [deleteBucket], [addDirectory],
    [updateFile] and [deleteFile]; the target list, in memory and
    persisted, by [addTarget] and [removeTarget].  Every other method
    leaves the resource as it is, in what it does before it returns and
    in what it started without awaiting. *)
Theorem methods_change_only_what_they_write m res w :
  writes m res = false ->
  unchanged res w (worldOf (run (invoke m) w)) /\
  Forall (KeepsTask (unchanged res) (permits res)) (snd (run (invoke m) w)).
Proof.
  intros Hw.
  apply (keeps_run (unchanged res) (permits res) (unchanged_refl res)
           (unchanged_trans res) (handle_unchanged res)).
  by apply footprint_keeps.
Qed.

Lemma methods_change_only_what_they_write_witness :
  unchanged Secrets (Sample.configured [])
    (worldOf (run (invoke (M_getFilesInBucket None)) (Sample.configured []))).
Proof.
  exact (proj1 (methods_change_only_what_they_write (M_getFilesInBucket None) Secrets
                  (Sample.configured []) eq_refl)).
Defined.

(** ** Objects of the store *)

Lemma lookupKey_cons k k' o (b : Bucket) :
  lookupKey k ((k', o) :: b) = if String.eqb k' k then Some o else lookupKey k b.
Proof. unfold lookupKey. cbn. by destruct (String.eqb k' k). Qed.

Lemma lookupKey_putKey k o (b : Bucket) : lookupKey k (putKey k o b) = Some o.
Proof.
  induction b as [|[k' o'] b IH]; cbn [putKey].
  - by rewrite lookupKey_cons, String.eqb_refl.
  - destruct (String.eqb_spec k k') as [->|Hne].
    + by rewrite lookupKey_cons, String.eqb_refl.
    + destruct (String.ltb k k').
      * by rewrite lookupKey_cons, String.eqb_refl.
      * rewrite lookupKey_cons.
        destruct (String.eqb_spec k' k) as [->|_]; [done | exact IH].
Qed.

Lemma lookupKey_putKey_ne k k' o (b : Bucket) :
  k' <> k -> lookupKey k' (putKey k o b) = lookupKey k' b.
Proof.
  intros Hne. induction b as [|[k0 o0] b IH]; cbn [putKey].
  - rewrite lookupKey_cons. by destruct (String.eqb_spec k k') as [->|_].
  - destruct (String.eqb_spec k k0) as [->|Hk].
    + rewrite !lookupKey_cons. by destruct (String.eqb_spec k0 k') as [->|_].
    + destruct (String.ltb k k0).
      * rewrite (lookupKey_cons k' k). by destruct (String.eqb_spec k k') as [->|_].
      * rewrite !lookupKey_cons. by rewrite IH.
Qed.

Lemma lookupKey_removeKey k (b : Bucket) : lookupKey k (removeKey k b) = None.
Proof.
  induction b as [|[k' o'] b IH]; [reflexivity|].
  unfold removeKey. cbn [List.filter fst].
  destruct (String.eqb_spec k' k) as [->|Hne]; cbn [negb]; [exact IH|].
  rewrite lookupKey_cons. destruct (String.eqb_spec k' k) as [E|_]; [done | exact IH].
Qed.

Lemma lookupKey_removeKey_ne k k' (b : Bucket) :
  k' <> k -> lookupKey k' (removeKey k b) = lookupKey k' b.
Proof.
  intros Hne. induction b as [|[k0 o0] b IH]; [reflexivity|].
  unfold removeKey. cbn [List.filter fst].
  destruct (String.eqb_spec k0 k) as [->|Hk]; cbn [negb].
  - rewrite lookupKey_cons. destruct (String.eqb_spec k k') as [E|_]; [by subst | exact IH].
  - rewrite !lookupKey_cons. destruct (String.eqb k0 k'); [reflexivity | exact IH].
Qed.

(** The object a bucket map holds in a bucket under a key. *)
Lemma objectAt_endpoint ep b k w buckets :
  endpoints (remote w) !! ep = Some buckets ->
  objectAt ep b k w = match buckets !! b with Some objs => lookupKey k objs | None => None end.
Proof. intros E. unfold objectAt. by rewrite E. Qed.

Lemma serve_keeps n client req (buckets : gmap string Bucket) b k :
  notDelete _ (Send client req) = true ->
  is_Some (match buckets !! b with Some objs => lookupKey k objs | None => None end) ->
  is_Some (match snd (serve n req buckets) !! b with
           | Some objs => lookupKey k objs
           | None => None
           end).
Proof.
  intros Hreq H.
  destruct req as [|input|bn key|bn key body meta| | |bn|bn key];
    try discriminate Hreq; cbn [serve].
  - exact H.
  - by destruct (buckets !! in_Bucket input).
  - destruct (buckets !! bn) as [objs|]; [|exact H]. by destruct (lookupKey key objs).
  - destruct (buckets !! bn) as [objs|] eqn:E; [|exact H]. cbn [snd].
    destruct (decide (b = bn)) as [->|Hb].
    + rewrite lookup_insert_eq. rewrite E in H.
      destruct (decide (k = key)) as [->|Hk].
      * by rewrite lookupKey_putKey.
      * by rewrite lookupKey_putKey_ne.
    + by rewrite lookup_insert_ne.
  - destruct (buckets !! bn) as [objs|] eqn:E; [exact H|]. cbn [snd].
    destruct (decide (b = bn)) as [->|Hb].
    + rewrite E in H. by destruct H.
    + by rewrite lookup_insert_ne.
  - destruct (buckets !! bn) as [objs|]; [|exact H]. by destruct (lookupKey key objs).
Qed.

Lemma ObjectsKept_refl w : ObjectsKept w w.
Proof. by intros ep b k H. Qed.

Lemma ObjectsKept_trans w1 w2 w3 :
  ObjectsKept w1 w2 -> ObjectsKept w2 w3 -> ObjectsKept w1 w3.
Proof. intros H1 H2 ep b k H. by apply H2, H1. Qed.

Lemma ObjectsKept_same w w' :
  endpoints (remote w') = endpoints (remote w) -> ObjectsKept w w'.
Proof. intros E ep b k H. unfold objectAt in *. by rewrite E. Qed.

Lemma handle_ObjectsKept X (c : Call X) w :
  notDelete X c = true -> ObjectsKept w (snd (handle c w)).
Proof.
  intros Hc.
  destruct c; cbn [handle]; try (apply ObjectsKept_same; reflexivity).
  - destruct (send_endpoints client req w) as [H|(buckets & E & H)];
      [by apply ObjectsKept_same|].
    intros ep b k Hk. unfold objectAt at 1. rewrite H.
    destruct (decide (ep = endpoint client)) as [->|Hep].
    + rewrite lookup_insert_eq. apply (serve_keeps _ client); [exact Hc|].
      by rewrite <- (objectAt_endpoint _ _ _ _ _ E).
    + rewrite lookup_insert_ne by done. exact Hk.
  - apply ObjectsKept_same. by destruct (fs (platform w) !! uri).
  - apply ObjectsKept_same. by destruct (fs (platform w) !! uri).
  - apply ObjectsKept_same. by destruct (fs (platform w) !! uri).
  - apply ObjectsKept_same. by destruct (promptAnswers (platform w)).
Qed.

Lemma NoDeleteSent_same w w' : trace w' = trace w -> NoDeleteSent w w'.
Proof. intros E. exists []. by rewrite E, app_nil_r. Qed.

Lemma NoDeleteSent_trans w1 w2 w3 :
  NoDeleteSent w1 w2 -> NoDeleteSent w2 w3 -> NoDeleteSent w1 w3.
Proof.
  intros (e1 & E1 & A1 & B1) (e2 & E2 & A2 & B2). exists (e1 ++ e2).
  rewrite E2, E1, <- app_assoc. split; [reflexivity|].
  by rewrite !omap_app, A1, A2, B1, B2.
Qed.

Lemma handle_NoDeleteSent X (c : Call X) w :
  notDelete X c = true -> NoDeleteSent w (snd (handle c w)).
Proof.
  intros Hc.
  destruct c; cbn [handle]; try (apply NoDeleteSent_same; reflexivity).
  - destruct (send_frame client req w) as (_ & _ & _ & _ & Htr).
    exists [EvSend (endpoint client) req]. split; [exact Htr|].
    by destruct req.
  - apply NoDeleteSent_same. by destruct (fs (platform w) !! uri).
  - apply NoDeleteSent_same. by destruct (fs (platform w) !! uri).
  - apply NoDeleteSent_same. by destruct (fs (platform w) !! uri).
  - apply NoDeleteSent_same. by destruct (promptAnswers (platform w)).
Qed.

Lemma Harmless_refl w : Harmless w w.
Proof. split; [apply ObjectsKept_refl | by apply NoDeleteSent_same]. Qed.

Lemma Harmless_trans w1 w2 w3 : Harmless w1 w2 -> Harmless w2 w3 -> Harmless w1 w3.
Proof.
  intros [A1 B1] [A2 B2].
  split; [by eapply ObjectsKept_trans | by eapply NoDeleteSent_trans].
Qed.

Lemma handle_Harmless X (c : Call X) w :
  notDelete X c = true -> Harmless w (snd (handle c w)).
Proof. intros Hc. split; [by apply handle_ObjectsKept | by apply handle_NoDeleteSent]. Qed.

Lemma Harmless_message w e :
  isObjectDelete e = None -> isBucketDelete e = None -> Harmless w (emit e w).
Proof.
  intros H1 H2. split; [by apply ObjectsKept_same|].
  exists [e]. split; [reflexivity|]. cbn. by rewrite H1, H2.
Qed.

Lemma Harmless_same w w' :
  endpoints (remote w') = endpoints (remote w) -> trace w' = trace w -> Harmless w w'.
Proof. intros E T. split; [by apply ObjectsKept_same | by apply NoDeleteSent_same]. Qed.

Local Ltac kept_with lem :=
  apply lem; intros;
  first [ reflexivity
        | apply Harmless_same; reflexivity
        | apply Harmless_message; reflexivity ].

Lemma kept_invoke m : deletes m = false -> Keeps Harmless notDelete (invoke m).
Proof.
  intros Hd.
  destruct m; try discriminate Hd; cbn [invoke]; try apply keeps_discard.
  - kept_with fp_verifySettings.
  - kept_with fp_getClient.
  - kept_with fp_selectBucket.
  - kept_with fp_getBuckets.
  - kept_with fp_createBucket.
  - kept_with fp_addTarget.
  - kept_with fp_editTarget.
  - kept_with fp_getTargets.
  - kept_with fp_setTarget.
  - kept_with fp_removeTarget.
  - kept_with fp_getFilesInBucket.
  - kept_with fp_getAndSyncLocalFilePath.
  - kept_with fp_addDirectory.
  - kept_with fp_updateFile.
  - kept_with fp_toFileUri.
Qed.

(** X9: no method but [deleteBucket] and [deleteFile] ever deletes: a call
    of any other method sends no request that deletes an object or a
    bucket, and whatever the store holds under a key before the call, it
    holds something under that key afterwards; what the call started
    without awaiting deletes nothing either. *)
Theorem only_deletes_lose_objects m w :
  deletes m = false ->
  Harmless w (worldOf (run (invoke m) w)) /\
  Forall (KeepsTask Harmless notDelete) (snd (run (invoke m) w)).
Proof.
  intros Hd.
  apply (keeps_run Harmless notDelete Harmless_refl Harmless_trans handle_Harmless).
  by apply kept_invoke.
Qed.

Lemma only_deletes_lose_objects_witness :
  Harmless Scenario.behindClock
    (worldOf (run (invoke (M_updateFile Scenario.fileA [])) Scenario.behindClock)).
Proof.
  exact (proj1 (only_deletes_lose_objects (M_updateFile Scenario.fileA [])
                  Scenario.behindClock eq_refl)).
Defined.

(** ** The persisted target list *)

Lemma Mirrored_unchanged w w' : unchanged TargetList w w' -> Mirrored w -> Mirrored w'.
Proof. unfold Mirrored, persistedTargets. intros [-> ->]. done. Qed.

Lemma addTarget_mirrored t w : Mirrored (worldOf (run (addTarget t) w)).
Proof.
  unfold addTarget, globalState_update, Mirrored, persistedTargets, worldOf.
  cbn -[String.append].
  destruct (promptAnswers (platform w)) as [|[r|] rest]; cbn -[String.append];
    by rewrite lookup_insert_eq.
Qed.

Lemma removeTarget_mirrored t w : Mirrored (worldOf (run (removeTarget t) w)).
Proof.
  unfold removeTarget, globalState_update, fire, Mirrored, persistedTargets, worldOf.
  cbn -[String.append].
  destruct (bool_decide (currentTarget (conn w) = Some t)); cbn -[String.append];
    by rewrite lookup_insert_eq.
Qed.

Lemma newS3Connector_mirrored path w : Mirrored (worldOf (run (newS3Connector path) w)).
Proof.
  unfold newS3Connector. cbn [get bind run modify].
  set (ts := default [] (globalState (platform w) !! "s3Targets")).
  set (w0 := with_conn _ w).
  assert (H0 : Mirrored w0) by reflexivity.
  apply (Mirrored_unchanged w0); [|exact H0].
  apply (keeps_run (unchanged TargetList) (permits TargetList)
           (unchanged_refl TargetList) (unchanged_trans TargetList)
           (handle_unchanged TargetList)).
  clear. induction ts as [|t ts IH]; [constructor|].
  apply Keeps_Start; [|intros _; exact IH].
  apply fp_verifySettings; intros; first [reflexivity | split; reflexivity].
Qed.

(** X10: the persisted target list mirrors the list in memory.  The
    constructor starts from the persisted list (the empty list when
    nothing was persisted); [addTarget] and [removeTarget] persist the
    list they leave, whether the prompt is saved or dismissed; no other
    method changes either list.  So after the constructor and any
    sequence of method calls a restart finds the targets in memory. *)
Theorem target_list_mirrored :
  (forall path w, Mirrored (worldOf (run (newS3Connector path) w))) /\
  (forall m w, Mirrored w -> Mirrored (worldOf (run (invoke m) w))).
Proof.
  split; [apply newS3Connector_mirrored|].
  intros m w Hw.
  destruct (writes m TargetList) eqn:E.
  - destruct m; try discriminate E; cbn [invoke].
    + apply addTarget_mirrored.
    + apply removeTarget_mirrored.
  - apply (Mirrored_unchanged w); [|exact Hw].
    apply (keeps_run (unchanged TargetList) (permits TargetList)
             (unchanged_refl TargetList) (unchanged_trans TargetList)
             (handle_unchanged TargetList)).
    by apply footprint_keeps.
Qed.

Lemma target_list_mirrored_witness :
  Mirrored (worldOf (run (invoke (M_setTarget "t1")) (Sample.configured []))).
Proof.
  exact (proj2 target_list_mirrored (M_setTarget "t1") (Sample.configured []) eq_refl).
Defined.

(** ** Pushing, fetching and deleting a file *)

Lemma run_bind_getClient {B} t (k : S3Client -> Prog B) w :
  exists sp,
    run (bind (getClient t) k) w
    = let '(c, w2, sp2) := run (k (resolveClient t w)) (connect t w) in
      (c, w2, sp ++ sp2).
Proof.
  rewrite run_bind. destruct (run_getClient t w) as [sp ->]. exists sp.
  by destruct (run (k (resolveClient t w)) (connect t w)) as [[c w2] sp2].
Qed.

Lemma Serving_connect client b objs t w :
  Serving client b objs w -> Serving client b objs (connect t w).
Proof.
  intros [Hf Hb]. destruct (connect_frame t w) as (Hr & _).
  unfold Serving, bucketOf. by rewrite Hr.
Qed.

Lemma Serving_served client req b objs' (buckets : gmap string Bucket) w :
  buckets !! b = Some objs' -> Serving client b objs' (served client req buckets w).
Proof.
  intros Hb. split; [reflexivity|]. unfold bucketOf, served. cbn.
  rewrite lookup_insert_eq. exact Hb.
Qed.

Lemma run_await_send {B} client req (k : S3Output req -> Prog B) w buckets :
  netFaults (remote w) = [] ->
  endpoints (remote w) !! endpoint client = Some buckets ->
  run (bind (await (Send client req)) k) w
  = match fst (serve (pageSize (remote w)) req buckets) with
    | Fulfilled v =>
        run (k v) (served client req (snd (serve (pageSize (remote w)) req buckets)) w)
    | Rejected e =>
        (Threw e, served client req (snd (serve (pageSize (remote w)) req buckets)) w, [])
    end.
Proof.
  intros Hf He. unfold await. cbn [bind run handle].
  rewrite (send_served client req w buckets Hf He).
  by destruct (fst (serve (pageSize (remote w)) req buckets)).
Qed.

Lemma run_send client req w buckets :
  netFaults (remote w) = [] ->
  endpoints (remote w) !! endpoint client = Some buckets ->
  run (await (Send client req)) w
  = match fst (serve (pageSize (remote w)) req buckets) with
    | Fulfilled v =>
        (Returned v, served client req (snd (serve (pageSize (remote w)) req buckets)) w, [])
    | Rejected e =>
        (Threw e, served client req (snd (serve (pageSize (remote w)) req buckets)) w, [])
    end.
Proof.
  intros Hf He. unfold await. cbn [run handle].
  rewrite (send_served client req w buckets Hf He).
  by destruct (fst (serve (pageSize (remote w)) req buckets)).
Qed.

(** Rewrites with an equation about a request, whose answer type is
    computed from the request. *)
Ltac rewrite_request H :=
  let Hs := fresh "Hs" in
  pose proof H as Hs; cbn [S3Output] in Hs |- *; rewrite Hs; clear Hs.

Lemma run_toFileUri f w t b :
  selection w = Some (t, b) ->
  run (toFileUri f) w
  = (Returned (joinPath (storagePath (conn w)) t b (getObjectKey (OfFile f))), w, []).
Proof. intros Hsel. unfold toFileUri. cbn [get bind run]. by rewrite Hsel. Qed.


Lemma requests_app l1 l2 : requests (l1 ++ l2) = requests l1 ++ requests l2.
Proof. unfold requests. apply omap_app. Qed.

Lemma requests_info evs :
  Forall (fun e => exists m, e = EvShowInformationMessage m) evs -> requests evs = [].
Proof. intros H. apply omap_info; [reflexivity | exact H]. Qed.

Lemma eventsSince_connect t w : requests (eventsSince w (connect t w)) = [].
Proof.
  destruct (connect_frame t w) as (_ & _ & evs & Ht & Hinfo).
  rewrite (eventsSince_app _ _ _ Ht). by apply requests_info.
Qed.



Lemma resolveClient_served t client req buckets w :
  resolveClient t (served client req buckets w) = resolveClient t w.
Proof. reflexivity. Qed.



Lemma selection_connect t w : selection (connect t w) = selection w.
Proof. apply (ReadFrame_connect t w). Qed.

Lemma storagePath_connect t w : storagePath (conn (connect t w)) = storagePath (conn w).
Proof. apply (ReadFrame_connect t w). Qed.

Lemma platform_connect t w : platform (connect t w) = platform w.
Proof. apply (connect_frame t w). Qed.

Lemma remote_connect t w : remote (connect t w) = remote w.
Proof. apply (connect_frame t w). Qed.

Lemma served_same client req buckets w :
  endpoints (remote w) !! endpoint client = Some buckets ->
  served client req buckets w = answered client req w.
Proof.
  intros E. unfold served, answered.
  destruct w as [c p [eps ps nf] wa tr]. cbn in *.
  unfold set_endpoints, with_remote. cbn. by rewrite insert_id.
Qed.

Lemma Serving_answered client' client req b objs w :
  Serving client' b objs w -> Serving client' b objs (answered client req w).
Proof. intros [Hf Hb]. split; [reflexivity | exact Hb]. Qed.

Lemma run_getFileFromS3_served f w t b objs o :
  selection w = Some (t, b) ->
  Serving (resolveClient t w) b objs w ->
  lookupKey (getObjectKey (OfFile f)) objs = Some o ->
  exists sp,
    run (getFileFromS3 f) w
    = (Returned (Body o),
       answered (resolveClient t w) (GetObjectCommand b (getObjectKey (OfFile f)))
         (connect t w),
       sp).
Proof.
  intros Hsel Hserve Ho.
  apply (Serving_connect _ _ _ t) in Hserve.
  destruct (Serving_endpoint _ _ _ _ Hserve) as (Hf & buckets & He & Hb).
  unfold getFileFromS3. rewrite run_bind. cbn [get run]. rewrite Hsel.
  match goal with
  | |- context [run (bind (getClient t) ?k) w] =>
      destruct (run_bind_getClient t k w) as [sp E]
  end.
  exists ([] ++ sp ++ []). rewrite E. clear E.
  rewrite_request (run_await_send (resolveClient t w)
    (GetObjectCommand b (getObjectKey (OfFile f)))
    (fun response : GetObjectOutput =>
       if negb (httpStatusCode response =? 200)
       then showErrorMessage ("Failed to get file " +:+ fileName f +:+ " from S3");;
            Throw ("Failed to get file " +:+ fileName f +:+ " from S3")
       else match out_Body response with
            | Some body => Ret body
            | None => Ret []
            end)
    (connect t w) buckets Hf He).
  cbn [serve]. rewrite Hb, Ho. cbn [fst snd httpStatusCode out_Body negb Z.eqb Pos.eqb run].
  by rewrite (served_same _ _ _ _ He).
Qed.

Lemma run_getUpdateTimestamp_served f w t b objs o :
  selection w = Some (t, b) ->
  Serving (resolveClient t w) b objs w ->
  lookupKey (getObjectKey (OfFile f)) objs = Some o ->
  exists sp,
    run (getUpdateTimestamp f) w
    = (Returned (stampOf o),
       answered (resolveClient t w) (HeadObjectCommand b (getObjectKey (OfFile f)))
         (connect t w),
       sp).
Proof.
  intros Hsel Hserve Ho.
  apply (Serving_connect _ _ _ t) in Hserve.
  destruct (Serving_endpoint _ _ _ _ Hserve) as (Hf & buckets & He & Hb).
  unfold getUpdateTimestamp. rewrite run_bind. cbn [get run]. rewrite Hsel.
  match goal with
  | |- context [run (bind (getClient t) ?k) w] =>
      destruct (run_bind_getClient t k w) as [sp E]
  end.
  exists ([] ++ sp ++ []). rewrite E. clear E.
  rewrite_request (run_await_send (resolveClient t w)
    (HeadObjectCommand b (getObjectKey (OfFile f)))
    (fun response : HeadObjectOutput =>
       match out_Metadata response with
       | Some meta => Ret (lastmodified meta)
       | None => Ret None
       end)
    (connect t w) buckets Hf He).
  cbn [serve]. rewrite Hb, Ho. cbn [fst snd out_Metadata].
  rewrite (served_same _ _ _ _ He). unfold stampOf.
  by destruct (Metadata o).
Qed.

Lemma answered_frame client req t w :
  let w1 := answered client req (connect t w) in
  selection w1 = selection w /\
  storagePath (conn w1) = storagePath (conn w) /\
  platform w1 = platform w /\
  resolveClient t w1 = resolveClient t w /\
  endpoints (remote w1) = endpoints (remote w) /\
  forall client' b objs, Serving client' b objs w -> Serving client' b objs w1.
Proof.
  cbn zeta. split; [apply selection_connect|]. split; [apply storagePath_connect|].
  split; [apply platform_connect|]. split; [apply resolveClient_connect|].
  split; [cbn; by rewrite remote_connect|].
  intros client' b objs H. by apply Serving_answered, Serving_connect.
Qed.

Lemma answered_trace client req t w :
  exists evs,
    trace (answered client req (connect t w)) = trace w ++ evs /\
    requests evs = [(endpoint client, req)].
Proof.
  destruct (connect_frame t w) as (_ & _ & evs0 & Ht0 & Hinfo).
  exists (evs0 ++ [EvSend (endpoint client) req]). split.
  - cbn. by rewrite Ht0, app_assoc.
  - by rewrite requests_app, (requests_info _ Hinfo).
Qed.

Lemma run_fileExists f w t b :
  selection w = Some (t, b) ->
  run (fileExists f) w
  = (Returned (bool_decide (is_Some (fs (platform w)
                 !! joinPath (storagePath (conn w)) t b (getObjectKey (OfFile f))))),
     w, []).
Proof.
  intros Hsel. unfold fileExists. rewrite run_bind, (run_toFileUri f w t b Hsel).
  unfold try_await. cbn [bind run handle].
  by destruct (fs (platform w) !! _).
Qed.

Lemma run_getAndSyncLocalFilePath_served f w t b objs o :
  selection w = Some (t, b) ->
  Serving (resolveClient t w) b objs w ->
  lookupKey (getObjectKey (OfFile f)) objs = Some o ->
  let uri := joinPath (storagePath (conn w)) t b (getObjectKey (OfFile f)) in
  exists w' sp,
    run (getAndSyncLocalFilePath f) w = (Returned uri, w', sp) /\
    fs (platform w')
    = (if outdated (fs (platform w) !! uri) o
       then <[uri := mkLocalFile (clock (platform w)) (Body o)]> (fs (platform w))
       else fs (platform w)) /\
    endpoints (remote w') = endpoints (remote w) /\
    requests (eventsSince w w')
    = (if bool_decide (is_Some (fs (platform w) !! uri))
       then [(endpoint (resolveClient t w),
              HeadObjectCommand b (getObjectKey (OfFile f)))]
       else [])
      ++ (if outdated (fs (platform w) !! uri) o
          then [(endpoint (resolveClient t w),
                 GetObjectCommand b (getObjectKey (OfFile f)))]
          else []).
Proof.
  intros Hsel Hserve Ho uri.
  destruct (answered_frame (resolveClient t w)
              (HeadObjectCommand b (getObjectKey (OfFile f))) t w)
    as (Hsel1 & Hpath1 & Hp1 & Hc1 & He1 & Hs1).
  destruct (run_getUpdateTimestamp_served f w t b objs o Hsel Hserve Ho) as [sp1 Ehead].
  destruct (run_getFileFromS3_served f w t b objs o Hsel Hserve Ho) as [sp0 Eget0].
  destruct (answered_frame (resolveClient t w)
              (GetObjectCommand b (getObjectKey (OfFile f))) t w)
    as (_ & _ & Hp0 & _ & He0 & _).
  set (w1 := answered (resolveClient t w) (HeadObjectCommand b (getObjectKey (OfFile f)))
               (connect t w)) in *.
  rewrite Hsel in Hsel1.
  assert (Hserve1 : Serving (resolveClient t w1) b objs w1)
    by (rewrite Hc1; by apply Hs1).
  destruct (run_getFileFromS3_served f w1 t b objs o Hsel1 Hserve1 Ho) as [sp2 Eget1].
  destruct (answered_frame (resolveClient t w1)
              (GetObjectCommand b (getObjectKey (OfFile f))) t w1)
    as (_ & _ & Hp2 & _ & He2 & _).
  destruct (answered_trace (resolveClient t w)
              (HeadObjectCommand b (getObjectKey (OfFile f))) t w) as (evs1 & Ht1 & Hr1).
  destruct (answered_trace (resolveClient t w)
              (GetObjectCommand b (getObjectKey (OfFile f))) t w) as (evs0 & Ht0 & Hr0).
  destruct (answered_trace (resolveClient t w1)
              (GetObjectCommand b (getObjectKey (OfFile f))) t w1) as (evs2 & Ht2 & Hr2).
  fold w1 in Ht1. rewrite Hc1 in Hr2.
  destruct (run (getAndSyncLocalFilePath f) w) as [[c w'] sp] eqn:E.
  exists w', sp. revert E.
  unfold getAndSyncLocalFilePath. rewrite run_bind. cbn [get run]. rewrite Hsel.
  rewrite run_bind, (run_fileExists f w t b Hsel).
  rewrite run_bind, (run_toFileUri f w t b Hsel). fold uri.
  destruct (fs (platform w) !! uri) as [lf|] eqn:Hfs.
  - replace (bool_decide (is_Some (Some lf))) with true by reflexivity. cbn [negb].
    rewrite run_bind. unfold await at 1. cbn [run handle]. rewrite Hfs. cbn [run].
    rewrite run_bind, Ehead.
    unfold outdated. destruct (stampOf o) as [ts|]; [destruct (mtime lf <? ts) eqn:Hlt|].
    + rewrite run_bind, run_bind, Eget1. unfold await. cbn [run handle].
      intros [= <- <- <-]. split; [reflexivity|].
      split.
      { change (fs (platform (set_fs ?v _))) with v.
        by rewrite platform_connect, Hp1. }
      split.
      { change (endpoints (remote (set_fs _ ?x))) with (endpoints (remote x)).
        by rewrite He2, He1. }
      rewrite (eventsSince_app w _ (evs1 ++ evs2)).
      { by rewrite requests_app, Hr1, Hr2. }
      change (trace (set_fs _ ?x)) with (trace x). by rewrite Ht2, Ht1, app_assoc.
    + cbn [run]. intros [= <- <- <-]. split; [reflexivity|].
      split; [by rewrite Hp1|]. split; [exact He1|].
      by rewrite (eventsSince_app w _ evs1 Ht1), app_nil_r.
    + cbn [run]. intros [= <- <- <-]. split; [reflexivity|].
      split; [by rewrite Hp1|]. split; [exact He1|].
      by rewrite (eventsSince_app w _ evs1 Ht1), app_nil_r.
  - replace (bool_decide (is_Some (@None LocalFile))) with false by reflexivity. cbn [negb].
    rewrite run_bind, Eget0. rewrite run_bind. unfold await. cbn [run handle outdated].
    intros [= <- <- <-]. split; [reflexivity|].
    split.
    { change (fs (platform (set_fs ?v _))) with v. by rewrite platform_connect. }
    split.
    { change (endpoints (remote (set_fs _ ?x))) with (endpoints (remote x)). exact He0. }
    rewrite (eventsSince_app w _ evs0); [exact Hr0|].
    change (trace (set_fs _ ?x)) with (trace x). exact Ht0.
Qed.

(** X13: with a target and a bucket selected and a store that answers and
    holds the file's object, [getAndSyncLocalFilePath] returns the local
    path under the selection.  When there was no local copy, or the
    object's stamp is later than the modification time of the copy, the
    copy then holds the object's content and is stamped with the local
    clock; otherwise the local copy is as it was.  The other local files
    and the store are as before. *)
Theorem getAndSyncLocalFilePath_pulls f w t b objs o :
  selection w = Some (t, b) ->
  Serving (resolveClient t w) b objs w ->
  lookupKey (getObjectKey (OfFile f)) objs = Some o ->
  let uri := joinPath (storagePath (conn w)) t b (getObjectKey (OfFile f)) in
  let w' := worldOf (run (getAndSyncLocalFilePath f) w) in
  completionOf (run (getAndSyncLocalFilePath f) w) = Returned uri /\
  fs (platform w')
  = (if outdated (fs (platform w) !! uri) o
     then <[uri := mkLocalFile (clock (platform w)) (Body o)]> (fs (platform w))
     else fs (platform w)) /\
  endpoints (remote w') = endpoints (remote w) /\
  requests (eventsSince w w')
  = (if bool_decide (is_Some (fs (platform w) !! uri))
     then [(endpoint (resolveClient t w), HeadObjectCommand b (getObjectKey (OfFile f)))]
     else [])
    ++ (if outdated (fs (platform w) !! uri) o
        then [(endpoint (resolveClient t w), GetObjectCommand b (getObjectKey (OfFile f)))]
        else []).
Proof.
  intros Hsel Hserve Ho uri w'. subst w'.
  destruct (run_getAndSyncLocalFilePath_served f w t b objs o Hsel Hserve Ho)
    as (w' & sp & -> & Hfs & He & Hreq).
  by repeat split.
Qed.

Lemma getAndSyncLocalFilePath_pulls_witness :
  completionOf (run (getAndSyncLocalFilePath Scenario.fileA) Scenario.behindClock)
  = Returned "/store/t1/b1/docs/a.excalidraw.json".
Proof.
  refine (proj1 (getAndSyncLocalFilePath_pulls Scenario.fileA Scenario.behindClock
            "t1" "b1" [("docs/a.excalidraw.json", Sample.object (Some 500))]
            (Sample.object (Some 500)) _ _ _));
    [reflexivity | split; reflexivity | reflexivity].
Defined.



Lemma run_deleteFile f w t b :
  selection w = Some (t, b) ->
  let client := resolveClient t w in
  let key := getObjectKey (OfFile f) in
  let uri := joinPath (storagePath (conn w)) t b key in
  exists sp,
    run (deleteFile f) w
    = match send client (DeleteObjectCommand b key) (connect t w) with
      | (Fulfilled _, w1) =>
          match fs (platform w) !! uri with
          | Some _ => (Returned tt, set_fs (delete uri (fs (platform w))) w1, sp)
          | None =>
              (Returned tt,
               emit (EvShowErrorMessage ("Failed to delete local file: " +:+ uri)) w1, sp)
          end
      | (Rejected e, w1) => (Threw e, w1, sp)
      end.
Proof.
  intros Hsel client key uri.
  unfold deleteFile. rewrite run_bind. cbn [get run]. rewrite Hsel.
  match goal with
  | |- context [run (bind (getClient t) ?k) w] =>
      destruct (run_bind_getClient t k w) as [sp E]
  end.
  cbn [S3Output] in E |- *.
  exists sp. rewrite E. clear E. fold client key.
  rewrite run_bind. unfold await at 1. cbn [run handle].
  destruct (send_frame client (DeleteObjectCommand b key) (connect t w))
    as (Hc & Hp & _).
  destruct (send client (DeleteObjectCommand b key) (connect t w)) as [[v|e] w1];
    cbn [fst snd run] in *; [|cbn [app]; by rewrite ?app_nil_r].
  assert (Hsel1 : selection w1 = Some (t, b)).
  { unfold selection. rewrite Hc. rewrite <- Hsel. apply (selection_connect t w). }
  rewrite run_bind, (run_toFileUri f w1 t b Hsel1).
  rewrite Hc, storagePath_connect. fold key uri.
  unfold try_await. cbn [bind run handle]. rewrite Hp, platform_connect.
  destruct (fs (platform w) !! uri) as [lf|]; cbn [run].
  - cbn [app]. by rewrite ?app_nil_r.
  - unfold showErrorMessage, modify. cbn [run app]. by rewrite ?app_nil_r.
Qed.

(** X15: with a target and a bucket selected and a store that answers,
    [deleteFile] returns; the selected bucket then holds nothing under the
    file's key and the objects under the other keys are as before; the
    local copy under the selection is gone and the other local files are
    as before.  Without a local copy the call returns all the same,
    after an error message. *)
Theorem deleteFile_removes f w t b objs :
  selection w = Some (t, b) ->
  Serving (resolveClient t w) b objs w ->
  let key := getObjectKey (OfFile f) in
  let uri := joinPath (storagePath (conn w)) t b key in
  let w' := worldOf (run (deleteFile f) w) in
  completionOf (run (deleteFile f) w) = Returned tt /\
  fs (platform w') = delete uri (fs (platform w)) /\
  (exists objs',
     Serving (resolveClient t w) b objs' w' /\
     lookupKey key objs' = None /\
     forall k, k <> key -> lookupKey k objs' = lookupKey k objs) /\
  (fs (platform w) !! uri = None ->
   EvShowErrorMessage ("Failed to delete local file: " +:+ uri)
   ∈ eventsSince w w').
Proof.
  intros Hsel Hserve key uri w'. subst w'.
  destruct (run_deleteFile f w t b Hsel) as [sp ->]. fold key uri.
  apply (Serving_connect _ _ _ t) in Hserve.
  destruct (Serving_endpoint _ _ _ _ Hserve) as (Hf & buckets & He & Hb).
  rewrite (send_served _ _ _ buckets Hf He). cbn [serve]. rewrite Hb. cbn [fst snd].
  set (w1 := served _ _ _ (connect t w)).
  assert (Hs1 : Serving (resolveClient t w) b (removeKey key objs) w1)
    by apply Serving_served, lookup_insert_eq.
  assert (Hp1 : platform w1 = platform w) by apply (platform_connect t w).
  assert (Hobjs : exists objs',
             Serving (resolveClient t w) b objs' w1 /\
             lookupKey key objs' = None /\
             forall k, k <> key -> lookupKey k objs' = lookupKey k objs).
  { exists (removeKey key objs). split; [exact Hs1|].
    split; [apply lookupKey_removeKey | intros k Hk; by apply lookupKey_removeKey_ne]. }
  destruct (fs (platform w) !! uri) as [lf|] eqn:Hfs;
    unfold completionOf, worldOf; cbn [fst snd].
  - split; [reflexivity|]. split; [reflexivity|]. split; [|discriminate].
    destruct Hobjs as (objs' & [A1 A2] & B & C). exists objs'.
    split; [split; [exact A1 | exact A2] | by split].
  - split; [reflexivity|]. split.
    { change (fs (platform w1) = delete uri (fs (platform w))).
      rewrite Hp1. symmetry. by apply delete_id. }
    split.
    { destruct Hobjs as (objs' & [A1 A2] & B & C). exists objs'.
      split; [split; [exact A1 | exact A2] | by split]. }
    intros _. destruct (connect_frame t w) as (_ & _ & evs0 & Ht0 & _).
    rewrite (eventsSince_app w _
               (evs0 ++ [EvSend (endpoint (resolveClient t w)) (DeleteObjectCommand b key)]
                ++ [EvShowErrorMessage ("Failed to delete local file: " +:+ uri)])).
    + rewrite !elem_of_app. right. right. apply list_elem_of_here.
    + cbn. rewrite Ht0. by rewrite <- !app_assoc.
Qed.

Lemma deleteFile_removes_witness :
  completionOf (run (deleteFile Scenario.fileA) Scenario.behindClock) = Returned tt.
Proof.
  refine (proj1 (deleteFile_removes Scenario.fileA Scenario.behindClock "t1" "b1"
            [("docs/a.excalidraw.json", Sample.object (Some 500))] _ _));
    [reflexivity | split; reflexivity].
Defined.



(** ** Buckets *)

Lemma bucket_names (buckets : gmap string Bucket) :
  (fun Name : option string => default "" Name)
    <$> ((fun kv : string * Bucket => Some (fst kv)) <$> map_to_list buckets)
  = fst <$> map_to_list buckets.
Proof. rewrite <- list_fmap_compose. by apply list_fmap_ext. Qed.

Lemma elem_of_bucket_names (buckets : gmap string Bucket) b :
  b ∈ fst <$> map_to_list buckets <-> is_Some (buckets !! b).
Proof.
  rewrite list_elem_of_fmap. split.
  - intros ([k v] & -> & H). apply elem_of_map_to_list in H. by exists v.
  - intros [v H]. exists (b, v). split; [reflexivity | by apply elem_of_map_to_list].
Qed.

Lemma run_getBuckets t w buckets :
  currentTarget (conn w) = Some t ->
  netFaults (remote w) = [] ->
  endpoints (remote w) !! endpoint (resolveClient t w) = Some buckets ->
  exists sp,
    run getBuckets w
    = (Returned (fst <$> map_to_list buckets),
       answered (resolveClient t w) ListBucketsCommand (connect t w), sp).
Proof.
  intros Ht Hf He. unfold getBuckets. rewrite run_bind. cbn [get run]. rewrite Ht.
  match goal with
  | |- context [run (bind (getClient t) ?k) w] =>
      destruct (run_bind_getClient t k w) as [sp E]
  end.
  exists sp. rewrite E. clear E.
  assert (Hf' : netFaults (remote (connect t w)) = []) by (by rewrite remote_connect).
  assert (He' : endpoints (remote (connect t w)) !! endpoint (resolveClient t w)
                = Some buckets) by (by rewrite remote_connect).
  rewrite_request (run_await_send (resolveClient t w) ListBucketsCommand
    (fun response : ListBucketsOutput =>
       Ret (match Buckets response with
            | Some buckets => (fun Name => default "" Name) <$> buckets
            | None => []
            end))
    (connect t w) buckets Hf' He').
  cbn [serve fst snd run Buckets app]. rewrite bucket_names, (served_same _ _ _ _ He').
  by rewrite ?app_nil_r.
Qed.

(** X17: with a current target and a store that answers, [getBuckets]
    returns the names of the buckets the endpoint of the target holds,
    each of them once, and leaves the store as it is; without a current
    target it returns the empty list and sends nothing. *)
Theorem getBuckets_lists_endpoint :
  (forall t w buckets,
     currentTarget (conn w) = Some t ->
     netFaults (remote w) = [] ->
     endpoints (remote w) !! endpoint (resolveClient t w) = Some buckets ->
     exists names,
       completionOf (run getBuckets w) = Returned names /\
       NoDup names /\
       (forall b, b ∈ names <-> is_Some (buckets !! b)) /\
       endpoints (remote (worldOf (run getBuckets w))) = endpoints (remote w)) /\
  (forall w,
     currentTarget (conn w) = None ->
     run getBuckets w = (Returned [], w, [])).
Proof.
  split.
  - intros t w buckets Ht Hf He.
    destruct (run_getBuckets t w buckets Ht Hf He) as [sp ->].
    exists (fst <$> map_to_list buckets). unfold completionOf, worldOf. cbn [fst snd].
    split; [reflexivity|]. split; [apply NoDup_fst_map_to_list|].
    split; [apply elem_of_bucket_names|].
    cbn. by rewrite remote_connect.
  - intros w Ht. unfold getBuckets. cbn [get bind run]. by rewrite Ht.
Qed.

Lemma getBuckets_lists_endpoint_witness :
  exists names,
    completionOf (run getBuckets (Sample.configured [])) = Returned names /\
    "b1" ∈ names.
Proof.
  destruct (proj1 getBuckets_lists_endpoint "t1" (Sample.configured [])
              {[ "b1" := [] ]} eq_refl eq_refl eq_refl) as (names & E & _ & H & _).
  exists names. split; [exact E|]. apply H. by rewrite lookup_singleton_eq.
Defined.

(** X18: with a current target and a store that answers, [createBucket]
    returns when the endpoint holds no bucket of that name; the endpoint
    then holds the bucket, empty, and [getBuckets] lists it along with
    every bucket that was there before. *)
Theorem createBucket_then_listed t w buckets b :
  currentTarget (conn w) = Some t ->
  netFaults (remote w) = [] ->
  endpoints (remote w) !! endpoint (resolveClient t w) = Some buckets ->
  buckets !! b = None ->
  let w' := worldOf (run (createBucket b) w) in
  completionOf (run (createBucket b) w) = Returned tt /\
  bucketOf (resolveClient t w) b w' = Some [] /\
  exists names,
    completionOf (run getBuckets w') = Returned names /\
    b ∈ names /\
    forall b', is_Some (buckets !! b') -> b' ∈ names.
Proof.
  intros Ht Hf He Hb w'. subst w'.
  unfold createBucket. rewrite run_bind. cbn [get run]. rewrite Ht.
  match goal with
  | |- context [run (bind (getClient t) ?k) w] =>
      destruct (run_bind_getClient t k w) as [sp E]
  end.
  cbn [S3Output] in E |- *. rewrite E. clear E.
  assert (Hf' : netFaults (remote (connect t w)) = []) by (by rewrite remote_connect).
  assert (He' : endpoints (remote (connect t w)) !! endpoint (resolveClient t w)
                = Some buckets) by (by rewrite remote_connect).
  rewrite_request (run_send (resolveClient t w) (CreateBucketCommand b)
                     (connect t w) buckets Hf' He').
  cbn [serve]. rewrite Hb. cbn [fst snd].
  unfold completionOf, worldOf. cbn [fst snd].
  set (w1 := served _ _ _ (connect t w)).
  split; [reflexivity|]. split.
  { destruct (Serving_served (resolveClient t w) (CreateBucketCommand b) b []
                (<[b := []]> buckets) (connect t w)) as [_ H];
      [apply lookup_insert_eq | exact H]. }
  assert (Ht1 : currentTarget (conn w1) = Some t).
  { rewrite <- Ht. unfold w1, connect, touchSettings.
    by destruct (clients (conn w) !! t). }
  assert (Hc1 : resolveClient t w1 = resolveClient t w) by apply resolveClient_connect.
  assert (He1 : endpoints (remote w1) !! endpoint (resolveClient t w1)
                = Some (<[b := []]> buckets)).
  { rewrite Hc1. cbn. apply lookup_insert_eq. }
  destruct (run_getBuckets t w1 (<[b := []]> buckets) Ht1 eq_refl He1) as [sp1 ->].
  exists (fst <$> map_to_list (<[b := []]> buckets)). cbn [fst].
  split; [reflexivity|]. split.
  - apply elem_of_bucket_names. by rewrite lookup_insert_eq.
  - intros b' H. apply elem_of_bucket_names.
    destruct (decide (b' = b)) as [->|Hne]; [by rewrite lookup_insert_eq|].
    by rewrite lookup_insert_ne.
Qed.

Lemma createBucket_then_listed_witness :
  bucketOf (resolveClient "t1" (Sample.configured [])) "b2"
    (worldOf (run (createBucket "b2") (Sample.configured []))) = Some [].
Proof.
  refine (proj1 (proj2 (createBucket_then_listed "t1" (Sample.configured [])
            {[ "b1" := [] ]} "b2" _ _ _ _))); reflexivity.
Defined.

(** ** Nothing selected *)

(** X19: with no target or no bucket selected, a method that needs the
    selection does nothing to the connector, the platform or the store
    and starts nothing.  [getFilesInBucket] and [addDirectory] return as
    if all was well; [updateFile] and [deleteFile] return after an error
    message; [getAndSyncLocalFilePath] shows a message and throws;
    [toFileUri] throws without a message. *)
Theorem unselected_methods_do_nothing m w :
  needsSelection m = true ->
  selection w = None ->
  let r := run (invoke m) w in
  snd r = [] /\
  exists evs,
    worldOf r = mkWorld (conn w) (platform w) (remote w) (watch w) (trace w ++ evs) /\
    match refusal m with
    | Silent => isReturned (completionOf r) = true /\ evs = []
    | Message =>
        isReturned (completionOf r) = true /\ exists msg, evs = [EvShowErrorMessage msg]
    | MessageAndThrow =>
        completionOf r = Threw "No S3 target or bucket selected" /\
        evs = [EvShowErrorMessage "No S3 target or bucket selected"]
    | ThrowOnly =>
        completionOf r = Threw "No S3 target or bucket selected" /\ evs = []
    end.
Proof.
  intros Hm Hsel r. subst r.
  assert (Hw : w = mkWorld (conn w) (platform w) (remote w) (watch w) (trace w ++ []))
    by (rewrite app_nil_r; by destruct w).
  destruct m; try discriminate Hm; cbn [invoke refusal]; unfold discard.
  - unfold getFilesInBucket. cbn [get bind run]. rewrite Hsel. cbn.
    split; [reflexivity|]. exists []. by split.
  - unfold getAndSyncLocalFilePath, showErrorMessage. cbn [get bind run modify].
    rewrite Hsel. cbn. split; [reflexivity|]. eexists. by split.
  - unfold addDirectory. cbn [get bind run]. rewrite Hsel. cbn.
    split; [reflexivity|]. exists []. by split.
  - unfold updateFile, showErrorMessage. cbn [get bind run modify]. rewrite Hsel. cbn.
    split; [reflexivity|]. eexists. split; [reflexivity|]. split; [reflexivity|]. eauto.
  - unfold deleteFile, showErrorMessage. cbn [get bind run modify]. rewrite Hsel. cbn.
    split; [reflexivity|]. eexists. split; [reflexivity|]. split; [reflexivity|]. eauto.
  - unfold toFileUri. cbn [get bind run]. rewrite Hsel. cbn.
    split; [reflexivity|]. exists []. by split.
Qed.

Lemma unselected_methods_do_nothing_witness :
  completionOf (run (invoke (M_toFileUri Scenario.fileA)) Sample.unconfigured)
  = Threw "No S3 target or bucket selected".
Proof.
  destruct (unselected_methods_do_nothing (M_toFileUri Scenario.fileA) Sample.unconfigured
              eq_refl eq_refl) as (_ & evs & _ & H & _).
  exact H.
Defined.

(** ** More on the sync cycle *)

Lemma sameEntry_refl e : sameEntry e e.
Proof. by repeat split. Qed.

Lemma SameItems_refl w : SameItems w w.
Proof. apply Forall_Forall2_diag, Forall_forall. intros e _. apply sameEntry_refl. Qed.

Lemma SameItems_trans w1 w2 w3 : SameItems w1 w2 -> SameItems w2 w3 -> SameItems w1 w3.
Proof.
  unfold SameItems. intros H1 H2. eapply Forall2_trans; [| exact H1 | exact H2].
  intros x y z (A1 & A2 & A3) (B1 & B2 & B3). repeat split; congruence.
Qed.

Lemma SameItems_same w w' : watch w' = watch w -> SameItems w w'.
Proof. unfold SameItems. intros ->. apply (SameItems_refl w). Qed.

Lemma handle_SameItems X (c : Call X) w : anyCall X c = true -> SameItems w (snd (handle c w)).
Proof. intros _. apply SameItems_same, handle_watch. Qed.

Lemma SameItems_set_isSyncing u v w : SameItems w (set_isSyncing u v w).
Proof.
  unfold SameItems, set_isSyncing. cbn.
  apply Forall2_fmap_r, Forall_Forall2_diag, Forall_forall. intros [k it] _.
  cbn. by destruct (String.eqb k u).
Qed.

Lemma SameItems_updateTimes v w : SameItems w (set_updateTimes v w).
Proof. apply (SameItems_refl w). Qed.

Local Ltac same_items :=
  intros; first [ reflexivity | apply SameItems_same; reflexivity ].

Lemma keeps_syncEntry_items u it : Keeps SameItems anyCall (syncEntry u it).
Proof.
  unfold syncEntry, refresh.
  destruct (item_isDirectory it); [destruct (item_file it); constructor|].
  destruct (item_file it) as [f|]; [|constructor].
  apply keeps_bind; [apply keeps_get; apply SameItems_refl | intros [lastUpdate|]].
  - apply keeps_bind; [by apply keeps_await | intros stat].
    destruct (lastUpdate <? stat); [|constructor].
    apply keeps_bind; [apply keeps_modify, SameItems_set_isSyncing | intros _].
    apply keeps_bind; [apply keeps_modify; same_items | intros _].
    apply keeps_bind; [by apply keeps_await | intros data].
    apply keeps_bind; [apply keeps_modify; same_items | intros _].
    apply keeps_bind; [apply fp_updateFile; same_items | intros _].
    apply keeps_bind; [apply keeps_modify; same_items | intros _].
    apply keeps_bind; [apply keeps_modify, SameItems_set_isSyncing | intros _].
    apply keeps_bind; [apply keeps_modify; same_items | intros _].
    apply keeps_modify. intros w. apply SameItems_updateTimes.
  - apply keeps_bind; [by apply keeps_await | intros stat]. constructor.
Qed.

Lemma keeps_syncEntries_items entries : Keeps SameItems anyCall (syncEntries entries).
Proof.
  induction entries as [|[u it] rest IH]; cbn [syncEntries]; [constructor|].
  apply keeps_bind; [apply keeps_syncEntry_items | intros _; exact IH].
Qed.

Lemma syncEntries_items entries w :
  SameItems w (worldOf (run (syncEntries entries) w)).
Proof.
  apply (keeps_run SameItems anyCall SameItems_refl SameItems_trans handle_SameItems).
  apply keeps_syncEntries_items.
Qed.

(** An entry that is not to be pushed is examined and left alone. *)
Lemma syncEntry_idle u it w :
  shouldPush w u it = false ->
  worldOf (run (syncEntry u it) w) = w /\ snd (run (syncEntry u it) w) = [].
Proof.
  unfold shouldPush, syncEntry.
  destruct (item_isDirectory it); [by destruct (item_file it)|].
  destruct (item_file it) as [f|]; [|done].
  cbn [get bind run]. unfold await. cbn [bind run handle].
  destruct (updateTimes (watch w) !! u) as [lastUpdate|];
    destruct (fs (platform w) !! u) as [lf|]; cbn [bind run]; try done.
  intros ->. done.
Qed.

Lemma syncEntries_idle entries w :
  (forall u it, (u, it) ∈ entries -> shouldPush w u it = false) ->
  worldOf (run (syncEntries entries) w) = w /\ snd (run (syncEntries entries) w) = [].
Proof.
  induction entries as [|[u it] rest IH]; intros Hall; cbn [syncEntries]; [done|].
  rewrite run_bind.
  destruct (syncEntry_idle u it w) as [Hw Hsp]; [apply Hall, list_elem_of_here|].
  destruct (run (syncEntry u it) w) as [[c w1] sp1]. unfold worldOf in Hw. cbn in Hw, Hsp.
  subst w1 sp1. destruct c as [[]| |]; [|done|done].
  destruct IH as [Hw Hsp]; [intros u' it' H; by apply Hall, list_elem_of_further|].
  destruct (run (syncEntries rest) w) as [[c2 w2] sp2]. unfold worldOf in Hw.
  cbn in Hw, Hsp. by subst.
Qed.

(** X20: a firing of the sync callback that returns leaves nothing to
    push: a second firing right after it, with no local change in
    between, leaves the world exactly as it is, sending no request and
    starting nothing. *)
Theorem syncInterval_settles w :
  NoDup (fst <$> fileWatchers (watch w)) ->
  isReturned (completionOf (run syncInterval w)) = true ->
  let w' := worldOf (run syncInterval w) in
  worldOf (run syncInterval w') = w' /\ snd (run syncInterval w') = [].
Proof.
  intros Hnd Hret w'. subst w'. rewrite (run_syncInterval w) in *.
  set (entries := fileWatchers (watch w)) in *.
  set (w' := worldOf (run (syncEntries entries) w)).
  rewrite (run_syncInterval w').
  apply syncEntries_idle. intros u it' Hin.
  pose proof (syncEntries_items entries w) as Hitems. fold w' in Hitems.
  destruct (syncEntries_spec entries w Hnd) as (Hframe & evs & _ & _ & _ & Hin_spec).
  fold w' in Hframe, Hin_spec.
  apply list_elem_of_lookup in Hin as [i Hi].
  destruct (Forall2_lookup_r _ _ _ _ _ Hitems Hi) as ([u0 it] & Hi0 & Hu & Hd & Hf).
  cbn in Hu, Hd, Hf. subst u0.
  assert (Hin0 : (u, it) ∈ entries) by (eapply list_elem_of_lookup_2; exact Hi0).
  destruct (Hin_spec u it Hin0) as [Hno Hyes].
  destruct Hframe as (_ & _ & Hfs & _).
  unfold shouldPush. rewrite Hd, Hf, Hfs.
  destruct (shouldPush w u it) eqn:Hsp.
  - destruct (Hyes eq_refl Hret) as [_ Hut]. rewrite Hut.
    unfold shouldPush in Hsp. unfold mtimeOf.
    destruct (item_isDirectory it); [done|]. destruct (item_file it); [|done].
    destruct (updateTimes (watch w) !! u); [|done].
    destruct (fs (platform w) !! u) as [lf|]; [|done]. cbn. apply Z.ltb_irrefl.
  - destruct (Hno eq_refl) as [_ Hut]. rewrite Hut. exact Hsp.
Qed.

Lemma syncInterval_settles_witness :
  worldOf (run syncInterval (worldOf (run syncInterval Scenario.twoModified)))
  = worldOf (run syncInterval Scenario.twoModified).
Proof.
  refine (proj1 (syncInterval_settles Scenario.twoModified _ _));
    [refine (bool_decide_unpack _ _); vm_compute; exact I | reflexivity].
Defined.




(** ** Tabs and the watch set *)

Lemma filter_filter {A} (f g : A -> bool) (l : list A) :
  List.filter f (List.filter g l) = List.filter (fun x => g x && f x) l.
Proof.
  induction l as [|x l IH]; [reflexivity|]. cbn.
  destruct (g x); cbn; [destruct (f x)|]; by rewrite IH.
Qed.

Lemma isOpen_elem_of E k : isOpen E k = true <-> k ∈ E.
Proof.
  unfold isOpen. rewrite existsb_exists. split.
  - intros (x & Hx & He). apply String.eqb_eq in He. subst. by apply list_elem_of_In.
  - intros H. exists k. split; [by apply list_elem_of_In | apply String.eqb_refl].
Qed.

Lemma isOpen_cons u E k : isOpen (u :: E) k = String.eqb u k || isOpen E k.
Proof. reflexivity. Qed.

Lemma isOpen_app E1 E2 k : isOpen (E1 ++ E2) k = isOpen E1 k || isOpen E2 k.
Proof. unfold isOpen. apply existsb_app. Qed.

Lemma watchers_has_false u (ws : list (string * S3FileItem)) :
  watchers_has u ws = false -> watchers_delete u ws = ws.
Proof.
  unfold watchers_has, watchers_delete. intros H. apply filter_all.
  apply Forall_forall. intros e He.
  destruct (String.eqb (fst e) u) eqn:E; [|reflexivity].
  assert (existsb (fun e => String.eqb (fst e) u) ws = true); [|congruence].
  apply existsb_exists. exists e. split; [by apply list_elem_of_In | exact E].
Qed.

Lemma watchers_has_elem_of u (ws : list (string * S3FileItem)) :
  watchers_has u ws = true <-> u ∈ fst <$> ws.
Proof.
  unfold watchers_has. rewrite existsb_exists, list_elem_of_fmap. split.
  - intros (e & He & E). apply String.eqb_eq in E. exists e.
    split; [by symmetry | by apply list_elem_of_In].
  - intros (e & -> & He). exists e. split; [by apply list_elem_of_In | apply String.eqb_refl].
Qed.

Lemma omap_tabUri_cons tab rest :
  omap tabUri (tab :: rest)
  = match tabUri tab with
    | Some u => u :: omap tabUri rest
    | None => omap tabUri rest
    end.
Proof. reflexivity. Qed.

(** The watch set [closeTabs] leaves: the entries that no tab shows. *)
Lemma closeTabs_watchers tabs ws :
  snd (closeTabs tabs ws)
  = List.filter (fun e => negb (isOpen (omap tabUri tabs) (fst e))) ws.
Proof.
  revert ws. induction tabs as [|tab rest IH]; intros ws.
  - cbn. symmetry. apply filter_all, Forall_forall. done.
  - rewrite omap_tabUri_cons. destruct tab as [[[[u|]]|]];
      cbn [closeTabs tabUri tab_input input_uri mbind option_bind]; try apply IH.
    assert (Hflt : List.filter (fun e => negb (isOpen (u :: omap tabUri rest) (fst e))) ws
                   = List.filter (fun e => negb (isOpen (omap tabUri rest) (fst e)))
                       (watchers_delete u ws)).
    { unfold watchers_delete. rewrite filter_filter. apply List.filter_ext. intros e.
      rewrite isOpen_cons, negb_orb. by rewrite (String.eqb_sym u). }
    rewrite Hflt.
    destruct (watchers_has u ws) eqn:Hhas.
    + specialize (IH (watchers_delete u ws)).
      destruct (closeTabs rest (watchers_delete u ws)) as [closed ws']. exact IH.
    + rewrite (watchers_has_false u ws Hhas). apply IH.
Qed.

Lemma closeGroups_watchers tabGroups ws :
  snd (closeGroups tabGroups ws)
  = List.filter (fun e => negb (isOpen (tabUris tabGroups) (fst e))) ws.
Proof.
  revert ws. induction tabGroups as [|tabs rest IH]; intros ws; cbn [closeGroups].
  - cbn. symmetry. apply filter_all, Forall_forall. done.
  - pose proof (closeTabs_watchers tabs ws) as H1.
    destruct (closeTabs tabs ws) as [closed1 ws1]. cbn [snd] in H1.
    specialize (IH ws1). destruct (closeGroups rest ws1) as [closed2 ws2].
    cbn [snd] in *. rewrite IH, H1, filter_filter. apply List.filter_ext. intros e.
    unfold tabUris. cbn [concat]. by rewrite omap_app, isOpen_app, negb_orb.
Qed.

Lemma watchers_has_delete u u' (ws : list (string * S3FileItem)) :
  watchers_has u' (watchers_delete u ws) = true <->
  u' <> u /\ watchers_has u' ws = true.
Proof.
  rewrite !watchers_has_elem_of. unfold watchers_delete.
  rewrite !list_elem_of_fmap. split.
  - intros (e & -> & He). apply list_elem_of_In, List.filter_In in He as [He Hne].
    split; [|exists e; split; [reflexivity | by apply list_elem_of_In]].
    intros E. rewrite E, String.eqb_refl in Hne. discriminate.
  - intros (Hne & e & -> & He). exists e. split; [reflexivity|].
    apply list_elem_of_In, List.filter_In. split; [by apply list_elem_of_In|].
    by destruct (String.eqb_spec (fst e) u).
Qed.

(** The tabs [closeTabs] hands to the window. *)
Lemma closeTabs_closed tabs ws :
  sublist (fst (closeTabs tabs ws)) tabs /\
  NoDup (omap tabUri (fst (closeTabs tabs ws))) /\
  length (omap tabUri (fst (closeTabs tabs ws))) = length (fst (closeTabs tabs ws)) /\
  forall u,
    u ∈ omap tabUri (fst (closeTabs tabs ws)) <->
    u ∈ omap tabUri tabs /\ watchers_has u ws = true.
Proof.
  revert ws. induction tabs as [|tab rest IH]; intros ws.
  - cbn. split; [constructor|]. split; [constructor|]. split; [reflexivity|].
    intros u. split; [by intros H%elem_of_nil | by intros [H%elem_of_nil _]].
  - rewrite (omap_tabUri_cons tab rest).
    destruct tab as [[[[u0|]]|]];
      cbn [closeTabs tabUri tab_input input_uri mbind option_bind].
    + destruct (watchers_has u0 ws) eqn:Hhas.
      * destruct (IH (watchers_delete u0 ws)) as (Hsub & Hnd & Hlen & Hiff).
        destruct (closeTabs rest (watchers_delete u0 ws)) as [closed ws']. cbn [fst] in *.
        rewrite (omap_tabUri_cons _ closed).
        cbn [tabUri tab_input input_uri mbind option_bind].
        split; [by constructor|]. split.
        { constructor; [|exact Hnd]. intros Hin. apply Hiff in Hin as [_ Hin].
          apply watchers_has_delete in Hin as [Hne _]. done. }
        split; [cbn; by rewrite Hlen|].
        intros u. rewrite !elem_of_cons, Hiff, watchers_has_delete.
        split.
        -- intros [->|(Hin & Hne & Hw)]; [by split; [left|] | by split; [right|]].
        -- intros [[->|Hin] Hw]; [by left|].
           destruct (decide (u = u0)) as [->|Hne]; [by left | by right].
      * destruct (IH ws) as (Hsub & Hnd & Hlen & Hiff).
        split; [by constructor|]. split; [exact Hnd|]. split; [exact Hlen|].
        intros u. rewrite elem_of_cons, Hiff. split.
        -- intros [Hin Hw]. by split; [right|].
        -- intros [[->|Hin] Hw]; [congruence | by split].
    + destruct (IH ws) as (Hsub & Hnd & Hlen & Hiff).
      split; [by constructor|]. by repeat split; try apply Hiff.
    + destruct (IH ws) as (Hsub & Hnd & Hlen & Hiff).
      split; [by constructor|]. by repeat split; try apply Hiff.
Qed.

Lemma watchers_has_shown E u (ws : list (string * S3FileItem)) :
  watchers_has u (List.filter (fun e => negb (isOpen E (fst e))) ws) = true <->
  (u ∉ E) /\ watchers_has u ws = true.
Proof.
  rewrite !watchers_has_elem_of, !list_elem_of_fmap. split.
  - intros (e & -> & He). apply list_elem_of_In, List.filter_In in He as [He Hno].
    split; [|exists e; split; [reflexivity | by apply list_elem_of_In]].
    intros Hin. apply isOpen_elem_of in Hin. by rewrite Hin in Hno.
  - intros (Hno & e & -> & He). exists e. split; [reflexivity|].
    apply list_elem_of_In, List.filter_In. split; [by apply list_elem_of_In|].
    destruct (isOpen E (fst e)) eqn:Ho; [|reflexivity].
    by apply isOpen_elem_of in Ho.
Qed.

Lemma closeGroups_closed tabGroups ws :
  sublist (fst (closeGroups tabGroups ws)) (concat tabGroups) /\
  NoDup (omap tabUri (fst (closeGroups tabGroups ws))) /\
  length (omap tabUri (fst (closeGroups tabGroups ws)))
  = length (fst (closeGroups tabGroups ws)) /\
  forall u,
    u ∈ omap tabUri (fst (closeGroups tabGroups ws)) <->
    u ∈ tabUris tabGroups /\ watchers_has u ws = true.
Proof.
  revert ws. induction tabGroups as [|tabs rest IH]; intros ws; cbn [closeGroups concat].
  - cbn. split; [constructor|]. split; [constructor|]. split; [reflexivity|].
    intros u. split; [by intros H%elem_of_nil | by intros [H%elem_of_nil _]].
  - destruct (closeTabs_closed tabs ws) as (Hsub1 & Hnd1 & Hlen1 & Hiff1).
    pose proof (closeTabs_watchers tabs ws) as Hws1.
    destruct (closeTabs tabs ws) as [closed1 ws1]. cbn [fst snd] in *.
    destruct (IH ws1) as (Hsub2 & Hnd2 & Hlen2 & Hiff2).
    destruct (closeGroups rest ws1) as [closed2 ws2]. cbn [fst snd] in *.
    assert (Hcu2 : forall u, u ∈ omap tabUri closed2 <->
              u ∈ tabUris rest /\ (u ∉ omap tabUri tabs) /\ watchers_has u ws = true).
    { intros u. rewrite Hiff2, Hws1, watchers_has_shown. tauto. }
    split; [by apply sublist_app|].
    rewrite omap_app. split.
    { apply NoDup_app. split; [exact Hnd1|]. split; [|exact Hnd2].
      intros u H1 H2. apply Hiff1 in H1 as [H1 _]. apply Hcu2 in H2 as (_ & H2 & _). done. }
    split; [by rewrite !length_app, Hlen1, Hlen2|].
    intros u. unfold tabUris. cbn [concat]. rewrite omap_app, !elem_of_app, Hiff1, Hcu2.
    fold (tabUris rest). split.
    + intros [[H1 H2]|(H1 & H2 & H3)]; [by split; [left|] | by split; [right|]].
    + intros [[H1|H1] H2]; [by left|].
      destruct (decide (u ∈ omap tabUri tabs)) as [Hin|Hno]; [by left | by right].
Qed.

(** X23: [closeAllTabs] removes from the watch set the entries whose uri
    is shown in a tab and keeps the others, in their order; it leaves the
    last-synced times as they are, also those of the entries it removed.
    The tabs it asks the window to close are tabs of the window, each
    showing a watched uri, one for every watched uri that is shown: of
    several tabs showing the same uri only one is closed. *)
Theorem closeAllTabs_unwatches_shown tabGroups w :
  exists closed w',
    run (closeAllTabs tabGroups) w = (Returned closed, w', []) /\
    fileWatchers (watch w')
    = List.filter (fun e => negb (isOpen (tabUris tabGroups) (fst e)))
        (fileWatchers (watch w)) /\
    updateTimes (watch w') = updateTimes (watch w) /\
    (conn w', platform w', remote w', trace w')
    = (conn w, platform w, remote w, trace w) /\
    sublist closed (concat tabGroups) /\
    NoDup (omap tabUri closed) /\
    length (omap tabUri closed) = length closed /\
    forall u,
      u ∈ omap tabUri closed <->
      u ∈ tabUris tabGroups /\ u ∈ fst <$> fileWatchers (watch w).
Proof.
  unfold closeAllTabs. cbn [run].
  destruct (closeGroups_closed tabGroups (fileWatchers (watch w)))
    as (Hsub & Hnd & Hlen & Hiff).
  pose proof (closeGroups_watchers tabGroups (fileWatchers (watch w))) as Hws.
  destruct (closeGroups tabGroups (fileWatchers (watch w))) as [closed ws'].
  cbn [fst snd] in *. exists closed, (set_fileWatchers ws' w).
  split; [reflexivity|]. split; [exact Hws|]. split; [reflexivity|].
  split; [reflexivity|]. split; [exact Hsub|]. split; [exact Hnd|].
  split; [exact Hlen|]. intros u. by rewrite Hiff, watchers_has_elem_of.
Qed.

(** *** The pruning callback *)

Lemma collectTabs_spec tabs acc :
  collectTabs tabs acc
  = if forallb (fun tab => bool_decide (is_Some (tab_input tab))) tabs
    then Some (acc ++ omap tabUri tabs)
    else None.
Proof.
  revert acc. induction tabs as [|tab rest IH]; intros acc.
  - cbn. by rewrite app_nil_r.
  - rewrite omap_tabUri_cons. destruct tab as [[[[u|]]|]];
      cbn [collectTabs forallb tabUri tab_input input_uri mbind option_bind];
      try reflexivity.
    + rewrite IH. replace (bool_decide (is_Some (Some (mkTabInput (Some u))))) with true
        by reflexivity.
      cbn [andb]. destruct (forallb _ rest); [|reflexivity]. by rewrite <- app_assoc.
    + rewrite IH. by replace (bool_decide (is_Some (Some (mkTabInput None)))) with true
        by reflexivity.
Qed.

Lemma collectGroups_spec tabGroups acc :
  collectGroups tabGroups acc
  = if allInputs tabGroups then Some (acc ++ tabUris tabGroups) else None.
Proof.
  unfold allInputs, tabUris. revert acc.
  induction tabGroups as [|tabs rest IH]; intros acc; cbn [collectGroups concat].
  - cbn. by rewrite app_nil_r.
  - rewrite collectTabs_spec, forallb_app, omap_app.
    destruct (forallb _ tabs); [|reflexivity]. rewrite IH. cbn [andb].
    destruct (forallb _ (concat rest)); [|reflexivity]. by rewrite <- app_assoc.
Qed.

Lemma pruned_cons E u it rest k :
  pruned E ((u, it) :: rest) k
  = if negb (isOpen E u) then String.eqb u k || pruned E rest k else pruned E rest k.
Proof.
  unfold pruned, watchers_has. cbn [existsb fst].
  destruct (String.eqb_spec u k) as [->|Hne]; cbn [orb].
  - destruct (isOpen E k); cbn [negb andb]; [by rewrite andb_false_r | reflexivity].
  - by destruct (negb (isOpen E u)).
Qed.

Lemma pruneEntries_spec E entries w :
  fileWatchers (watch (pruneEntries E entries w))
  = List.filter (fun e => negb (pruned E entries (fst e))) (fileWatchers (watch w)) /\
  (forall k,
     updateTimes (watch (pruneEntries E entries w)) !! k
     = if pruned E entries k then None else updateTimes (watch w) !! k) /\
  (conn (pruneEntries E entries w), platform (pruneEntries E entries w),
   remote (pruneEntries E entries w), trace (pruneEntries E entries w))
  = (conn w, platform w, remote w, trace w).
Proof.
  revert w. induction entries as [|[u it] rest IH]; intros w; cbn [pruneEntries].
  - split; [symmetry; apply filter_all, Forall_forall; done|]. by split.
  - destruct (negb (isOpen E u)) eqn:Hopen.
    + set (w1 := set_updateTimes _ _).
      destruct (IH w1) as (Hfw & Hut & Hrest). rewrite Hfw, Hrest.
      split; [|split; [|reflexivity]].
      * unfold w1. cbn [watch set_updateTimes set_fileWatchers with_watch fileWatchers].
        unfold watchers_delete. rewrite filter_filter. apply List.filter_ext.
        intros e. rewrite pruned_cons, Hopen, negb_orb.
        by rewrite (String.eqb_sym u).
      * intros k. rewrite Hut, pruned_cons, Hopen.
        destruct (String.eqb_spec u k) as [->|Hne]; cbn [orb].
        -- destruct (pruned E rest k); [reflexivity|]. apply lookup_delete_eq.
        -- destruct (pruned E rest k); [reflexivity|]. by apply lookup_delete_ne.
    + destruct (IH w) as (Hfw & Hut & Hrest). rewrite Hfw, Hrest.
      split; [|split; [|reflexivity]].
      * apply List.filter_ext. intros e. by rewrite pruned_cons, Hopen.
      * intros k. by rewrite Hut, pruned_cons, Hopen.
Qed.

Lemma NoDup_keys_filter (f : string * S3FileItem -> bool) l :
  NoDup (fst <$> l) -> NoDup (fst <$> List.filter f l).
Proof.
  intros H. apply (sublist_NoDup _ (fst <$> l)); [exact H|].
  clear H. induction l as [|x l IH]; cbn; [constructor|].
  destruct (f x); cbn; by constructor.
Qed.

(** X22: one firing of the pruning callback.  When every tab of the
    window has an input, it returns, keeping in the watch set exactly the
    entries whose uri an open editor shows and dropping the last-synced
    times of the entries it removes; nothing else changes.  When some tab
    has no input, reading its uri throws before anything is removed.
    After a firing that returned, the sync callback pushes nothing for a
    uri that no editor shows. *)
Theorem interval_prunes_closed tabGroups w :
  (allInputs tabGroups = true ->
   exists w',
     run (interval tabGroups) w = (Returned tt, w', []) /\
     fileWatchers (watch w')
     = List.filter (fun e => isOpen (tabUris tabGroups) (fst e)) (fileWatchers (watch w)) /\
     (forall k,
        updateTimes (watch w') !! k
        = if pruned (tabUris tabGroups) (fileWatchers (watch w)) k
          then None else updateTimes (watch w) !! k) /\
     (conn w', platform w', remote w', trace w') = (conn w, platform w, remote w, trace w) /\
     (NoDup (fst <$> fileWatchers (watch w)) ->
      forall u, u ∉ tabUris tabGroups ->
        pushCalls u (eventsSince w' (worldOf (run syncInterval w'))) = 0%nat)) /\
  (allInputs tabGroups = false ->
   run (interval tabGroups) w = (Threw "TypeError", w, [])).
Proof.
  unfold interval. rewrite collectGroups_spec. cbn [app].
  split; intros Hall; rewrite Hall; [|reflexivity].
  unfold modify. cbn [run].
  set (E := tabUris tabGroups).
  destruct (pruneEntries_spec E (fileWatchers (watch w)) w) as (Hfw & Hut & Hrest).
  exists (pruneEntries E (fileWatchers (watch w)) w).
  assert (Hfw' : fileWatchers (watch (pruneEntries E (fileWatchers (watch w)) w))
                 = List.filter (fun e => isOpen E (fst e)) (fileWatchers (watch w))).
  { rewrite Hfw. apply List.filter_ext_in. intros e He. unfold pruned.
    replace (watchers_has (fst e) (fileWatchers (watch w))) with true.
    - cbn [andb]. apply negb_involutive.
    - symmetry. apply watchers_has_elem_of, list_elem_of_fmap. exists e.
      split; [reflexivity | by apply list_elem_of_In]. }
  split; [reflexivity|]. split; [exact Hfw'|]. split; [exact Hut|]. split; [exact Hrest|].
  intros Hnd u Hu. set (w' := pruneEntries _ _ _) in *.
  rewrite run_syncInterval.
  assert (Hnd' : NoDup (fst <$> fileWatchers (watch w')))
    by (rewrite Hfw'; by apply NoDup_keys_filter).
  destruct (syncEntries_spec (fileWatchers (watch w')) w' Hnd')
    as (_ & evs & Htr & _ & Hout & _).
  rewrite (eventsSince_app _ _ _ Htr). apply Hout.
  rewrite Hfw'. intros Hin. apply list_elem_of_fmap in Hin as (e & -> & He).
  apply list_elem_of_In, List.filter_In in He as [_ Ho].
  by apply isOpen_elem_of in Ho.
Qed.

Lemma interval_prunes_closed_witness :
  (exists w',
     run (interval [[mkTab (Some (mkTabInput (Some (Sample.uriOf Scenario.fileA))))]])
       Scenario.twoModified
     = (Returned tt, w', []) /\
     fst <$> fileWatchers (watch w') = [Sample.uriOf Scenario.fileA]) /\
  run (interval [[mkTab None]]) Scenario.twoModified
  = (Threw "TypeError", Scenario.twoModified, []).
Proof.
  split.
  - destruct (proj1 (interval_prunes_closed
                [[mkTab (Some (mkTabInput (Some (Sample.uriOf Scenario.fileA))))]]
                Scenario.twoModified) eq_refl) as (w' & E & Hfw & _).
    exists w'. split; [exact E|]. rewrite Hfw. reflexivity.
  - exact (proj2 (interval_prunes_closed [[mkTab None]] Scenario.twoModified) eq_refl).
Defined.

(** *** Switching the target or the bucket *)

Lemma truthy_selected selected :
  selected <> "" -> Js.truthy selected && (0 <? String.length selected)%nat = true.
Proof. intros H. rewrite truthy_length. by apply truthy_nonempty. Qed.

Lemma unwatched_not_pushed w u :
  NoDup (fst <$> fileWatchers (watch w)) ->
  u ∉ fst <$> fileWatchers (watch w) ->
  pushCalls u (eventsSince w (worldOf (run syncInterval w))) = 0%nat.
Proof.
  intros Hnd Hu. rewrite run_syncInterval.
  destruct (syncEntries_spec (fileWatchers (watch w)) w Hnd)
    as (_ & evs & Htr & _ & Hout & _).
  rewrite (eventsSince_app _ _ _ Htr). by apply Hout.
Qed.

Lemma shown_unwatched E (ws : list (string * S3FileItem)) u :
  u ∈ E -> u ∉ fst <$> List.filter (fun e => negb (isOpen E (fst e))) ws.
Proof.
  intros Hu Hin. apply list_elem_of_fmap in Hin as (e & -> & He).
  apply list_elem_of_In, List.filter_In in He as [_ Ho].
  apply isOpen_elem_of in Hu. by rewrite Hu in Ho.
Qed.

(** X24: the commands that select a target or a bucket.  With a name that
    is not empty, the command assigns the selection ([selectS3Target]
    also clears the bucket), removes from the watch set every entry whose
    uri a tab shows and returns; the next firing of the sync callback
    pushes nothing for a uri shown in a tab.  With the empty name the
    command does nothing. *)
Theorem select_commands_unwatch tabGroups selected w :
  (selected <> "" ->
   (exists closed w',
      run (selectS3Target tabGroups selected) w = (Returned closed, w', []) /\
      currentTarget (conn w') = Some selected /\
      currentBucket (conn w') = None /\
      fileWatchers (watch w')
      = List.filter (fun e => negb (isOpen (tabUris tabGroups) (fst e)))
          (fileWatchers (watch w)) /\
      (NoDup (fst <$> fileWatchers (watch w)) ->
       forall u, u ∈ tabUris tabGroups ->
         pushCalls u (eventsSince w' (worldOf (run syncInterval w'))) = 0%nat)) /\
   (exists closed w',
      run (selectS3Bucket tabGroups selected) w = (Returned closed, w', []) /\
      currentTarget (conn w') = currentTarget (conn w) /\
      currentBucket (conn w') = Some selected /\
      fileWatchers (watch w')
      = List.filter (fun e => negb (isOpen (tabUris tabGroups) (fst e)))
          (fileWatchers (watch w)) /\
      (NoDup (fst <$> fileWatchers (watch w)) ->
       forall u, u ∈ tabUris tabGroups ->
         pushCalls u (eventsSince w' (worldOf (run syncInterval w'))) = 0%nat))) /\
  (selected = "" ->
   run (selectS3Target tabGroups selected) w = (Returned [], w, []) /\
   run (selectS3Bucket tabGroups selected) w = (Returned [], w, [])).
Proof.
  split.
  - intros Hne. unfold selectS3Target, selectS3Bucket.
    rewrite (truthy_selected selected Hne).
    unfold setTarget, selectBucket, closeAllTabs, showInformationMessage, refresh, modify.
    cbn [bind run].
    split.
    + change (fileWatchers (watch (set_currentBucket None
                (set_currentTarget (Some selected) w)))) with (fileWatchers (watch w)).
      pose proof (closeGroups_watchers tabGroups (fileWatchers (watch w))) as Hws.
      destruct (closeGroups tabGroups (fileWatchers (watch w))) as [closed ws'].
      cbn [snd] in Hws. cbn [run]. eexists _, _. split; [reflexivity|].
      split; [reflexivity|]. split; [reflexivity|]. split; [exact Hws|].
      intros Hnd u Hu. apply unwatched_not_pushed.
      * change (NoDup (fst <$> ws')). rewrite Hws. by apply NoDup_keys_filter.
      * change (u ∉ fst <$> ws'). rewrite Hws. by apply shown_unwatched.
    + change (fileWatchers (watch (set_currentBucket (Some selected) w)))
        with (fileWatchers (watch w)).
      pose proof (closeGroups_watchers tabGroups (fileWatchers (watch w))) as Hws.
      destruct (closeGroups tabGroups (fileWatchers (watch w))) as [closed ws'].
      cbn [snd] in Hws. cbn [run]. eexists _, _. split; [reflexivity|].
      split; [reflexivity|]. split; [reflexivity|]. split; [exact Hws|].
      intros Hnd u Hu. apply unwatched_not_pushed.
      * change (NoDup (fst <$> ws')). rewrite Hws. by apply NoDup_keys_filter.
      * change (u ∉ fst <$> ws'). rewrite Hws. by apply shown_unwatched.
  - intros ->. by split.
Qed.

Lemma select_commands_unwatch_witness :
  exists closed w',
    run (selectS3Bucket
           [[mkTab (Some (mkTabInput (Some (Sample.uriOf Scenario.fileA))))]] "b2")
      Scenario.twoModified
    = (Returned closed, w', []) /\
    currentBucket (conn w') = Some "b2".
Proof.
  destruct (proj2 (proj1 (select_commands_unwatch
              [[mkTab (Some (mkTabInput (Some (Sample.uriOf Scenario.fileA))))]] "b2"
              Scenario.twoModified) ltac:(discriminate)))
    as (closed & w' & E & _ & Hb & _).
  exists closed, w'. by split.
Defined.

(** ** The settings prompt *)

Lemma deliver_disposed events s :
  disposed s = true -> fold_left deliver events s = s.
Proof.
  intros Hd. induction events as [|e rest IH]; [reflexivity|].
  cbn [fold_left]. unfold deliver at 2. by rewrite Hd.
Qed.

Lemma decisive_complete e r : decisive e = Some (Some r) -> complete r = true.
Proof.
  destruct e as [[[a|] [k|] [h|]| |c]|]; cbn; try discriminate.
  unfold complete. destruct (Js.truthy a && Js.truthy k && Js.truthy h) eqn:E;
    [|discriminate].
  by intros [= <-].
Qed.

Lemma deliver_pending e posted0 :
  match decisive e with
  | Some outcome =>
      deliver (mkPromptState None false posted0) e = mkPromptState (Some outcome) true posted0
  | None =>
      exists posted1, deliver (mkPromptState None false posted0) e
                      = mkPromptState None false posted1
  end.
Proof.
  destruct e as [[a k h| |c]|]; cbn; try reflexivity; [|eauto].
  destruct a as [a|], k as [k|], h as [h|]; cbn; eauto.
  - destruct (Js.truthy a), (Js.truthy k), (Js.truthy h); cbn; eauto.
  - by destruct (Js.truthy a), (Js.truthy k); cbn; eauto.
  - by destruct (Js.truthy a); cbn; eauto.
  - by destruct (Js.truthy a); cbn; eauto.
Qed.

Lemma show_from events posted0 :
  exists posted1,
    fold_left deliver events (mkPromptState None false posted0)
    = mkPromptState (firstDecisive events)
        (bool_decide (is_Some (firstDecisive events))) posted1.
Proof.
  revert posted0. induction events as [|e rest IH]; intros posted0; cbn [fold_left firstDecisive].
  - by exists posted0.
  - pose proof (deliver_pending e posted0) as H.
    destruct (decisive e) as [outcome|].
    + rewrite H, deliver_disposed by reflexivity. by exists posted0.
    + destruct H as [posted1 ->]. apply IH.
Qed.

(** X25: the settings prompt settles with the outcome of the first event
    that decides it, a save with all three fields filled in, a cancel or
    the user closing the panel, and ignores what comes after; until then
    it stays open and pending.  The panel is disposed exactly when the
    promise is settled, and a result, when there is one, has none of its
    three fields empty. *)
Theorem show_settles_on_first_decisive events :
  resolved (show events) = firstDecisive events /\
  disposed (show events) = bool_decide (is_Some (resolved (show events))) /\
  forall r, resolved (show events) = Some (Some r) -> complete r = true.
Proof.
  unfold show. destruct (show_from events []) as [posted1 ->]. cbn [resolved disposed].
  split; [reflexivity|]. split; [reflexivity|].
  intros r. induction events as [|e rest IH]; cbn [firstDecisive]; [discriminate|].
  destruct (decisive e) as [outcome|] eqn:E; [|exact IH].
  intros [= ->]. by apply (decisive_complete e).
Qed.

Lemma show_result_complete events r :
  resolved (show events) = Some (Some r) -> complete r = true.
Proof.
  unfold show. destruct (show_from events []) as [posted1 ->]. cbn [resolved].
  induction events as [|e rest IH]; cbn [firstDecisive]; [discriminate|].
  destruct (decisive e) as [outcome|] eqn:E; [|exact IH].
  intros [= ->]. by apply (decisive_complete e).
Qed.

(** X26: a target added through the prompt verifies.  When the prompt
    that [addTarget] awaits settles with a result, [addTarget] returns
    with the settings cached and [verifySettings] then returns true; when
    it settles without one, no secret is written. *)
Theorem prompted_target_verifies events answer t rest w :
  resolved (show events) = Some answer ->
  promptAnswers (platform w) = answer :: rest ->
  let w' := worldOf (run (addTarget t) w) in
  completionOf (run (addTarget t) w) = Returned tt /\
  match answer with
  | Some r =>
      settings (conn w') !! t = Some (settingsOf r) /\
      completionOf (run (verifySettings t) w') = Returned true
  | None => secretStorage (platform w') = secretStorage (platform w)
  end.
Proof.
  intros Hshow Hp w'. subst w'. destruct answer as [r|].
  - rewrite (run_addTarget_saved t r rest w Hp).
    unfold completionOf at 1, worldOf. cbn [fst snd].
    split; [reflexivity|]. split; [apply lookup_insert_eq|].
    rewrite verifySettings_returns, resolveSettings_withSettings; [reflexivity|].
    by apply (show_result_complete events).
  - unfold addTarget, globalState_update, completionOf, worldOf. cbn. rewrite Hp.
    by split.
Qed.

Lemma prompted_target_verifies_witness :
  completionOf
    (run (verifySettings "t2")
       (worldOf (run (addTarget "t2")
          (set_promptAnswers [Some (mkS3SettingsResult "AK" "SK" "http://h")]
             (Sample.configured [])))))
  = Returned true.
Proof.
  refine (proj2 (proj2 (prompted_target_verifies
            [Received (MsgSave (Some "AK") None (Some "http://h"));
             Received (MsgSave (Some "AK") (Some "SK") (Some "http://h"))]
            (Some (mkS3SettingsResult "AK" "SK" "http://h")) "t2" []
            (set_promptAnswers [Some (mkS3SettingsResult "AK" "SK" "http://h")]
               (Sample.configured [])) _ _))); reflexivity.
Defined.

(** ** Listing a bucket *)

Lemma prefix_slice p k :
  String.prefix p k = true -> k = p +:+ Js.slice (String.length p) k.
Proof.
  revert k. induction p as [|c p IH]; intros k; [reflexivity|].
  destruct k as [|c' k]; [discriminate|]. cbn [String.prefix].
  destruct (Ascii.ascii_dec c c') as [->|]; [|discriminate].
  intros H. cbn [String.length Js.slice]. rewrite append_cons. f_equal. by apply IH.
Qed.

Lemma slice_append p x : Js.slice (String.length p) (p +:+ x) = x.
Proof. induction p as [|c p IH]; [by destruct x | exact IH]. Qed.

Lemma prefix_append p x : String.prefix p (p +:+ x) = true.
Proof.
  induction p as [|c p IH]; [by destruct x|].
  rewrite append_cons. cbn [String.prefix].
  by destruct (Ascii.ascii_dec c c).
Qed.

Lemma default_nonempty {A} (l : list A) : default [] (nonempty l) = l.
Proof. by destruct l. Qed.

Lemma listingPrefix_child parent n :
  plainName parent ->
  prefixAncestors parent n = listingPrefix parent +:+ n.
Proof.
  destruct parent as [d|]; [|reflexivity]. intros [Hne Hslash]. by apply child_key.
Qed.

Lemma run_getFilesInBucket parent w t b objs :
  selection w = Some (t, b) ->
  Serving (resolveClient t w) b objs w ->
  exists sp,
    run (getFilesInBucket parent) w
    = (Returned
         (let response :=
            listPage objs (mkListInput b (Some (listingPrefix parent)) (Some "/") None)
              (pageSize (remote w)) in
          directoryItems (listingPrefix parent) parent (default [] (CommonPrefixes response))
          ++ fileItems (listingPrefix parent) parent (default [] (Contents response))),
       answered (resolveClient t w)
         (ListObjectsV2Command (mkListInput b (Some (listingPrefix parent)) (Some "/") None))
         (connect t w),
       sp).
Proof.
  intros Hsel Hserve.
  apply (Serving_connect _ _ _ t) in Hserve.
  destruct (Serving_endpoint _ _ _ _ Hserve) as (Hf & buckets & He & Hb).
  unfold getFilesInBucket. rewrite run_bind. cbn [get run]. rewrite Hsel.
  fold (listingPrefix parent).
  match goal with
  | |- context [run (bind (getClient t) ?k) w] =>
      destruct (run_bind_getClient t k w) as [sp E]
  end.
  exists sp. rewrite E. clear E.
  rewrite_request (run_await_send (resolveClient t w)
    (ListObjectsV2Command (mkListInput b (Some (listingPrefix parent)) (Some "/") None))
    (fun response : ListObjectsV2Output =>
       Ret (directoryItems (listingPrefix parent) parent (default [] (CommonPrefixes response))
            ++ fileItems (listingPrefix parent) parent (default [] (Contents response))))
    (connect t w) buckets Hf He).
  cbn [serve in_Bucket]. rewrite Hb. cbn [fst snd run app].
  rewrite (served_same _ _ _ _ He), remote_connect. by rewrite ?app_nil_r.
Qed.

(** *** Names and slashes *)

Lemma prefix_nil s : String.prefix "" s = true.
Proof. by destruct s. Qed.

Lemma index_slash_cons c s :
  String.index 0 "/" (String c s)
  = if Ascii.eqb c "/" then Some 0%nat
    else match String.index 0 "/" s with Some n => Some (S n) | None => None end.
Proof.
  cbn [String.index String.prefix].
  destruct (Ascii.ascii_dec "/" c) as [<-|Hne].
  - by rewrite prefix_nil.
  - destruct (Ascii.eqb_spec c "/") as [->|_]; [done | reflexivity].
Qed.

Lemma noSlash_cons c s : noSlash (String c s) <-> c <> "/"%char /\ noSlash s.
Proof.
  unfold noSlash. rewrite index_slash_cons.
  destruct (Ascii.eqb_spec c "/") as [->|Hne].
  - split; [discriminate | by intros [H _]].
  - destruct (String.index 0 "/" s); split; try done; by intros [_ H].
Qed.

Lemma noSlash_endsWith s : noSlash s -> Js.endsWith s "/" = false.
Proof.
  induction s as [|c s IH]; [reflexivity|].
  intros [Hc Hs]%noSlash_cons. cbn [Js.endsWith].
  destruct (String.eqb_spec (String c s) "/") as [E|_]; [by injection E | by apply IH].
Qed.

Lemma substring_cons m c s :
  String.substring 0 (S m) (String c s) = String c (String.substring 0 m s).
Proof. reflexivity. Qed.

Lemma index_slash_split rest i :
  String.index 0 "/" rest = Some i ->
  exists head tail,
    rest = head +:+ "/" +:+ tail /\
    String.substring 0 (i + 1) rest = head +:+ "/" /\
    noSlash head.
Proof.
  revert i. induction rest as [|c rest IH]; intros i; [discriminate|].
  rewrite index_slash_cons.
  destruct (Ascii.eqb_spec c "/") as [->|Hne].
  - intros [= <-]. exists "", rest. repeat split. cbn. by destruct rest.
  - destruct (String.index 0 "/" rest) as [n|]; [|discriminate].
    intros [= <-]. destruct (IH n eq_refl) as (head & tail & -> & Hsub & Hno).
    exists (String c head), tail. split; [reflexivity|]. split.
    + rewrite (append_cons c head "/"). change (S n + 1)%nat with (S (n + 1)).
      by rewrite substring_cons, Hsub.
    + by apply noSlash_cons.
Qed.

Lemma index_slash_first head tail :
  noSlash head ->
  String.index 0 "/" (head +:+ "/" +:+ tail) = Some (String.length head) /\
  String.substring 0 (String.length head + 1) (head +:+ "/" +:+ tail) = head +:+ "/".
Proof.
  induction head as [|c head IH].
  - intros _. change ("" +:+ "/" +:+ tail) with (String "/" tail).
    split; [by rewrite index_slash_cons | cbn; by destruct tail].
  - intros [Hc Hs]%noSlash_cons. destruct (IH Hs) as [Hi Hsub].
    rewrite (append_cons c head ("/" +:+ tail)), (append_cons c head "/"),
      index_slash_cons, Hi.
    destruct (Ascii.eqb_spec c "/") as [->|_]; [done|]. split; [reflexivity|].
    cbn [String.length]. change (S (String.length head) + 1)%nat
      with (S (String.length head + 1)).
    by rewrite substring_cons, Hsub.
Qed.

Lemma dropTrailingSlash_append h : Js.dropTrailingSlash (h +:+ "/") = h.
Proof.
  induction h as [|c h IH]; [reflexivity|].
  rewrite append_cons. cbn [Js.dropTrailingSlash].
  destruct (String.eqb_spec (h +:+ "/") "") as [E|_]; [|by rewrite IH].
  destruct h; discriminate E.
Qed.

Lemma append_nil_r (s : string) : s +:+ "" = s.
Proof. induction s as [|c s IH]; [reflexivity|]. by rewrite append_cons, IH. Qed.

Lemma append_eq_self p x : p +:+ x = p -> x = "".
Proof. intros H. apply (append_inv_head p). by rewrite append_nil_r. Qed.

Lemma truthy_append p x : x <> "" -> Js.truthy (p +:+ x) = true.
Proof.
  intros Hx. apply truthy_nonempty. intros E.
  destruct p; [by rewrite append_nil in E | by rewrite append_cons in E].
Qed.

(** *** What the answer is turned into *)

Lemma rollup_slash p k :
  rollup p (Some "/") k
  = match String.index 0 "/" (Js.slice (String.length p) k) with
    | Some i => Some (p +:+ String.substring 0 (i + 1) (Js.slice (String.length p) k))
    | None => None
    end.
Proof. reflexivity. Qed.

Lemma firstPage_prefix p n objs kv :
  kv ∈ firstPage p n objs -> String.prefix p (fst kv) = true /\ kv ∈ objs.
Proof.
  unfold firstPage. intros H. apply elem_of_take in H as (i & Hi & _).
  apply list_elem_of_lookup_2, list_elem_of_In, List.filter_In in Hi as [Hin Hp].
  split; [exact Hp | by apply list_elem_of_In].
Qed.

Lemma listPage_contents objs b p n :
  default [] (Contents (listPage objs (mkListInput b (Some p) (Some "/") None) n))
  = summary <$> List.filter
      (fun kv => negb (bool_decide (is_Some (rollup p (Some "/") (fst kv)))))
      (firstPage p n objs).
Proof. unfold listPage. cbn [Contents]. apply default_nonempty. Qed.

Lemma listPage_prefixes objs b p n :
  default [] (CommonPrefixes (listPage objs (mkListInput b (Some p) (Some "/") None) n))
  = Some <$> remove_dups (omap (fun kv => rollup p (Some "/") (fst kv)) (firstPage p n objs)).
Proof. unfold listPage. cbn [CommonPrefixes]. apply default_nonempty. Qed.

Lemma fileItems_iff p parent (page : Bucket) f :
  (forall kv, kv ∈ page -> String.prefix p (fst kv) = true) ->
  OfFile f ∈ fileItems p parent
    (summary <$> List.filter
       (fun kv => negb (bool_decide (is_Some (rollup p (Some "/") (fst kv))))) page)
  <->
  fileParentDir f = parent /\ fileName f <> "" /\ noSlash (fileName f) /\
  exists o, (p +:+ fileName f, o) ∈ page /\ sizeBytes f = length (Body o).
Proof.
  intros Hpre. unfold fileItems. rewrite list_elem_of_omap. split.
  - intros (obj & Hobj & Hg).
    apply list_elem_of_fmap in Hobj as ([k o] & -> & Hkv).
    apply list_elem_of_In, List.filter_In in Hkv as [Hkv Hroll].
    apply list_elem_of_In in Hkv. pose proof (Hpre _ Hkv) as Hp. cbn [fst] in Hp, Hroll.
    cbn [summary Key Size fst snd default] in Hg.
    destruct (Js.truthy k && negb (String.eqb k p)) eqn:Hk; [|discriminate].
    apply andb_prop in Hk as [_ Hk].
    destruct (negb (Js.endsWith (Js.slice (String.length p) k) "/")); [|discriminate].
    injection Hg as <-. cbn [fileParentDir fileName sizeBytes].
    pose proof (prefix_slice p k Hp) as Ek.
    split; [reflexivity|]. split.
    { intros E. rewrite E, append_nil_r in Ek. subst k.
      by rewrite String.eqb_refl in Hk. }
    split.
    { unfold noSlash. rewrite rollup_slash in Hroll.
      by destruct (String.index 0 "/" (Js.slice (String.length p) k)). }
    exists o. by rewrite <- Ek.
  - intros (Hparent & Hne & Hno & o & Hkv & Hsize).
    exists (summary (p +:+ fileName f, o)). split.
    + apply list_elem_of_fmap. exists (p +:+ fileName f, o). split; [reflexivity|].
      apply list_elem_of_In, List.filter_In. split; [by apply list_elem_of_In|].
      cbn [fst]. rewrite rollup_slash, slice_append. unfold noSlash in Hno. by rewrite Hno.
    + cbn [summary Key Size fst snd default].
      rewrite (truthy_append p _ Hne).
      destruct (String.eqb_spec (p +:+ fileName f) p) as [E|_];
        [by apply append_eq_self in E|].
      cbn [negb andb]. rewrite slice_append, (noSlash_endsWith _ Hno). cbn [negb].
      destruct f as [n s pd]. cbn in *. by subst.
Qed.

Lemma directoryItems_iff p parent (page : Bucket) d :
  (forall kv, kv ∈ page -> String.prefix p (fst kv) = true) ->
  OfDirectory d ∈ directoryItems p parent
    (Some <$> remove_dups (omap (fun kv => rollup p (Some "/") (fst kv)) page))
  <->
  exists h,
    d = Dir h parent /\ h <> "" /\ noSlash h /\
    exists kv tail, kv ∈ page /\ fst kv = p +:+ h +:+ "/" +:+ tail.
Proof.
  intros Hpre. unfold directoryItems. rewrite list_elem_of_omap. split.
  - intros (cpo & Hcp & Hg).
    apply list_elem_of_fmap in Hcp as (cp & -> & Hcp).
    apply elem_of_remove_dups, list_elem_of_omap in Hcp as ([k o] & Hkv & Hroll).
    cbn [fst] in Hroll. rewrite rollup_slash in Hroll.
    destruct (String.index 0 "/" (Js.slice (String.length p) k)) as [i|] eqn:Hi;
      [|discriminate].
    injection Hroll as <-.
    destruct (index_slash_split _ _ Hi) as (head & tail & Erest & Hsub & Hno).
    rewrite Hsub in Hg. rewrite slice_append, dropTrailingSlash_append in Hg.
    destruct (Js.truthy (p +:+ head +:+ "/")); [|discriminate].
    destruct (String.length head =? 0)%nat eqn:Hlen; [discriminate|].
    injection Hg as <-. exists head. split; [reflexivity|]. split.
    { intros ->. discriminate Hlen. }
    split; [exact Hno|]. exists (k, o), tail. split; [exact Hkv|].
    cbn [fst]. rewrite (prefix_slice p k (Hpre _ Hkv)). by rewrite Erest.
  - intros (h & -> & Hne & Hno & [k o] & tail & Hkv & Ek). cbn [fst] in Ek.
    destruct (index_slash_first h tail Hno) as [Hi Hsub].
    exists (Some (p +:+ h +:+ "/")). split.
    + apply list_elem_of_fmap. exists (p +:+ h +:+ "/"). split; [reflexivity|].
      apply elem_of_remove_dups, list_elem_of_omap. exists (k, o). split; [exact Hkv|].
      cbn [fst]. rewrite rollup_slash, Ek, slice_append, Hi. by rewrite Hsub.
    + rewrite truthy_append by (by destruct h).
      rewrite slice_append, dropTrailingSlash_append.
      destruct h; [done | reflexivity].
Qed.

Lemma elem_of_items_file (dirs files : list FileObject) f :
  (forall o, o ∈ dirs -> isDirectory o = true) ->
  OfFile f ∈ dirs ++ files <-> OfFile f ∈ files.
Proof.
  intros Hd. rewrite elem_of_app. split; [|by right].
  intros [H|H]; [by apply Hd in H | exact H].
Qed.

Lemma elem_of_items_directory (dirs files : list FileObject) d :
  (forall o, o ∈ files -> isDirectory o = false) ->
  OfDirectory d ∈ dirs ++ files <-> OfDirectory d ∈ dirs.
Proof.
  intros Hf. rewrite elem_of_app. split; [|by left].
  intros [H|H]; [exact H | by apply Hf in H].
Qed.

Lemma directoryItems_directories p parent cps o :
  o ∈ directoryItems p parent cps -> isDirectory o = true.
Proof.
  unfold directoryItems. rewrite list_elem_of_omap. intros ([cp|] & _ & H); [|discriminate].
  destruct (Js.truthy cp); [|discriminate].
  destruct (_ =? _)%nat; [discriminate|]. by injection H as <-.
Qed.

Lemma fileItems_files p parent objs o :
  o ∈ fileItems p parent objs -> isDirectory o = false.
Proof.
  unfold fileItems. rewrite list_elem_of_omap. intros (obj & _ & H).
  destruct (Key obj) as [k|]; [|discriminate].
  destruct (_ && _); [|discriminate]. destruct (negb _); [|discriminate].
  by injection H as <-.
Qed.

(** X27: with a target and a bucket selected and a store that answers,
    [getFilesInBucket] returns and leaves the store as it is.  For the
    root or a directory with a plain name, what it returns is read off
    the first page of the keys that start with the prefix: the files are
    the keys that continue the prefix by a name without a slash, each
    with the size of its object, and the directories are the names up to
    the first slash of the keys that continue the prefix by more; names
    are never empty.  Keys beyond the first page are not listed. *)
Theorem getFilesInBucket_lists_first_page parent w t b objs :
  selection w = Some (t, b) ->
  Serving (resolveClient t w) b objs w ->
  plainName parent ->
  let page := firstPage (listingPrefix parent) (pageSize (remote w)) objs in
  exists items,
    completionOf (run (getFilesInBucket parent) w) = Returned items /\
    endpoints (remote (worldOf (run (getFilesInBucket parent) w))) = endpoints (remote w) /\
    (forall f,
       OfFile f ∈ items <->
       fileParentDir f = parent /\ fileName f <> "" /\ noSlash (fileName f) /\
       exists o, (getObjectKey (OfFile f), o) ∈ page /\ sizeBytes f = length (Body o)) /\
    (forall d,
       OfDirectory d ∈ items <->
       parentDir (OfDirectory d) = parent /\
       name (OfDirectory d) <> "" /\ noSlash (name (OfDirectory d)) /\
       exists kv tail, kv ∈ page /\ fst kv = getObjectKey (OfDirectory d) +:+ tail).
Proof.
  intros Hsel Hserve Hplain page.
  destruct (run_getFilesInBucket parent w t b objs Hsel Hserve) as [sp ->].
  cbn zeta. rewrite listPage_contents, listPage_prefixes. fold page.
  set (p := listingPrefix parent) in *.
  assert (Hpre : forall kv, kv ∈ page -> String.prefix p (fst kv) = true)
    by (intros kv H; by apply firstPage_prefix in H as [H _]).
  eexists. unfold completionOf, worldOf. cbn [fst snd].
  split; [reflexivity|]. split; [cbn; by rewrite remote_connect|]. split.
  - intros f. rewrite elem_of_items_file by apply directoryItems_directories.
    rewrite (fileItems_iff p parent page f Hpre).
    split; intros (Hparent & Hne & Hno & o & Hkv & Hsize);
      (split; [exact Hparent|]; split; [exact Hne|]; split; [exact Hno|]; exists o;
       split; [|exact Hsize]).
    + unfold getObjectKey. cbn [isDirectory andb parentDir name]. rewrite Hparent.
      by rewrite (listingPrefix_child parent _ Hplain).
    + unfold getObjectKey in Hkv. cbn [isDirectory andb parentDir name] in Hkv.
      rewrite Hparent in Hkv. by rewrite (listingPrefix_child parent _ Hplain) in Hkv.
  - intros d. rewrite elem_of_items_directory by apply fileItems_files.
    rewrite (directoryItems_iff p parent page d Hpre).
    assert (Hkey : forall h, h <> "" -> noSlash h ->
              getObjectKey (OfDirectory (Dir h parent)) = p +:+ h +:+ "/").
    { intros h Hne Hno. unfold getObjectKey. cbn [isDirectory andb parentDir name].
      rewrite (listingPrefix_child parent _ Hplain). fold p.
      rewrite endsWith_slash_app by done. rewrite (noSlash_endsWith _ Hno). cbn [negb].
      apply append_assoc. }
    split.
    + intros (h & -> & Hne & Hno & kv & tail & Hkv & Ek).
      cbn [parentDir name]. split; [reflexivity|]. split; [exact Hne|].
      split; [exact Hno|]. exists kv, tail. split; [exact Hkv|].
      rewrite (Hkey h Hne Hno), Ek. by rewrite !append_assoc.
    + destruct d as [h pd]. cbn [parentDir name].
      intros (-> & Hne & Hno & kv & tail & Hkv & Ek).
      exists h. split; [reflexivity|]. split; [exact Hne|]. split; [exact Hno|].
      exists kv, tail. split; [exact Hkv|].
      rewrite (Hkey h Hne Hno) in Ek. rewrite Ek. by rewrite !append_assoc.
Qed.

Lemma getFilesInBucket_lists_first_page_witness :
  exists items,
    completionOf (run (getFilesInBucket (Some Sample.docs)) Scenario.behindClock)
    = Returned items /\
    OfFile (mkFile "a.excalidraw.json" 0 (Some Sample.docs)) ∈ items.
Proof.
  assert (Hsel : selection Scenario.behindClock = Some ("t1", "b1")) by reflexivity.
  assert (Hserve : Serving (resolveClient "t1" Scenario.behindClock) "b1"
                     [("docs/a.excalidraw.json", Sample.object (Some 500))]
                     Scenario.behindClock) by (split; reflexivity).
  assert (Hplain : plainName (Some Sample.docs)) by (split; [discriminate | reflexivity]).
  destruct (getFilesInBucket_lists_first_page _ _ _ _ _ Hsel Hserve Hplain)
    as (items & E & _ & Hf & _).
  exists items. split; [exact E|]. apply Hf.
  split; [reflexivity|]. split; [discriminate|]. split; [reflexivity|].
  exists (Sample.object (Some 500)). split; [|reflexivity].
  vm_compute. apply list_elem_of_here.
Defined.

(** ** [addDirectory], then [getFilesInBucket] *)

Lemma run_addDirectory d w t b objs :
  selection w = Some (t, b) ->
  Serving (resolveClient t w) b objs w ->
  let key := getObjectKey (OfDirectory d) in
  let key' := if Js.endsWith key "/" then key +:+ "/" else key in
  exists buckets sp,
    run (addDirectory d) w
    = (Returned tt,
       served (resolveClient t w) (PutObjectCommand b key' [] None)
         (<[b := putKey key' (mkS3Object [] None) objs]> buckets)
         (connect t w),
       sp).
Proof.
  intros Hsel Hserve key key'.
  destruct (Serving_endpoint _ _ _ _ Hserve) as (Hf & buckets & He & Hb).
  destruct (connect_frame t w) as (Hr & _).
  unfold addDirectory. rewrite run_bind. cbn [get run]. rewrite Hsel.
  fold key. fold key'.
  match goal with
  | |- context [run (bind (getClient t) ?k) w] =>
      destruct (run_bind_getClient t k w) as [sp E]
  end.
  cbn [S3Output] in E |- *.
  exists buckets, ([] ++ sp). rewrite E.
  assert (Hf' : netFaults (remote (connect t w)) = []) by (by rewrite Hr).
  assert (He' : endpoints (remote (connect t w)) !! endpoint (resolveClient t w)
                = Some buckets) by (by rewrite Hr).
  rewrite_request (run_send (resolveClient t w) (PutObjectCommand b key' [] None)
    (connect t w) buckets Hf' He').
  cbn [serve]. rewrite Hb. cbn [fst snd]. by rewrite ?app_nil_r.
Qed.

Lemma elem_of_putKey k o objs : (k, o) ∈ putKey k o objs.
Proof.
  induction objs as [|[k' o'] rest IH]; cbn [putKey]; [apply list_elem_of_here|].
  destruct (String.eqb k k'); [apply list_elem_of_here|].
  destruct (String.ltb k k'); [apply list_elem_of_here|].
  by apply list_elem_of_further.
Qed.

Lemma length_putKey k o objs : (length (putKey k o objs) <= S (length objs))%nat.
Proof.
  induction objs as [|[k' o'] rest IH]; cbn [putKey length]; [lia|].
  destruct (String.eqb k k'); [cbn [length]; lia|].
  destruct (String.ltb k k'); cbn [length]; lia.
Qed.

(** A page that has room for every key holds every key with the prefix. *)
Lemma firstPage_all p n objs kv :
  (length objs <= n)%nat ->
  kv ∈ objs -> String.prefix p (fst kv) = true -> kv ∈ firstPage p n objs.
Proof.
  intros Hlen Hin Hp. unfold firstPage. rewrite take_ge.
  - by apply list_elem_of_In, List.filter_In; split; [apply list_elem_of_In|].
  - etransitivity; [apply List.filter_length_le | exact Hlen].
Qed.

(** The key of a directory below the root or a directory with a plain
    name. *)
Lemma directory_key_under parent h :
  plainName parent -> h <> "" -> noSlash h ->
  getObjectKey (OfDirectory (Dir h parent)) = listingPrefix parent +:+ h +:+ "/".
Proof.
  intros Hplain Hne Hno. unfold getObjectKey. cbn [isDirectory andb parentDir name].
  rewrite (listingPrefix_child parent _ Hplain).
  rewrite endsWith_slash_app by done. rewrite (noSlash_endsWith _ Hno). cbn [negb].
  apply append_assoc.
Qed.

(** X28: a directory that was added is listed.  With a target and a
    bucket selected, a store that answers and a page that has room for
    the keys of the bucket and one more, [addDirectory] of a directory
    with a name that is not empty and has no slash, below the root or a
    directory with a plain name, returns; the bucket then holds an empty
    object under the key of the directory followed by a further slash,
    the objects under the other keys are as before, and
    [getFilesInBucket] of the parent lists the directory. *)
Theorem addDirectory_then_listed parent n w t b objs :
  selection w = Some (t, b) ->
  Serving (resolveClient t w) b objs w ->
  plainName parent ->
  n <> "" ->
  noSlash n ->
  (length objs < pageSize (remote w))%nat ->
  let d := Dir n parent in
  let key := getObjectKey (OfDirectory d) +:+ "/" in
  let w' := worldOf (run (addDirectory d) w) in
  completionOf (run (addDirectory d) w) = Returned tt /\
  (exists objs',
     Serving (resolveClient t w) b objs' w' /\
     lookupKey key objs' = Some (mkS3Object [] None) /\
     forall k, k <> key -> lookupKey k objs' = lookupKey k objs) /\
  exists items,
    completionOf (run (getFilesInBucket parent) w') = Returned items /\
    OfDirectory d ∈ items.
Proof.
  intros Hsel Hserve Hplain Hne Hno Hlen d key w'. subst w' key d.
  destruct (run_addDirectory (Dir n parent) w t b objs Hsel Hserve) as (buckets & sp & ->).
  cbn zeta. rewrite !(directory_key_under parent n Hplain Hne Hno).
  set (p := listingPrefix parent).
  assert (Hslash : Js.endsWith (p +:+ n +:+ "/") "/" = true).
  { rewrite endsWith_slash_app by (by destruct n). by rewrite endsWith_slash_app. }
  rewrite Hslash.
  set (key := (p +:+ n +:+ "/") +:+ "/").
  assert (Ekey : key = (p +:+ n +:+ "/") +:+ "/") by reflexivity.
  unfold completionOf, worldOf. cbn [fst snd].
  set (o := mkS3Object [] None).
  set (w1 := served _ _ _ (connect t w)).
  assert (Hsel1 : selection w1 = Some (t, b))
    by (rewrite <- Hsel; apply (selection_connect t w)).
  assert (Hc1 : resolveClient t w1 = resolveClient t w) by apply resolveClient_connect.
  assert (Hserve1 : Serving (resolveClient t w) b (putKey key o objs) w1)
    by apply Serving_served, lookup_insert_eq.
  split; [reflexivity|]. split.
  { exists (putKey key o objs). split; [exact Hserve1|].
    split; [apply lookupKey_putKey|]. intros k Hk. by apply lookupKey_putKey_ne. }
  rewrite <- Hc1 in Hserve1.
  destruct (run_getFilesInBucket parent w1 t b _ Hsel1 Hserve1) as [sp1 ->].
  eexists. cbn [fst]. split; [reflexivity|].
  cbn zeta. rewrite listPage_prefixes. fold p.
  apply elem_of_app. left.
  apply (directoryItems_iff p parent).
  { intros kv H. by apply firstPage_prefix in H as [H _]. }
  exists n. split; [reflexivity|]. split; [exact Hne|]. split; [exact Hno|].
  exists (key, o), "/". split; [|by rewrite Ekey, !append_assoc].
  apply firstPage_all.
  - assert (Hps : pageSize (remote w1) = pageSize (remote w))
      by (unfold w1; cbn; by rewrite remote_connect).
    rewrite Hps. pose proof (length_putKey key o objs). lia.
  - apply elem_of_putKey.
  - cbn [fst]. rewrite Ekey, !append_assoc. apply prefix_append.
Qed.

Lemma addDirectory_then_listed_witness :
  exists items,
    completionOf
      (run (getFilesInBucket None)
         (worldOf (run (addDirectory Sample.docs) (Sample.configured []))))
    = Returned items /\
    OfDirectory Sample.docs ∈ items.
Proof.
  assert (Hsel : selection (Sample.configured []) = Some ("t1", "b1")) by reflexivity.
  assert (Hserve : Serving (resolveClient "t1" (Sample.configured [])) "b1" []
                     (Sample.configured [])) by (split; reflexivity).
  assert (Hlen : (length (@nil (string * S3Object)) < pageSize (remote (Sample.configured [])))%nat)
    by (cbn; lia).
  destruct (addDirectory_then_listed None "docs" _ _ _ _ Hsel Hserve I
              ltac:(discriminate) eq_refl Hlen)
    as (_ & _ & items & E & Hin).
  exists items. split; [exact E | exact Hin].
Defined.

(** ** The first client of a target *)

(** [verifySettings] on a target without cached settings runs as far as
    the request for the first secret. *)
Lemma advance_verifySettings_fresh t w :
  settings (conn w) !! t = None ->
  advance (verifySettings t) w
  = (loadSecret t "_s3AccessKeyId" accessKeyId with_accessKeyId newTargetSettings
       (fun s1 =>
        loadSecret t "_s3SecretAccessKey" secretAccessKey with_secretAccessKey s1
          (fun s2 =>
           loadSecret t "_s3Host" host with_host s2
             (fun s3 => settings_set t s3 ;; Ret true))),
     touchSettings t w, []).
Proof.
  intros Hs. unfold verifySettings, touchSettings. cbn [advance get bind]. by rewrite Hs.
Qed.

(** [getClient] on a target with nothing cached: the client is built from
    the blank settings object that the started [verifySettings] has just
    put into the cache, and [verifySettings] is left waiting for the
    first secret. *)
Lemma run_getClient_fresh t w :
  settings (conn w) !! t = None ->
  clients (conn w) !! t = None ->
  run (getClient t) w
  = (Returned (clientOf newTargetSettings), connect t w,
     [Suspended
        (loadSecret t "_s3AccessKeyId" accessKeyId with_accessKeyId newTargetSettings
           (fun s1 =>
            loadSecret t "_s3SecretAccessKey" secretAccessKey with_secretAccessKey s1
              (fun s2 =>
               loadSecret t "_s3Host" host with_host s2
                 (fun s3 => settings_set t s3 ;; Ret true))))]).
Proof.
  intros Hs Hc. unfold getClient. cbn [run].
  rewrite (advance_verifySettings_fresh t w Hs).
  unfold connect, touchSettings. rewrite Hs, Hc. simpl.
  rewrite Hc. simpl. rewrite lookup_insert_eq. reflexivity.
Qed.

(** X29: the first client of a target sticks.  On a connector that has
    neither settings nor a client cached for the target, [getClient]
    does not wait for the [verifySettings] it starts: it returns a client
    with an empty endpoint and empty credentials and caches it.  Once the
    started verification has settled, the settings cache holds the
    complete settings when the stored secrets give them, and [getClient]
    still returns the client with the empty endpoint. *)
Theorem getClient_keeps_first_client t w :
  settings (conn w) !! t = None ->
  clients (conn w) !! t = None ->
  let blank := mkS3Client "EU" "" "" "" true in
  let r := run (getClient t) w in
  let s := settle (snd r) (worldOf r) in
  completionOf r = Returned blank /\
  snd s = [] /\
  (forall st, resolveSettings t w = Some st -> settings (conn (fst s)) !! t = Some st) /\
  clients (conn (fst s)) !! t = Some blank /\
  completionOf (run (getClient t) (fst s)) = Returned blank.
Proof.
  intros Hs Hc blank r s. subst s r.
  rewrite (run_getClient_fresh t w Hs Hc). unfold completionOf, worldOf.
  cbn [fst snd settle].
  assert (Hs1 : settings (conn (connect t w)) !! t = Some newTargetSettings).
  { unfold connect, touchSettings. rewrite Hc, Hs. cbn. apply lookup_insert_eq. }
  assert (Hc1 : clients (conn (connect t w)) !! t = Some blank).
  { unfold connect, touchSettings. rewrite Hc, Hs. cbn. apply lookup_insert_eq. }
  rewrite (run_loadSecrets t newTargetSettings (connect t w) Hs1).
  assert (Hsec : forall suffix, secretOf t suffix (connect t w) = secretOf t suffix w).
  { intros suffix. unfold secretOf. by rewrite platform_connect. }
  rewrite !Hsec.
  assert (Hres : resolveSettings t w
                 = match fieldValue "" (secretOf t "_s3AccessKeyId" w),
                         fieldValue "" (secretOf t "_s3SecretAccessKey" w),
                         fieldValue "" (secretOf t "_s3Host" w) with
                   | Some a, Some k, Some h => Some (mkTargetSettings a k h)
                   | _, _, _ => None
                   end).
  { unfold resolveSettings. by rewrite Hs. }
  rewrite Hres. cbn [accessKeyId secretAccessKey host newTargetSettings].
  assert (Hget : forall w', clients (conn w') !! t = Some blank ->
            fst (fst (run (getClient t) w')) = Returned blank).
  { intros w' H. destruct (run_getClient t w') as [sp ->]. cbn [fst].
    unfold resolveClient. by rewrite H. }
  destruct (fieldValue "" (secretOf t "_s3AccessKeyId" w)) as [a|].
  2:{ cbn [fst snd]. repeat split; [discriminate | exact Hc1 | by apply Hget]. }
  destruct (fieldValue "" (secretOf t "_s3SecretAccessKey" w)) as [k|].
  2:{ cbn [fst snd]. repeat split; [discriminate | exact Hc1 | by apply Hget]. }
  destruct (fieldValue "" (secretOf t "_s3Host" w)) as [h|].
  2:{ cbn [fst snd]. repeat split; [discriminate | exact Hc1 | by apply Hget]. }
  cbn [fst snd]. repeat split; [|exact Hc1 | by apply Hget].
  intros st [= <-]. cbn. apply lookup_insert_eq.
Qed.

Lemma getClient_keeps_first_client_witness :
  completionOf (run (getClient "t1") Sample.unconfigured)
  = Returned (mkS3Client "EU" "" "" "" true).
Proof.
  exact (proj1 (getClient_keeps_first_client "t1" Sample.unconfigured eq_refl eq_refl)).
Defined.
